(** * Complex-Surface: rotation composition and basis orthonormalisation

    A shallow embedding of [objects/runners.py] (class [FunctionRunner]) and
    [objects/functions.py] ([generate_orthonormal_bases],
    [simple_complex_square] and the field-function classes), with the
    properties of the repository's specification stated and proved over it,
    followed by further properties of the code.

    Numbers: Python floats are idealised as the real numbers of the Standard
    Library, so [np.cos], [np.sin] and the square roots of the QR
    decomposition are the real functions; rounding is outside the model.

    Arrays: a NumPy array is a shape together with its nested contents (what
    [tolist()] would return).  Every NumPy primitive the program calls is
    given by its shape rule and by the value of each entry of its result.

    Exceptions: a Python function that may raise returns a [result]. *)

From Stdlib Require Import Reals Lra Lia Ascii String Bool Arith List.
Import ListNotations.

Set Warnings "-register-all".

Open Scope string_scope.
Open Scope list_scope.
Open Scope nat_scope.

(** ** Exceptions as results *)

Inductive exn : Type :=
| NameError (name : string)
| UnboundLocalError (name : string)
| IndexError
| ValueError
| LinAlgError
| Exception (msg : string).

Inductive result (A : Type) : Type :=
| Ok (a : A)
| Raise (e : exn).

Arguments Ok {A} a.
Arguments Raise {A} e.

Definition bind {A B : Type} (m : result A) (k : A -> result B) : result B :=
  match m with
  | Ok a => k a
  | Raise e => Raise e
  end.

Notation "x <- m ;; k" := (bind m (fun x => k))
  (at level 61, m at next level, right associativity).

(** [for x in xs: s = body(x, s)] *)
Fixpoint for_each {A S : Type} (xs : list A) (body : A -> S -> result S) (s : S)
  : result S :=
  match xs with
  | [] => Ok s
  | x :: rest => s' <- body x s ;; for_each rest body s'
  end.

(** [range(n)] *)
Definition range (n : nat) : list nat := seq 0 n.

(** [enumerate(xs)] *)
Definition enumerate {A : Type} (xs : list A) : list (nat * A) :=
  combine (seq 0 (length xs)) xs.

(** one result per element, stopping at the first exception *)
Fixpoint mapM {A B : Type} (f : A -> result B) (xs : list A) : result (list B) :=
  match xs with
  | [] => Ok []
  | x :: rest => y <- f x ;; ys <- mapM f rest ;; Ok (y :: ys)
  end.

(** ** NumPy arrays *)

Inductive tree : Type :=
| Leaf (x : R)
| Node (children : list tree).

Record ndarray : Type := mk_nd { nd_shape : list nat; nd_data : tree }.

(** the nested contents with entry [f ix] at every index [ix] of [sh] *)
Fixpoint tab (sh : list nat) (f : list nat -> R) : tree :=
  match sh with
  | [] => Leaf (f [])
  | n :: sh' => Node (map (fun i => tab sh' (fun ix => f (i :: ix))) (seq 0 n))
  end.

Fixpoint tget (ix : list nat) (t : tree) : R :=
  match ix, t with
  | [], Leaf x => x
  | i :: ix', Node ts => tget ix' (nth i ts (Leaf 0%R))
  | _, _ => 0%R
  end.

Definition tabulate (sh : list nat) (f : list nat -> R) : ndarray :=
  mk_nd sh (tab sh f).

(** the entry of [a] at a full index *)
Definition at_ (a : ndarray) (ix : list nat) : R := tget ix (nd_data a).

Fixpoint in_bounds (sh ix : list nat) : Prop :=
  match sh, ix with
  | [], [] => True
  | n :: sh', i :: ix' => i < n /\ in_bounds sh' ix'
  | _, _ => False
  end.

Definition rank (a : ndarray) : nat := length (nd_shape a).

(** [t[-i]] on a shape tuple, for [i >= 1] *)
Definition shape_from_end (a : ndarray) (i : nat) : result nat :=
  if i <=? rank a then Ok (nth (rank a - i) (nd_shape a) 0) else Raise IndexError.

(** [l[i]] on a Python list *)
Definition py_index {A : Type} (l : list A) (i : nat) : result A :=
  match nth_error l i with
  | Some x => Ok x
  | None => Raise IndexError
  end.

(** *** Construction *)

Definition np_full (sh : list nat) (x : R) : ndarray := tabulate sh (fun _ => x).
Definition np_zeros (sh : list nat) : ndarray := np_full sh 0%R.
Definition np_ones (n : nat) : ndarray := np_full [n] 1%R.

(** [np.empty(sh)]: the entries are whatever the memory holds, [junk] *)
Definition np_empty (junk : list nat -> R) (sh : list nat) : ndarray :=
  tabulate sh junk.

Definition nd_map (f : R -> R) (a : ndarray) : ndarray :=
  tabulate (nd_shape a) (fun ix => f (at_ a ix)).

Definition np_cos : ndarray -> ndarray := nd_map cos.
Definition np_sin : ndarray -> ndarray := nd_map sin.
Definition np_neg : ndarray -> ndarray := nd_map Ropp.

(** [np.linspace(start, stop, num)] with [endpoint=True], as NumPy computes
    it: [arange(num) * step + start], the last sample then overwritten with
    [stop]; when the step vanishes NumPy divides before it multiplies. *)
Definition np_linspace (start stop : R) (num : nat) : ndarray :=
  let div := num - 1 in
  let delta := (stop - start)%R in
  tabulate [num] (fun ix =>
    let i := hd 0 ix in
    if (1 <? num) && (i =? num - 1) then stop
    else
      ((if 0 <? div then
          let step := (delta / INR div)%R in
          if Req_dec_T step 0 then (INR i / INR div * delta)%R
          else (INR i * step)%R
        else (INR i * delta)%R) + start)%R).

(** [np.array(rows)] for a list of lists of numbers; ragged rows are refused
    and the empty list gives the one-dimensional empty array *)
Definition np_array2 (rows : list (list R)) : result ndarray :=
  match rows with
  | [] => Ok (tabulate [0] (fun _ => 0%R))
  | row0 :: _ =>
      if forallb (fun r => length r =? length row0) rows
      then Ok (tabulate [length rows; length row0]
                 (fun ix => nth (nth 1 ix 0) (nth (nth 0 ix 0) rows []) 0%R))
      else Raise ValueError
  end.

(** [np.array(arrays)] for a list of arrays: stacked along a new first axis *)
Definition np_stack (arrays : list ndarray) : result ndarray :=
  match arrays with
  | [] => Ok (tabulate [0] (fun _ => 0%R))
  | a0 :: _ =>
      if forallb (fun b => if list_eq_dec Nat.eq_dec (nd_shape b) (nd_shape a0)
                           then true else false) arrays
      then Ok (tabulate (length arrays :: nd_shape a0)
                 (fun ix => at_ (nth (hd 0 ix) arrays a0) (tl ix)))
      else Raise ValueError
  end.

(** [a.T] *)
Definition nd_T (a : ndarray) : ndarray :=
  tabulate (rev (nd_shape a)) (fun ix => at_ a (rev ix)).

(** [a[:, :, np.newaxis]] *)
Definition newaxis2 (a : ndarray) : result ndarray :=
  match nd_shape a with
  | d0 :: d1 :: rest =>
      Ok (tabulate (d0 :: d1 :: 1 :: rest)
            (fun ix => match ix with
                       | i :: j :: _ :: more => at_ a (i :: j :: more)
                       | _ => 0%R
                       end))
  | _ => Raise IndexError
  end.

(** [np.repeat(a, n, axis=2)] *)
Definition np_repeat2 (a : ndarray) (n : nat) : result ndarray :=
  match nd_shape a with
  | d0 :: d1 :: d2 :: rest =>
      Ok (tabulate (d0 :: d1 :: d2 * n :: rest)
            (fun ix => match ix with
                       | i :: j :: l :: more => at_ a (i :: j :: l / n :: more)
                       | _ => 0%R
                       end))
  | _ => Raise ValueError
  end.

Definition swap01 {A : Type} (l : list A) : list A :=
  match l with
  | a :: b :: rest => b :: a :: rest
  | _ => l
  end.

(** [np.meshgrid] applied to one-dimensional arrays, with the default
    [indexing='xy']: the first two axes of the grid are exchanged *)
Definition np_meshgrid (arrays : list ndarray) : list ndarray :=
  let lens := map (fun a => hd 0 (nd_shape a)) arrays in
  map (fun '(i, a) =>
         tabulate (swap01 lens) (fun ix => at_ a [nth i (swap01 ix) 0]))
      (enumerate arrays).

(** *** Basic indexing: integers and full slices *)

Inductive index : Type :=
| I (n : nat)
| Sl.

(** the shape of [a[idx]], when every integer is in range *)
Fixpoint sub_shape (idx : list index) (sh : list nat) : option (list nat) :=
  match idx, sh with
  | [], _ => Some sh
  | I n :: idx', d :: sh' => if n <? d then sub_shape idx' sh' else None
  | Sl :: idx', d :: sh' => option_map (cons d) (sub_shape idx' sh')
  | _ :: _, [] => None
  end.

(** the index in [a] of the entry [ix] of [a[idx]] *)
Fixpoint fill (idx : list index) (ix : list nat) : list nat :=
  match idx with
  | [] => ix
  | I n :: idx' => n :: fill idx' ix
  | Sl :: idx' =>
      match ix with
      | i :: ix' => i :: fill idx' ix'
      | [] => []
      end
  end.

(** the index in [a[idx]] of the entry [ix] of [a], when it lies there *)
Fixpoint locate (idx : list index) (ix : list nat) : option (list nat) :=
  match idx, ix with
  | [], _ => Some ix
  | I n :: idx', i :: ix' => if i =? n then locate idx' ix' else None
  | Sl :: idx', i :: ix' => option_map (cons i) (locate idx' ix')
  | _ :: _, [] => None
  end.

Definition getitem (a : ndarray) (idx : list index) : result ndarray :=
  match sub_shape idx (nd_shape a) with
  | Some sh => Ok (tabulate sh (fun ix => at_ a (fill idx ix)))
  | None => Raise IndexError
  end.

(** *** Broadcasting *)

Fixpoint bc_ok_rev (v t : list nat) : bool :=
  match v, t with
  | [], _ => true
  | _ :: _, [] => false
  | dv :: v', dt :: t' => ((dv =? dt) || (dv =? 1)) && bc_ok_rev v' t'
  end.

(** may a value of shape [vsh] be stored into a region of shape [tsh]:
    the shapes are aligned at their last axes, and an axis of the value has
    the length of the region's or length one.  A value of higher rank than
    the region is refused; no assignment of the program has one. *)
Definition broadcastable (vsh tsh : list nat) : bool :=
  bc_ok_rev (rev vsh) (rev tsh).

(** the entry of the value that lands at index [ix] of the region *)
Definition bc_index (vsh ix : list nat) : list nat :=
  map (fun '(d, i) => if d =? 1 then 0 else i)
      (combine vsh (skipn (length ix - length vsh) ix)).

(** [a[idx] = v] *)
Definition setitem (a : ndarray) (idx : list index) (v : ndarray)
  : result ndarray :=
  match sub_shape idx (nd_shape a) with
  | None => Raise IndexError
  | Some tsh =>
      if broadcastable (nd_shape v) tsh
      then Ok (tabulate (nd_shape a)
                 (fun ix => match locate idx ix with
                            | Some jx => at_ v (bc_index (nd_shape v) jx)
                            | None => at_ a ix
                            end))
      else Raise ValueError
  end.

(** the common shape of two operands, aligned at their last axes *)
Fixpoint bc_shape_rev (s t : list nat) : option (list nat) :=
  match s, t with
  | [], _ => Some t
  | _, [] => Some s
  | ds :: s', dt :: t' =>
      match bc_shape_rev s' t' with
      | Some r =>
          if ds =? dt then Some (ds :: r)
          else if ds =? 1 then Some (dt :: r)
          else if dt =? 1 then Some (ds :: r)
          else None
      | None => None
      end
  end.

(** an elementwise binary operation *)
Definition nd_map2 (f : R -> R -> R) (a b : ndarray) : result ndarray :=
  match bc_shape_rev (rev (nd_shape a)) (rev (nd_shape b)) with
  | Some r =>
      Ok (tabulate (rev r)
            (fun ix => f (at_ a (bc_index (nd_shape a) ix))
                         (at_ b (bc_index (nd_shape b) ix))))
  | None => Raise ValueError
  end.

(** *** Matrix product and QR decomposition *)

Fixpoint sum_n (n : nat) (f : nat -> R) : R :=
  match n with
  | 0 => 0%R
  | S k => (sum_n k f + f k)%R
  end.

(** [a @ b] for a two-dimensional [a] (every left operand of this program is
    a frame [x[:, :, i]] of a three-dimensional array): [b] is a vector, a
    matrix, or a stack of matrices held in its last two axes *)
Definition matmul (a b : ndarray) : result ndarray :=
  match nd_shape a with
  | [m; n] =>
      match rev (nd_shape b) with
      | [] => Raise ValueError
      | [n'] =>
          if n =? n'
          then Ok (tabulate [m]
                     (fun ix =>
                        let i := hd 0 ix in
                        sum_n n (fun l => (at_ a [i; l] * at_ b [l])%R)))
          else Raise ValueError
      | p :: n' :: batch_rev =>
          if n =? n'
          then
            let nb := length batch_rev in
            Ok (tabulate (rev batch_rev ++ [m; p])
                  (fun ix =>
                     let batch := firstn nb ix in
                     let i := nth nb ix 0 in
                     let j := nth (S nb) ix 0 in
                     sum_n n (fun l =>
                                (at_ a [i; l] * at_ b (batch ++ [l; j]))%R)))
          else Raise ValueError
      end
  | _ => Raise ValueError
  end.

(** Matrices as functions of a row and a column, for the linear algebra. *)
Definition Mat : Type := nat -> nat -> R.

Definition eye : Mat := fun i j => if i =? j then 1%R else 0%R.

Definition mmul (n : nat) (A B : Mat) : Mat :=
  fun i j => sum_n n (fun l => (A i l * B l j)%R).

Definition mat_vec (n : nat) (A : Mat) (v : nat -> R) : nat -> R :=
  fun i => sum_n n (fun l => (A i l * v l)%R).

Definition mat_of (a : ndarray) : Mat := fun i j => at_ a [i; j].

(** [np.linalg.qr] is LAPACK's Householder factorisation ([geqrf], then
    [orgqr]).  For column [c] of an [m]-row matrix the elementary reflector
    [H = I - tau v v^T] of [dlarfg] has

      - [alpha = A[c,c]] and [xnorm] the norm of the entries below it;
      - [tau = 0] when [xnorm = 0];
      - otherwise [beta = -sign(alpha) sqrt(alpha^2 + xnorm^2)],
        [tau = (beta - alpha) / beta] and [v = (1, x / (alpha - beta))]. *)
Section Householder.
Variable m : nat.
Variable c : nat.
Variable A : Mat.

Definition hh_alpha : R := A c c.

(** the sum of the squares of the entries below the diagonal *)
Definition hh_below : R :=
  sum_n m (fun r => if c <? r then (A r c * A r c)%R else 0%R).

Definition hh_xnorm : R := sqrt hh_below.

Definition hh_beta : R :=
  let nrm := sqrt (hh_alpha * hh_alpha + hh_xnorm * hh_xnorm) in
  if Rle_dec 0 hh_alpha then (- nrm)%R else nrm.

Definition hh_tau : R :=
  if Req_dec_T hh_xnorm 0 then 0%R else ((hh_beta - hh_alpha) / hh_beta)%R.

Definition hh_v : nat -> R :=
  fun r => if r <? c then 0%R
           else if r =? c then 1%R
           else (A r c / (hh_alpha - hh_beta))%R.

Definition reflector : Mat :=
  fun i j => (eye i j - hh_tau * hh_v i * hh_v j)%R.
End Householder.

(** the reflectors are applied to [A] column after column and accumulated
    into [Q = H_0 H_1 ...] *)
Fixpoint hh_loop (m : nat) (cols : list nat) (A Q : Mat) : Mat :=
  match cols with
  | [] => Q
  | c :: rest =>
      let H := reflector m c A in
      hh_loop m rest (mmul m H A) (mmul m Q H)
  end.

Definition qr_Q (m n : nat) (A : Mat) : Mat :=
  hh_loop m (seq 0 (Nat.min m n)) A eye.

(** the factor [Q] of [np.linalg.qr(a)] in its default (reduced) mode, for
    a two-dimensional [a]; the program discards the factor [R] *)
Definition np_linalg_qr (a : ndarray) : result ndarray :=
  match nd_shape a with
  | [m; n] =>
      Ok (tabulate [m; Nat.min m n]
            (fun ix => qr_Q m n (mat_of a) (nth 0 ix 0) (nth 1 ix 0)))
  | _ => Raise LinAlgError
  end.

(** ** objects/functions.py *)

(** the [rotate_basis] dictionary *)
Record rotate_basis_spec : Type := {
  rotate_vector : nat;
  rotate_elements : list nat;
  rb_min : R;
  rb_max : R;
  rb_segments : nat
}.

Inductive bases_result : Type :=
| Orthonormals (orthonormals : ndarray)
| OrthonormalsAndVectors (orthonormals vector_set : ndarray).

Definition orthonormals_of (r : bases_result) : ndarray :=
  match r with
  | Orthonormals o => o
  | OrthonormalsAndVectors o _ => o
  end.

Definition generate_orthonormal_bases (basis : list (list R))
    (rotate_basis : rotate_basis_spec) (return_vector_set : bool)
  : result bases_result :=
  let n := rb_segments rotate_basis + 1 in
  arr <- np_array2 basis ;;
  col <- newaxis2 (nd_T arr) ;;
  vector_set <- np_repeat2 col n ;;
  let transforms := np_zeros (nd_shape vector_set) in
  n1 <- py_index (nd_shape vector_set) 1 ;;
  transforms <-
    for_each (range n1)
      (fun i transforms =>
         if negb (existsb (Nat.eqb i) (rotate_elements rotate_basis))
         then setitem transforms [I i; I i] (np_ones n)
         else Ok transforms)
      transforms ;;
  let angles := np_linspace (rb_min rotate_basis) (rb_max rotate_basis)
                  (rb_segments rotate_basis + 1) in
  e0 <- py_index (rotate_elements rotate_basis) 0 ;;
  transforms <- setitem transforms [I e0; I e0] (np_cos angles) ;;
  e1 <- py_index (rotate_elements rotate_basis) 1 ;;
  transforms <- setitem transforms [I e0; I e1] (np_neg (np_sin angles)) ;;
  transforms <- setitem transforms [I e1; I e0] (np_sin angles) ;;
  transforms <- setitem transforms [I e1; I e1] (np_cos angles) ;;
  n2 <- py_index (nd_shape transforms) 2 ;;
  vector_set <-
    for_each (range n2)
      (fun i vector_set =>
         t <- getitem transforms [Sl; Sl; I i] ;;
         v <- getitem vector_set [Sl; I (rotate_vector rotate_basis); I i] ;;
         r <- matmul t v ;;
         setitem vector_set [Sl; I (rotate_vector rotate_basis); I i] r)
      vector_set ;;
  let orthonormals := np_zeros (nd_shape vector_set) in
  n2' <- py_index (nd_shape vector_set) 2 ;;
  orthonormals <-
    for_each (range n2')
      (fun i orthonormals =>
         frame <- getitem vector_set [Sl; Sl; I i] ;;
         q <- np_linalg_qr frame ;;
         setitem orthonormals [Sl; Sl; I i] q)
      orthonormals ;;
  Ok (if negb return_vector_set
      then Orthonormals orthonormals
      else OrthonormalsAndVectors orthonormals vector_set).

(** a field function: called with the coordinate arrays, it returns [None]
    or a tuple of arrays *)
Definition field_function : Type :=
  list ndarray -> result (option (list ndarray)).

Definition simple_complex_square : field_function :=
  fun args =>
    if length args =? 2
    then
      (* (args[0] + 1j * args[1]) ** 2, real and imaginary part *)
      let a := nth 0 args (np_zeros []) in
      let b := nth 1 args (np_zeros []) in
      re <- nd_map2 (fun x y => (x * x - y * y)%R) a b ;;
      im <- nd_map2 (fun x y => (x * y + y * x)%R) a b ;;
      Ok (Some [re; im])
    else Ok None.

(** ** objects/functions.py: the field-function classes *)

(** a complex number: its real and its imaginary part *)
Definition complex : Type := (R * R)%type.

Definition c_real (x : R) : complex := (x, 0%R).

(** [1j] *)
Definition c_j : complex := (0%R, 1%R).

Definition c_add (z w : complex) : complex :=
  (fst z + fst w, snd z + snd w)%R.

Definition c_sub (z w : complex) : complex :=
  (fst z - fst w, snd z - snd w)%R.

Definition c_mul (z w : complex) : complex :=
  (fst z * fst w - snd z * snd w, fst z * snd w + snd z * fst w)%R.

(** [np.abs] of a complex number *)
Definition c_abs (z : complex) : R := sqrt (fst z * fst z + snd z * snd z).

(** a complex array: the array of the real parts and the array of the
    imaginary parts, of one shape *)
Record carray : Type := mk_c {
  np_real : ndarray;
  np_imag : ndarray
}.

Definition c_shape (z : carray) : list nat := nd_shape (np_real z).

Definition c_at (z : carray) (ix : list nat) : complex :=
  (at_ (np_real z) ix, at_ (np_imag z) ix).

Definition c_tabulate (sh : list nat) (f : list nat -> complex) : carray :=
  mk_c (tabulate sh (fun ix => fst (f ix)))
       (tabulate sh (fun ix => snd (f ix))).

(** an elementwise operation with scalars *)
Definition c_map (f : complex -> complex) (z : carray) : carray :=
  c_tabulate (c_shape z) (fun ix => f (c_at z ix)).

(** [args[0] + (1j * args[1])], the two real arrays broadcast together *)
Definition complex_grid (a b : ndarray) : result carray :=
  match bc_shape_rev (rev (nd_shape a)) (rev (nd_shape b)) with
  | Some r =>
      Ok (c_tabulate (rev r)
            (fun ix =>
               c_add (c_real (at_ a (bc_index (nd_shape a) ix)))
                     (c_mul c_j (c_real (at_ b (bc_index (nd_shape b) ix))))))
  | None => Raise ValueError
  end.

(** [np.where(np.abs(result) < bailout, result ** 2 + args_set, result)],
    the two arrays being of one shape *)
Definition escape_step (bailout : R) (args_set result : carray) : carray :=
  c_tabulate (c_shape result)
    (fun ix =>
       let z := c_at result ix in
       if Rlt_dec (c_abs z) bailout
       then c_add (c_mul z z) (c_at args_set ix)
       else z).

(** [np.where(np.abs(result) >= bailout, 0 + 0j, result)] *)
Definition clear_escaped (bailout : R) (result : carray) : carray :=
  c_tabulate (c_shape result)
    (fun ix =>
       let z := c_at result ix in
       if Rge_dec (c_abs z) bailout then (0%R, 0%R) else z).

(** the loop of the two Mandelbrot classes: [None] unless there are exactly
    two arguments *)
Definition escape_loop (bailout : R) (iterations_max : nat)
    (args : list ndarray) : result (option carray) :=
  if length args =? 2
  then
    args_set <- complex_grid (nth 0 args (np_zeros []))
                             (nth 1 args (np_zeros [])) ;;
    let result := c_tabulate (c_shape args_set) (fun _ => (0%R, 0%R)) in
    result <-
      for_each (range iterations_max)
        (fun _ result => Ok (escape_step bailout args_set result))
        result ;;
    Ok (Some result)
  else Ok None.

(** [(np.real(result), np.imag(result))], or [None] *)
Definition real_imag (result : option carray) : option (list ndarray) :=
  match result with
  | Some result => Some [np_real result; np_imag result]
  | None => None
  end.

Module mandelbrotWithLastBailout.
Record t : Type := {
  bailout : R;
  iterations_max : nat
}.

Definition compute (self : t) : field_function :=
  fun args =>
    result <- escape_loop (bailout self) (iterations_max self) args ;;
    Ok (real_imag result).
End mandelbrotWithLastBailout.

Module mandelbrot.
Record t : Type := {
  bailout : R;
  iterations_max : nat
}.

Definition compute (self : t) : field_function :=
  fun args =>
    result <- escape_loop (bailout self) (iterations_max self) args ;;
    let result :=
      match result with
      | Some result => Some (clear_escaped (bailout self) result)
      | None => None
      end in
    Ok (real_imag result).
End mandelbrot.

Module complex_square.
Record t : Type := {
  a : complex;
  b : complex;
  c : complex
}.

(** [complex_square()] *)
Definition default : t :=
  {| a := c_real 1; b := c_real 0; c := c_real 0 |}.

Definition compute (self : t) : field_function :=
  fun args =>
    if length args =? 2
    then
      arg_set <- complex_grid (nth 0 args (np_zeros []))
                              (nth 1 args (np_zeros [])) ;;
      let result :=
        c_map (fun z =>
                 c_add (c_add (c_mul (a self) (c_mul z z))
                              (c_mul (b self) z))
                       (c self))
              arg_set in
      Ok (Some [np_real result; np_imag result])
    else Ok None.
End complex_square.

Module complex_cubic.
Record t : Type := {
  a : complex;
  b : complex;
  c : complex;
  d : complex;
  offset : complex
}.

Definition compute (self : t) : field_function :=
  fun args =>
    if length args =? 2
    then
      grid <- complex_grid (nth 0 args (np_zeros []))
                           (nth 1 args (np_zeros [])) ;;
      let arg_set := c_map (fun z => c_sub z (offset self)) grid in
      let result :=
        c_map (fun z =>
                 c_add (c_add (c_add (c_mul (a self) (c_mul (c_mul z z) z))
                                     (c_mul (b self) (c_mul z z)))
                              (c_mul (c self) z))
                       (d self))
              arg_set in
      Ok (Some [np_real result; np_imag result])
    else Ok None.
End complex_cubic.

(** ** objects/runners.py *)

(** one entry of [ranges] *)
Record range_spec : Type := {
  r_min : R;
  r_max : R;
  r_segments : nat
}.

(** a cell of a transform matrix: a number or a string *)
Inductive cell : Type :=
| Num (x : R)
| Str (s : string).

(** one entry of [rotations["transforms"]] *)
Record transform_spec : Type := {
  t_min : R;
  t_max : R;
  t_transform : list (list cell)
}.

(** the [rotations] dictionary *)
Record rotation_spec : Type := {
  segments : nat;
  transforms : list transform_spec
}.

(** [computed_points]: the keys "ranges" and "points" *)
Record point_data : Type := {
  pd_ranges : list range_spec;
  pd_points : ndarray
}.

(** [animation_frames]: the keys "ranges" and "frames" *)
Record frame_data : Type := {
  fd_ranges : list range_spec;
  fd_frames : ndarray
}.

(** [fn] is a callable or an object with a [compute] method *)
Inductive runner_fn : Type :=
| Callable (f : field_function)
| WithCompute (compute : field_function).

Record FunctionRunner : Type := {
  fn : runner_fn;
  output_file : string;
  computed_points : option point_data;
  animation_frames : option frame_data
}.

Definition set_computed_points (self : FunctionRunner) (p : point_data)
  : FunctionRunner :=
  {| fn := fn self; output_file := output_file self;
     computed_points := Some p; animation_frames := animation_frames self |}.

Definition set_animation_frames (self : FunctionRunner) (f : frame_data)
  : FunctionRunner :=
  {| fn := fn self; output_file := output_file self;
     computed_points := computed_points self; animation_frames := Some f |}.

(** what [write] hands to [json.dump] *)
Inductive written : Type :=
| WrittenPoints (ranges : list range_spec) (points : ndarray)
| WrittenFrames (ranges : list range_spec) (frames : ndarray).

Definition default_output_directory : string := "./json/".

Definition is_separator (ch : ascii) : bool :=
  Ascii.eqb ch "/"%char || Ascii.eqb ch "\"%char.

(** [re.split(r"/|\\", s)] *)
Fixpoint split_path (s : string) : list string :=
  match s with
  | EmptyString => [EmptyString]
  | String ch rest =>
      if is_separator ch then EmptyString :: split_path rest
      else match split_path rest with
           | piece :: pieces => String ch piece :: pieces
           | [] => [String ch EmptyString]
           end
  end.

Definition build_coordinates (ranges : list range_spec)
  : result (option (list ndarray)) :=
  if 1 <? length ranges then
    let arrays :=
      map (fun number_range =>
             np_linspace (r_min number_range) (r_max number_range)
               (r_segments number_range + 1))
          ranges in
    Ok (Some (np_meshgrid arrays))
  else if length ranges =? 1 then
    (* np.linspace(number_range["min"], ...): [number_range] is the variable
       of the loop of the other branch and has no value here *)
    Raise (UnboundLocalError "number_range")
  else Ok None.

Definition call_fn (f : runner_fn) (coordinates : list ndarray)
  : result (option (list ndarray)) :=
  match f with
  | Callable g => g coordinates
  | WithCompute compute => compute coordinates
  end.

Definition compute_points (self : FunctionRunner) (ranges : list range_spec)
  : result FunctionRunner :=
  coordinates <- build_coordinates ranges ;;
  match coordinates with
  | Some coordinates =>
      results <- call_fn (fn self) coordinates ;;
      match results with
      | Some results =>
          let points_list := coordinates ++ results in
          points <- np_stack points_list ;;
          Ok (set_computed_points self
                {| pd_ranges := ranges; pd_points := points |})
      | None => Ok self
      end
  | None => Ok self
  end.

(** the value of one cell of a transform over the angles [thetas]; in the
    last branch of the strings the message of the exception names
    [multiplier], [row_counter] and [column_counter], none of which exists *)
Definition compile_cell (element : cell) (thetas : ndarray) : result ndarray :=
  match element with
  | Str s =>
      if String.eqb s "cos" then Ok (np_cos thetas)
      else if String.eqb s "-cos" then Ok (np_neg (np_cos thetas))
      else if String.eqb s "sin" then Ok (np_sin thetas)
      else if String.eqb s "-sin" then Ok (np_neg (np_sin thetas))
      else Raise (NameError "multiplier")
  | Num x => Ok (np_full (nd_shape thetas) x)
  end.

(** the body of the loop over [rotations["transforms"]]: the rotator of one
    transform *)
Definition build_rotator (segments : nat) (rotation : transform_spec)
  : result ndarray :=
  row0 <- py_index (t_transform rotation) 0 ;;
  let rotator :=
    np_zeros [length (t_transform rotation); length row0; segments + 1] in
  let thetas :=
    np_linspace (t_min rotation) (t_max rotation) (segments + 1) in
  for_each (enumerate (t_transform rotation))
    (fun '(j, row) rotator =>
       for_each (enumerate row)
         (fun '(k, element) rotator =>
            v <- compile_cell element thetas ;;
            setitem rotator [I j; I k; Sl] v)
         rotator)
    rotator.

(** the loop over [enumerate(rotators)] for frame [i]: the first rotator's
    frame, multiplied on the right by the frames of the following ones *)
Definition frame_product (rotators : list ndarray) (i : nat) : result ndarray :=
  match rotators with
  | [] => Raise IndexError
  | rotator :: rest =>
      first <- getitem rotator [Sl; Sl; I i] ;;
      for_each rest
        (fun rotator frame_rotator =>
           r <- getitem rotator [Sl; Sl; I i] ;;
           matmul frame_rotator r)
        first
  end.

(** the orthonormal basis, when [basis_vectors] is given and has the size of
    the composite rotator *)
Definition projection_basis (basis_vectors : option (list (list R)))
    (composite_rotator : ndarray) : result (option ndarray) :=
  match basis_vectors with
  | Some bv =>
      if (length bv =? nth 0 (nd_shape composite_rotator) 0)
         && (length (hd [] bv) =? nth 1 (nd_shape composite_rotator) 0)
      then
        arr <- np_array2 bv ;;
        q <- np_linalg_qr arr ;;
        Ok (Some q)
      else Ok None
  | None => Ok None
  end.

Definition build_composite (rotators : list ndarray)
    (orthonormal_basis : option ndarray) (segments : nat)
    (composite_rotator : ndarray) : result ndarray :=
  for_each (range (segments + 1))
    (fun i composite_rotator =>
       frame_rotator <- frame_product rotators i ;;
       frame_rotator <-
         match orthonormal_basis with
         | Some q => matmul frame_rotator q
         | None => Ok frame_rotator
         end ;;
       setitem composite_rotator [Sl; Sl; I i] frame_rotator)
    composite_rotator.

Definition rotate_points (composite_rotator points frames : ndarray)
  : result ndarray :=
  n_i <- shape_from_end composite_rotator 1 ;;
  for_each (range n_i)
    (fun i frames =>
       n_j <- shape_from_end points 2 ;;
       for_each (range n_j)
         (fun j frames =>
            n_k <- shape_from_end points 1 ;;
            for_each (range n_k)
              (fun k frames =>
                 rot <- getitem composite_rotator [Sl; Sl; I i] ;;
                 v <- getitem points [Sl; I j; I k] ;;
                 r <- matmul rot v ;;
                 setitem frames [I i; Sl; I j; I k] r)
              frames)
         frames)
    frames.

Section Runner.
(** [os.path.isdir] *)
Variable isdir : string -> bool.
(** the contents of freshly allocated memory *)
Variable uninitialised : list nat -> R.

Definition check_file_path (file_name : option string) : option string :=
  match file_name with
  | None => None
  | Some name =>
      if String.eqb name EmptyString then None
      else
        let file_list := split_path name in
        if length file_list =? 1
        then Some (default_output_directory ++ name)%string
        else if isdir (String.concat "/" (removelast file_list))
             then Some name
             else None
  end.

Definition animate_rotation (self : FunctionRunner)
    (rotations : rotation_spec) (basis_vectors : option (list (list R)))
  : result FunctionRunner :=
  match computed_points self with
  | Some cp =>
      if 0 <? rank (pd_points cp) then
        rotators <-
          mapM (build_rotator (segments rotations)) (transforms rotations) ;;
        rotator0 <- py_index rotators 0 ;;
        let composite_rotator := np_zeros (nd_shape rotator0) in
        orthonormal_basis <-
          projection_basis basis_vectors composite_rotator ;;
        composite_rotator <-
          build_composite rotators orthonormal_basis (segments rotations)
            composite_rotator ;;
        let frames :=
          np_empty uninitialised
            (segments rotations + 1 :: nd_shape (pd_points cp)) in
        frames <- rotate_points composite_rotator (pd_points cp) frames ;;
        Ok (set_animation_frames self
              {| fd_ranges := pd_ranges cp; fd_frames := frames |})
      else Ok self
  | None => Ok self
  end.

(** [FunctionRunner(fn, output_file=...)] *)
Definition init (fn : runner_fn) (output_file_kw : option string)
  : FunctionRunner :=
  {| fn := fn;
     output_file :=
       match check_file_path output_file_kw with
       | Some path => path
       | None => (default_output_directory ++ "output.json")%string
       end;
     computed_points := None;
     animation_frames := None |}.

(** the path and the object handed to [json.dump] *)
Definition write (self : FunctionRunner) (object_name : string)
    (output_file_arg : option string) : result (option (string * written)) :=
  let output_file :=
    match check_file_path output_file_arg with
    | Some path => path
    | None => output_file self
    end in
  to_be_written <-
    (if String.eqb object_name "computed_points" then
       match computed_points self with
       | Some cp => Ok (Some (WrittenPoints (pd_ranges cp) (pd_points cp)))
       | None =>
           Raise (Exception
                    "The computed_points object is empty and cannot be written")
       end
     else if String.eqb object_name "animation_frames" then
       match animation_frames self with
       | Some fd => Ok (Some (WrittenFrames (fd_ranges fd) (fd_frames fd)))
       | None =>
           Raise (Exception
                    "The animation_frames object is empty and cannot be written")
       end
     else
       Raise (Exception
                "A valid computed object's name needs to be specified in order to write it out to a file")) ;;
  match to_be_written with
  | Some obj => Ok (Some (output_file, obj))
  | None => Ok None
  end.
End Runner.

(** ** The specification's vocabulary *)

(** the value of a transform cell at the angle [theta] *)
Definition cell_value (element : cell) (theta : R) : R :=
  match element with
  | Num x => x
  | Str s =>
      if String.eqb s "cos" then cos theta
      else if String.eqb s "-cos" then (- cos theta)%R
      else if String.eqb s "sin" then sin theta
      else if String.eqb s "-sin" then (- sin theta)%R
      else 0%R
  end.

Definition valid_cell (element : cell) : bool :=
  match element with
  | Num _ => true
  | Str s =>
      String.eqb s "cos" || String.eqb s "-cos"
      || String.eqb s "sin" || String.eqb s "-sin"
  end.

(** a transform matrix of [r] rows of [c] cells, all numbers or known
    tokens *)
Definition well_formed_transform (r c : nat) (t : transform_spec) : bool :=
  (length (t_transform t) =? r)
  && forallb (fun row => (length row =? c) && forallb valid_cell row)
       (t_transform t).

Definition cell_at (t : transform_spec) (i j : nat) : cell :=
  nth j (nth i (t_transform t) []) (Num 0%R).

(** the angle of frame [f] of a sweep of [s] segments *)
Definition theta (lo hi : R) (s f : nat) : R :=
  at_ (np_linspace lo hi (s + 1)) [f].

(** the rotation matrix of transform [t] at frame [f] *)
Definition rotator_frame (s : nat) (t : transform_spec) (f : nat) : Mat :=
  fun i j => cell_value (cell_at t i j) (theta (t_min t) (t_max t) s f).

(** the product of the matrices in list order, the first one leftmost *)
Definition ordered_product (D : nat) (ms : list Mat) : Mat :=
  match ms with
  | [] => eye
  | first :: rest => fold_left (mmul D) rest first
  end.

(** the point vector of the cloud at the grid position [(j, k)] *)
Definition point_vector (points : ndarray) (j k : nat) : nat -> R :=
  fun l => at_ points [l; j; k].

(** the frame [a[:, :, f]] of a three-dimensional array, as a matrix *)
Definition frame_of (a : ndarray) (f : nat) : Mat :=
  fun r c => at_ a [r; c; f].

Definition delta (i j : nat) : R := if i =? j then 1%R else 0%R.

(** the columns of the [k] x [k] matrix [M] are pairwise orthogonal and of
    unit norm *)
Definition orthonormal_columns (k : nat) (M : Mat) : Prop :=
  forall i j, i < k -> j < k ->
    sum_n k (fun r => (M r i * M r j)%R) = delta i j.

(** the identity except for the planar rotation block at the coordinate
    pair [(e0, e1)] *)
Definition planar_rotation (e0 e1 : nat) (angle : R) : Mat :=
  fun i j =>
    if (i =? e0) && (j =? e0) then cos angle
    else if (i =? e0) && (j =? e1) then (- sin angle)%R
    else if (i =? e1) && (j =? e0) then sin angle
    else if (i =? e1) && (j =? e1) then cos angle
    else eye i j.

(** the matrix whose column [c] is the vector [c] of [basis] *)
Definition basis_columns (basis : list (list R)) : Mat :=
  fun r c => nth r (nth c basis []) 0%R.

(** the swept orthonormaliser in the specification's words: the basis is
    copied for frame [f], its designated vector alone is rotated by the
    planar rotation of the frame's angle, and the frame is orthonormalised
    on its own *)
Section SweptSpec.
Variable basis : list (list R).
Variable rb : rotate_basis_spec.

Definition sweep_k : nat := length basis.
Definition sweep_frames : nat := rb_segments rb + 1.
Definition sweep_e0 : nat := nth 0 (rotate_elements rb) 0.
Definition sweep_e1 : nat := nth 1 (rotate_elements rb) 0.

Definition sweep_angle (f : nat) : R :=
  theta (rb_min rb) (rb_max rb) (rb_segments rb) f.

Definition rotated_entry (f r c : nat) : R :=
  if c =? rotate_vector rb
  then mat_vec sweep_k (planar_rotation sweep_e0 sweep_e1 (sweep_angle f))
         (fun l => basis_columns basis l c) r
  else basis_columns basis r c.

Definition rotated_frame (f : nat) : ndarray :=
  tabulate [sweep_k; sweep_k]
    (fun ix => rotated_entry f (nth 0 ix 0) (nth 1 ix 0)).

Definition swept_vectors : ndarray :=
  tabulate [sweep_k; sweep_k; sweep_frames]
    (fun ix => rotated_entry (nth 2 ix 0) (nth 0 ix 0) (nth 1 ix 0)).

Definition swept_orthonormals : ndarray :=
  tabulate [sweep_k; sweep_k; sweep_frames]
    (fun ix =>
       qr_Q sweep_k sweep_k (mat_of (rotated_frame (nth 2 ix 0)))
         (nth 0 ix 0) (nth 1 ix 0)).

Definition swept_spec (return_vector_set : bool) : bases_result :=
  if return_vector_set
  then OrthonormalsAndVectors swept_orthonormals swept_vectors
  else Orthonormals swept_orthonormals.
End SweptSpec.

(** a square basis of [k] vectors of [k] coordinates *)
Definition square_basis (k : nat) (basis : list (list R)) : bool :=
  (length basis =? k) && forallb (fun v => length v =? k) basis.

(** ** Auxiliary vocabulary of the proofs and sample data *)

(** the entries of the rotator of [t]: frame [f] holds the value of every
    cell at the angle of that frame *)
Definition rotator_entries (s : nat) (t : transform_spec) : list nat -> R :=
  fun ix => rotator_frame s t (nth 2 ix 0) (nth 0 ix 0) (nth 1 ix 0).

(** the array of a [D] x [D] matrix *)
Definition mat_tab (D : nat) (M : Mat) : ndarray :=
  tabulate [D; D] (fun ix => M (nth 0 ix 0) (nth 1 ix 0)).

(** the composite rotator: at every frame the product of the rotators'
    frames in list order *)
Definition composite_entries (D : nat) (rotators : list ndarray)
  : list nat -> R :=
  fun ix => ordered_product D (map (fun r => frame_of r (nth 2 ix 0)) rotators)
              (nth 0 ix 0) (nth 1 ix 0).

(** the grid positions of the frames written before the iteration
    [(i, j, k)] of the three nested loops *)
Definition before (i j k f j' k' : nat) : Prop :=
  f < i \/ (f = i /\ (j' < j \/ (j' = j /\ k' < k))).

Definition rotated (D : nat) (composite_rotator points : ndarray)
    (f d j k : nat) : R :=
  sum_n D (fun l => (at_ composite_rotator [d; l; f] * at_ points [l; j; k])%R).

Definition mat_eq_on (D : nat) (M N : Mat) : Prop :=
  forall a b, a < D -> b < D -> M a b = N a b.

(** the per-frame transform the code builds: the later assignments win *)
Definition code_transform (rb : rotate_basis_spec) (a b f : nat) : R :=
  let e0 := nth 0 (rotate_elements rb) 0 in
  let e1 := nth 1 (rotate_elements rb) 0 in
  let angle := theta (rb_min rb) (rb_max rb) (rb_segments rb) f in
  if (a =? e1) && (b =? e1) then cos angle
  else if (a =? e1) && (b =? e0) then sin angle
  else if (a =? e0) && (b =? e1) then (- sin angle)%R
  else if (a =? e0) && (b =? e0) then cos angle
  else if (a =? b) && negb (existsb (Nat.eqb a) (rotate_elements rb)) then 1%R
  else 0%R.

(** the vector set after the rotation loop *)
Definition code_vector (basis : list (list R)) (rb : rotate_basis_spec)
    (r c f : nat) : R :=
  if c =? rotate_vector rb
  then sum_n (length basis)
         (fun l => (code_transform rb r l f * basis_columns basis l c)%R)
  else basis_columns basis r c.

Definition code_vectors (basis : list (list R)) (rb : rotate_basis_spec)
  : ndarray :=
  tabulate [length basis; length basis; rb_segments rb + 1]
    (fun ix => code_vector basis rb (nth 0 ix 0) (nth 1 ix 0) (nth 2 ix 0)).

(** the frame [a[:, :, f]] as an array *)
Definition frame_array (k : nat) (a : ndarray) (f : nat) : ndarray :=
  tabulate [k; k] (fun ix => frame_of a f (nth 0 ix 0) (nth 1 ix 0)).

Definition code_orthonormals (basis : list (list R)) (rb : rotate_basis_spec)
  : ndarray :=
  tabulate [length basis; length basis; rb_segments rb + 1]
    (fun ix =>
       qr_Q (length basis) (length basis)
         (mat_of (frame_array (length basis) (code_vectors basis rb)
                    (nth 2 ix 0)))
         (nth 0 ix 0) (nth 1 ix 0)).

Definition planar_xy : transform_spec :=
  {| t_min := 0%R; t_max := 1%R;
     t_transform := [ [Str "cos"; Str "-sin"]; [Str "sin"; Num 1%R] ] |}.

(** a transform compiles to the [D] x [D] identity at all frames *)
Definition compiles_to_identity (D s : nat) (t : transform_spec) : Prop :=
  exists rot,
    build_rotator s t = Ok rot /\
    nd_shape rot = [D; D; s + 1] /\
    forall i j f, i < D -> j < D -> f < s + 1 -> at_ rot [i; j; f] = delta i j.

(** a field function of three coordinates, with the first one as its only
    output channel *)
Definition first_of_three : field_function :=
  fun args =>
    match args with
    | [x; _; _] => Ok (Some [x])
    | _ => Ok None
    end.

Definition unit_range (segs : nat) : range_spec :=
  {| r_min := 0%R; r_max := 1%R; r_segments := segs |}.

Definition identity4 : transform_spec :=
  {| t_min := 0%R; t_max := 1%R;
     t_transform :=
       [ [Num 1%R; Num 0%R; Num 0%R; Num 0%R];
         [Num 0%R; Num 1%R; Num 0%R; Num 0%R];
         [Num 0%R; Num 0%R; Num 1%R; Num 0%R];
         [Num 0%R; Num 0%R; Num 0%R; Num 1%R] ] |}.

Definition no_junk : list nat -> R := fun _ => 0%R.

Definition identity2 : transform_spec :=
  {| t_min := 0%R; t_max := 1%R;
     t_transform := [ [Num 1%R; Num 0%R]; [Num 0%R; Num 1%R] ] |}.

Definition basis3 : list (list R) :=
  [ [1%R; 0%R; 0%R]; [0%R; 1%R; 0%R]; [0%R; 0%R; 1%R] ].

Definition runner_2d : FunctionRunner :=
  {| fn := Callable simple_complex_square; output_file := "out.json";
     computed_points :=
       Some {| pd_ranges := []; pd_points := np_full [2; 3; 3] 1%R |};
     animation_frames := None |}.

Definition rotation_identity2 : rotation_spec :=
  {| segments := 1; transforms := [identity2] |}.

Definition fresh_runner : FunctionRunner :=
  init (fun _ => false) (Callable simple_complex_square) None.

Definition rotation_tan : rotation_spec :=
  {| segments := 1;
     transforms := [ {| t_min := 0%R; t_max := 1%R;
                        t_transform := [ [Str "tan"] ] |} ] |}.

(** the coordinate builder yields no grid, or the field function returns
    the no-result sentinel *)
Definition no_result (self : FunctionRunner) (ranges : list range_spec) : Prop :=
  build_coordinates ranges = Ok None \/
  exists coordinates,
    build_coordinates ranges = Ok (Some coordinates) /\
    call_fn (fn self) coordinates = Ok None.

Definition basis2 : list (list R) := [ [1%R; 0%R]; [0%R; 1%R] ].

Definition quarter_turn : rotate_basis_spec :=
  {| rotate_vector := 0; rotate_elements := [0; 1];
     rb_min := 0%R; rb_max := (PI / 2)%R; rb_segments := 1 |}.

(** the swept orthonormaliser can be called on the basis: the basis is
    square, and the vector and the first two elements to rotate lie in it *)
Definition sweepable (basis : list (list R)) (rb : rotate_basis_spec) : Prop :=
  square_basis (length basis) basis = true /\
  rotate_vector rb < length basis /\
  exists e0 e1 rest,
    rotate_elements rb = e0 :: e1 :: rest /\
    e0 < length basis /\ e1 < length basis.

Definition skewed_basis : list (list R) := [ [1%R; 1%R]; [2%R; 2%R] ].

(** ** Vocabulary of the further properties *)

(** the lengths of the axes of the grid of [ranges] *)
Definition grid_shape (ranges : list range_spec) : list nat :=
  swap01 (map (fun r => r_segments r + 1) ranges).

(** the grid and the outputs of [simple_complex_square] for two ranges *)
Definition grid_x (rx ry : range_spec) : ndarray :=
  tabulate [r_segments ry + 1; r_segments rx + 1]
    (fun ix => at_ (np_linspace (r_min rx) (r_max rx) (r_segments rx + 1))
                 [nth 0 (swap01 ix) 0]).

Definition grid_y (rx ry : range_spec) : ndarray :=
  tabulate [r_segments ry + 1; r_segments rx + 1]
    (fun ix => at_ (np_linspace (r_min ry) (r_max ry) (r_segments ry + 1))
                 [nth 1 (swap01 ix) 0]).

Definition square_re (rx ry : range_spec) : ndarray :=
  tabulate [r_segments ry + 1; r_segments rx + 1]
    (fun ix => (at_ (grid_x rx ry) ix * at_ (grid_x rx ry) ix
                - at_ (grid_y rx ry) ix * at_ (grid_y rx ry) ix)%R).

Definition square_im (rx ry : range_spec) : ndarray :=
  tabulate [r_segments ry + 1; r_segments rx + 1]
    (fun ix => (at_ (grid_x rx ry) ix * at_ (grid_y rx ry) ix
                + at_ (grid_y rx ry) ix * at_ (grid_x rx ry) ix)%R).

Definition square_layers (rx ry : range_spec) : list ndarray :=
  [grid_x rx ry; grid_y rx ry; square_re rx ry; square_im rx ry].

Definition square_cloud (rx ry : range_spec) : ndarray :=
  tabulate [4; r_segments ry + 1; r_segments rx + 1]
    (fun ix => at_ (nth (hd 0 ix) (square_layers rx ry) (grid_x rx ry)) (tl ix)).

(** a transform matrix with at least one row and no row longer than the
    first: every cell has a place in the rotator *)
Definition rows_fit_first (t : transform_spec) : bool :=
  match t_transform t with
  | [] => false
  | row0 :: _ => forallb (fun row => length row <=? length row0) (t_transform t)
  end.

(** some cell of the matrix is a string other than the four tokens *)
Definition has_unknown_token (t : transform_spec) : bool :=
  existsb (existsb (fun element => negb (valid_cell element))) (t_transform t).

Definition late_unknown_token : transform_spec :=
  {| t_min := 0%R; t_max := 1%R;
     t_transform := [ [Str "cos"; Num 0%R]; [Num 0%R; Str "cosine"] ] |}.

(** the matrix whose row [r] is the vector [r] of [basis] *)
Definition basis_rows (basis : list (list R)) : Mat :=
  fun r c => nth c (nth r basis []) 0%R.

(** the orthonormal basis [animate_rotation] projects with: the factor [Q]
    of the basis vectors taken as rows *)
Definition projection_Q (D : nat) (basis : list (list R)) : Mat :=
  qr_Q D D (mat_of (mat_tab D (basis_rows basis))).

(** the file [write] writes to: the checked path of its argument, or else
    the holder's own output file *)
Definition write_target (isdir : string -> bool) (self : FunctionRunner)
    (out : option string) : string :=
  match check_file_path isdir out with
  | Some path => path
  | None => output_file self
  end.

Fixpoint no_separator (s : string) : bool :=
  match s with
  | EmptyString => true
  | String ch rest => negb (is_separator ch) && no_separator rest
  end.

Fixpoint no_backslash (s : string) : bool :=
  match s with
  | EmptyString => true
  | String ch rest => negb (Ascii.eqb ch "\"%char) && no_backslash rest
  end.

(** the triangular factor: the matrix after all the reflectors *)
Fixpoint hh_R (m : nat) (cols : list nat) (A : Mat) : Mat :=
  match cols with
  | [] => A
  | c :: rest => hh_R m rest (mmul m (reflector m c A) A)
  end.

Definition qr_R (m n : nat) (A : Mat) : Mat :=
  hh_R m (seq 0 (Nat.min m n)) A.

(** the columns before [c] are zero below the diagonal *)
Definition zeros_below (m c : nat) (A : Mat) : Prop :=
  forall r j, r < m -> j < c -> j < r -> A r j = 0%R.

(** a sweep that lists a third element to rotate *)
Definition three_listed : rotate_basis_spec :=
  {| rotate_vector := 0; rotate_elements := [0; 1; 2];
     rb_min := 0%R; rb_max := PI; rb_segments := 2 |}.

(** the orbit of [0] under [z -> z * z + c], halted at the first point at
    distance [bailout] or more from the origin *)
Fixpoint orbit (bailout : R) (c : complex) (n : nat) : complex :=
  match n with
  | 0 => (0%R, 0%R)
  | S k =>
      let z := orbit bailout c k in
      if Rlt_dec (c_abs z) bailout then c_add (c_mul z z) c else z
  end.

Definition sample_re : ndarray :=
  tabulate [2; 2] (fun ix => INR (nth 1 ix 0)).

Definition sample_im : ndarray :=
  tabulate [2; 2] (fun ix => INR (nth 0 ix 0)).

(** the cloud of a [mandelbrot] object for two ranges *)
Definition mandelbrot_orbits (m : mandelbrot.t) (rx ry : range_spec)
  : carray :=
  c_tabulate [r_segments ry + 1; r_segments rx + 1]
    (fun ix => orbit (mandelbrot.bailout m)
                 (at_ (grid_x rx ry) ix, at_ (grid_y rx ry) ix)
                 (mandelbrot.iterations_max m)).

Definition mandelbrot_layers (m : mandelbrot.t) (rx ry : range_spec)
  : list ndarray :=
  [grid_x rx ry; grid_y rx ry;
   np_real (clear_escaped (mandelbrot.bailout m) (mandelbrot_orbits m rx ry));
   np_imag (clear_escaped (mandelbrot.bailout m) (mandelbrot_orbits m rx ry))].

Definition mandelbrot_cloud (m : mandelbrot.t) (rx ry : range_spec)
  : ndarray :=
  tabulate [4; r_segments ry + 1; r_segments rx + 1]
    (fun ix => at_ (nth (hd 0 ix) (mandelbrot_layers m rx ry) (grid_x rx ry))
                 (tl ix)).

Definition mandelbrot_runner (m : mandelbrot.t) : FunctionRunner :=
  {| fn := WithCompute (mandelbrot.compute m); output_file := "out.json";
     computed_points := None; animation_frames := None |}.

(** every cell of the matrix is a number or one of the four tokens *)
Definition all_cells_valid (t : transform_spec) : bool :=
  forallb (forallb valid_cell) (t_transform t).

Definition ragged_transform : transform_spec :=
  {| t_min := 0%R; t_max := 1%R;
     t_transform := [ [Str "cos"; Str "-sin"]; [Str "sin"] ] |}.

(** * Properties *)

(** ** Results and loops *)

Lemma bind_inv {A B : Type} (m : result A) (k : A -> result B) (b : B) :
  bind m k = Ok b -> exists a, m = Ok a /\ k a = Ok b.
Proof. destruct m as [a|e]; simpl; intros H; [eauto | discriminate]. Qed.

(** a loop whose body keeps an invariant, indexed by the number of
    iterations done, runs to its end and establishes it *)
Lemma for_each_seq_inv {S : Type} (P : nat -> S -> Prop)
    (body : nat -> S -> result S) (n start : nat) (s : S) :
  P start s ->
  (forall i s, start <= i < start + n -> P i s ->
     exists s', body i s = Ok s' /\ P (Datatypes.S i) s') ->
  exists s', for_each (seq start n) body s = Ok s' /\ P (start + n) s'.
Proof.
  revert start s. induction n as [|n IH]; intros start s H0 Hstep.
  - simpl. exists s. rewrite Nat.add_0_r. auto.
  - simpl. destruct (Hstep start s) as [s1 [E1 P1]]; [lia | assumption |].
    rewrite E1. simpl.
    destruct (IH (Datatypes.S start) s1 P1) as [s2 [E2 P2]].
    + intros i s' Hi. apply Hstep. lia.
    + exists s2. split; [exact E2|]. replace (start + Datatypes.S n) with (Datatypes.S start + n) by lia. exact P2.
Qed.

Lemma for_range_inv {S : Type} (P : nat -> S -> Prop)
    (body : nat -> S -> result S) (n : nat) (s : S) :
  P 0 s ->
  (forall i s, i < n -> P i s ->
     exists s', body i s = Ok s' /\ P (Datatypes.S i) s') ->
  exists s', for_each (range n) body s = Ok s' /\ P n s'.
Proof.
  intros H0 Hstep. unfold range.
  destruct (for_each_seq_inv P body n 0 s H0) as [s' [E HP]].
  - intros i s1 Hi. apply Hstep. lia.
  - exists s'. auto.
Qed.

(** the same for a loop over [enumerate(xs)] *)
Lemma for_each_combine_inv {A S : Type} (P : nat -> S -> Prop)
    (body : nat * A -> S -> result S) (xs : list A) (start : nat) (s : S) :
  P start s ->
  (forall i x s, nth_error xs (i - start) = Some x -> start <= i ->
     P i s -> exists s', body (i, x) s = Ok s' /\ P (Datatypes.S i) s') ->
  exists s', for_each (combine (seq start (length xs)) xs) body s = Ok s'
             /\ P (start + length xs) s'.
Proof.
  revert start s. induction xs as [|x xs IH]; intros start s H0 Hstep.
  - simpl. exists s. rewrite Nat.add_0_r. auto.
  - simpl. destruct (Hstep start x s) as [s1 [E1 P1]]; auto.
    { rewrite Nat.sub_diag. reflexivity. }
    rewrite E1. simpl.
    destruct (IH (Datatypes.S start) s1 P1) as [s2 [E2 P2]].
    + intros i y s' Hy Hi. apply Hstep; [|lia].
      replace (i - start) with (Datatypes.S (i - Datatypes.S start)) by lia. exact Hy.
    + exists s2. split; [exact E2|].
      replace (start + Datatypes.S (length xs)) with (Datatypes.S start + length xs) by lia. exact P2.
Qed.

Lemma for_enumerate_inv {A S : Type} (P : nat -> S -> Prop)
    (body : nat * A -> S -> result S) (xs : list A) (s : S) :
  P 0 s ->
  (forall i x s, nth_error xs i = Some x ->
     P i s -> exists s', body (i, x) s = Ok s' /\ P (Datatypes.S i) s') ->
  exists s', for_each (enumerate xs) body s = Ok s' /\ P (length xs) s'.
Proof.
  intros H0 Hstep. unfold enumerate.
  destruct (for_each_combine_inv P body xs 0 s H0) as [s' [E HP]].
  - intros i x s1 Hx _. apply Hstep. rewrite Nat.sub_0_r in Hx. exact Hx.
  - exists s'. auto.
Qed.

(** ** Arrays: entries of a tabulated array *)

Lemma tget_tab (sh : list nat) : forall (f : list nat -> R) (ix : list nat),
  in_bounds sh ix -> tget ix (tab sh f) = f ix.
Proof.
  induction sh as [|n sh IH]; intros f ix Hb.
  - destruct ix; [reflexivity | contradiction].
  - destruct ix as [|i ix]; [contradiction|]. destruct Hb as [Hi Hb].
    simpl.
    rewrite nth_indep with (d' := (fun a => tab sh (fun jx => f (a :: jx))) 0).
    2:{ rewrite length_map, length_seq. exact Hi. }
    rewrite (map_nth (fun a => tab sh (fun jx => f (a :: jx)))).
    rewrite seq_nth by exact Hi. simpl.
    apply (IH (fun jx => f (i :: jx))). exact Hb.
Qed.

Lemma at_tabulate (sh : list nat) (f : list nat -> R) (ix : list nat) :
  in_bounds sh ix -> at_ (tabulate sh f) ix = f ix.
Proof. apply tget_tab. Qed.

Lemma tab_ext (sh : list nat) : forall (f g : list nat -> R),
  (forall ix, in_bounds sh ix -> f ix = g ix) -> tab sh f = tab sh g.
Proof.
  induction sh as [|n sh IH]; intros f g H.
  - simpl. f_equal. apply H. exact Logic.I.
  - simpl. f_equal. apply map_ext_in. intros i Hi. apply in_seq in Hi.
    apply (IH (fun jx => f (i :: jx)) (fun jx => g (i :: jx))).
    intros ix Hb. apply H. split; [lia | exact Hb].
Qed.

Lemma tabulate_ext (sh : list nat) (f g : list nat -> R) :
  (forall ix, in_bounds sh ix -> f ix = g ix) -> tabulate sh f = tabulate sh g.
Proof. intros H. unfold tabulate. f_equal. apply tab_ext. exact H. Qed.

Lemma in_bounds_length (sh : list nat) : forall ix,
  in_bounds sh ix -> length ix = length sh.
Proof.
  induction sh as [|n sh IH]; intros [|i ix] H; simpl in *; try contradiction; auto.
  f_equal. apply IH. tauto.
Qed.

(** ** Arrays: indexing *)

Lemma locate_in_bounds (idx : list index) : forall sh tsh ix jx,
  sub_shape idx sh = Some tsh -> in_bounds sh ix ->
  locate idx ix = Some jx -> in_bounds tsh jx.
Proof.
  induction idx as [|[n|] idx IH]; intros sh tsh ix jx Hs Hb Hl; simpl in *.
  - inversion Hs; inversion Hl; subst. exact Hb.
  - destruct sh as [|d sh]; [discriminate|].
    destruct ix as [|i ix]; [discriminate|]. destruct Hb as [Hi Hb].
    destruct (n <? d); [|discriminate].
    destruct (i =? n); [|discriminate]. eapply IH; eauto.
  - destruct sh as [|d sh]; [discriminate|].
    destruct ix as [|i ix]; [discriminate|]. destruct Hb as [Hi Hb].
    destruct (sub_shape idx sh) as [tsh'|] eqn:E; [|discriminate].
    destruct (locate idx ix) as [jx'|] eqn:E'; [|discriminate].
    inversion Hs; inversion Hl; subst. split; [exact Hi|]. eapply IH; eauto.
Qed.

Lemma bc_index_same_aux (sh : list nat) : forall ix,
  in_bounds sh ix ->
  map (fun '(d, i) => if d =? 1 then 0 else i) (combine sh ix) = ix.
Proof.
  induction sh as [|d sh IH]; intros [|i ix] Hb; simpl in *; try contradiction; auto.
  destruct Hb as [Hi Hb]. rewrite IH by exact Hb. f_equal.
  destruct (d =? 1) eqn:E; [|reflexivity]. apply Nat.eqb_eq in E. lia.
Qed.

Lemma bc_index_same (sh ix : list nat) :
  in_bounds sh ix -> bc_index sh ix = ix.
Proof.
  intros Hb. unfold bc_index. rewrite (in_bounds_length sh ix Hb).
  rewrite Nat.sub_diag. simpl. apply bc_index_same_aux. exact Hb.
Qed.

Lemma bc_ok_rev_refl (l : list nat) : bc_ok_rev l l = true.
Proof.
  induction l as [|d l IH]; simpl; [reflexivity|].
  rewrite Nat.eqb_refl, IH. reflexivity.
Qed.

Lemma broadcastable_refl (sh : list nat) : broadcastable sh sh = true.
Proof. apply bc_ok_rev_refl. Qed.

Lemma getitem_ok (a : ndarray) (idx : list index) (tsh : list nat) :
  sub_shape idx (nd_shape a) = Some tsh ->
  getitem a idx = Ok (tabulate tsh (fun ix => at_ a (fill idx ix))).
Proof. intros H. unfold getitem. rewrite H. reflexivity. Qed.

(** storing a value that has the shape of the region *)
Lemma setitem_ok (a : ndarray) (idx : list index) (v : ndarray) :
  sub_shape idx (nd_shape a) = Some (nd_shape v) ->
  setitem a idx v =
  Ok (tabulate (nd_shape a)
        (fun ix => match locate idx ix with
                   | Some jx => at_ v jx
                   | None => at_ a ix
                   end)).
Proof.
  intros H. unfold setitem. rewrite H, broadcastable_refl. f_equal.
  apply tabulate_ext. intros ix Hb.
  destruct (locate idx ix) as [jx|] eqn:E; [|reflexivity].
  rewrite bc_index_same; [reflexivity|].
  eapply locate_in_bounds; eauto.
Qed.

Lemma setitem_shape (a : ndarray) (idx : list index) (v a' : ndarray) :
  setitem a idx v = Ok a' -> nd_shape a' = nd_shape a.
Proof.
  unfold setitem. destruct (sub_shape idx (nd_shape a)); [|discriminate].
  destruct (broadcastable (nd_shape v) l); [|discriminate].
  intros H. inversion H. reflexivity.
Qed.

Lemma in_bounds2 (n m : nat) (ix : list nat) :
  in_bounds [n; m] ix -> exists i j, ix = [i; j] /\ i < n /\ j < m.
Proof.
  destruct ix as [|i [|j [|? ?]]]; simpl; try tauto.
  intros [H [H' _]]. eauto.
Qed.

Lemma in_bounds3 (n m p : nat) (ix : list nat) :
  in_bounds [n; m; p] ix ->
  exists i j k, ix = [i; j; k] /\ i < n /\ j < m /\ k < p.
Proof.
  destruct ix as [|i [|j [|k [|? ?]]]]; simpl; try tauto.
  intros [H [H' [H'' _]]]. exists i, j, k. auto.
Qed.

Ltac ltb_true :=
  repeat match goal with
         | |- context [?a <? ?b] =>
             rewrite (proj2 (Nat.ltb_lt a b)) by lia
         end.

Ltac bounds :=
  simpl; repeat split; try lia; try exact Logic.I.

Lemma matmul_vec (a b : ndarray) (m n : nat) :
  nd_shape a = [m; n] -> nd_shape b = [n] ->
  matmul a b =
  Ok (tabulate [m]
        (fun ix => sum_n n (fun l => (at_ a [hd 0%nat ix; l] * at_ b [l])%R))).
Proof.
  intros Ha Hb. unfold matmul. rewrite Ha, Hb. simpl.
  rewrite Nat.eqb_refl. reflexivity.
Qed.

Lemma matmul_mat (a b : ndarray) (m n p : nat) :
  nd_shape a = [m; n] -> nd_shape b = [n; p] ->
  matmul a b =
  Ok (tabulate [m; p]
        (fun ix => sum_n n (fun l =>
                     (at_ a [nth 0 ix 0%nat; l] * at_ b [l; nth 1 ix 0%nat])%R))).
Proof.
  intros Ha Hb. unfold matmul. rewrite Ha, Hb. simpl.
  rewrite Nat.eqb_refl. reflexivity.
Qed.

Lemma sum_n_ext (n : nat) (f g : nat -> R) :
  (forall l, l < n -> f l = g l) -> sum_n n f = sum_n n g.
Proof.
  induction n as [|n IH]; intros H; simpl; [reflexivity|].
  rewrite IH by (intros; apply H; lia). rewrite H by lia. reflexivity.
Qed.

(** ** The angle sequence *)

Lemma theta_first (lo hi : R) (s : nat) : theta lo hi s 0 = lo.
Proof.
  unfold theta, np_linspace. rewrite at_tabulate by bounds. simpl hd.
  replace (s + 1 - 1) with s by lia.
  destruct s as [|s].
  - simpl. lra.
  - replace (0 =? S s) with false by (symmetry; apply Nat.eqb_neq; lia).
    rewrite andb_false_r.
    replace (0 <? S s) with true by (symmetry; apply Nat.ltb_lt; lia).
    change (INR 0) with 0%R.
    destruct (Req_dec_T ((hi - lo) / INR (S s)) 0); unfold Rdiv; lra.
Qed.

Lemma theta_even (lo hi : R) (s f : nat) :
  1 <= s -> f <= s ->
  theta lo hi s f = (lo + INR f * ((hi - lo) / INR s))%R.
Proof.
  intros Hs Hf. unfold theta, np_linspace. rewrite at_tabulate by bounds.
  simpl hd. replace (s + 1 - 1) with s by lia.
  assert (Hs0 : INR s <> 0%R) by (apply not_0_INR; lia).
  replace (1 <? s + 1) with true by (symmetry; apply Nat.ltb_lt; lia).
  replace (0 <? s) with true by (symmetry; apply Nat.ltb_lt; lia).
  simpl andb. destruct (f =? s) eqn:E.
  - apply Nat.eqb_eq in E. subst f. field. exact Hs0.
  - destruct (Req_dec_T ((hi - lo) / INR s) 0); field; exact Hs0.
Qed.

Lemma theta_last (lo hi : R) (s : nat) : 1 <= s -> theta lo hi s s = hi.
Proof.
  intros Hs. rewrite theta_even by lia. field. apply not_0_INR. lia.
Qed.

(** ** Compiling a transform *)

Lemma ltb_0 (n : nat) : (n <? 0) = false.
Proof. reflexivity. Qed.

Lemma compile_cell_ok (element : cell) (thetas : ndarray) :
  valid_cell element = true ->
  compile_cell element thetas =
  Ok (tabulate (nd_shape thetas) (fun ix => cell_value element (at_ thetas ix))).
Proof.
  destruct element as [x|s]; simpl; intros Hv; [reflexivity|].
  destruct (String.eqb s "cos"); [reflexivity|].
  destruct (String.eqb s "-cos").
  { f_equal. apply tabulate_ext. intros ix Hb.
    unfold np_cos, nd_map. rewrite at_tabulate by exact Hb. reflexivity. }
  destruct (String.eqb s "sin"); [reflexivity|].
  destruct (String.eqb s "-sin"); [|discriminate].
  f_equal. apply tabulate_ext. intros ix Hb.
  unfold np_sin, nd_map. rewrite at_tabulate by exact Hb. reflexivity.
Qed.

Lemma compile_cell_unknown (s : string) (thetas : ndarray) :
  valid_cell (Str s) = false ->
  compile_cell (Str s) thetas = Raise (NameError "multiplier").
Proof.
  simpl. intros H.
  destruct (String.eqb s "cos"); [discriminate|].
  destruct (String.eqb s "-cos"); [discriminate|].
  destruct (String.eqb s "sin"); [discriminate|].
  destruct (String.eqb s "-sin"); [discriminate|]. reflexivity.
Qed.

Lemma well_formed_rows (r c : nat) (t : transform_spec) :
  well_formed_transform r c t = true ->
  length (t_transform t) = r /\
  forall j row, nth_error (t_transform t) j = Some row ->
    length row = c /\
    forall k e, nth_error row k = Some e -> valid_cell e = true.
Proof.
  unfold well_formed_transform. intros H. apply andb_prop in H.
  destruct H as [Hr Hrows]. apply Nat.eqb_eq in Hr. split; [exact Hr|].
  intros j row Hj. rewrite forallb_forall in Hrows.
  specialize (Hrows row (nth_error_In _ _ Hj)). apply andb_prop in Hrows.
  destruct Hrows as [Hc Hv]. apply Nat.eqb_eq in Hc. split; [exact Hc|].
  intros k e Hk. rewrite forallb_forall in Hv. apply Hv.
  eapply nth_error_In; eauto.
Qed.

Lemma build_rotator_ok (s r c : nat) (t : transform_spec) :
  0 < r -> well_formed_transform r c t = true ->
  build_rotator s t = Ok (tabulate [r; c; s + 1] (rotator_entries s t)).
Proof.
  intros Hr Hwf. destruct (well_formed_rows r c t Hwf) as [Hlen Hrows].
  unfold build_rotator, py_index.
  destruct (nth_error (t_transform t) 0) as [row0|] eqn:E0.
  2:{ apply nth_error_None in E0. lia. }
  simpl bind.
  assert (Hc0 : length row0 = c) by (apply (Hrows 0 row0 E0)).
  rewrite Hc0, Hlen.
  set (thetas := np_linspace (t_min t) (t_max t) (s + 1)).
  set (sh := [r; c; s + 1]).
  set (done := fun (j k : nat) (ix : list nat) =>
                 (nth 0 ix 0 <? j) || ((nth 0 ix 0 =? j) && (nth 1 ix 0 <? k))).
  set (P := fun (j : nat) (rot : ndarray) =>
              rot = tabulate sh (fun ix => if done j 0 ix
                                           then rotator_entries s t ix else 0%R)).
  destruct (for_enumerate_inv P
              (fun '(j, row) rotator =>
                 for_each (enumerate row)
                   (fun '(k, element) rotator =>
                      v <- compile_cell element thetas ;;
                      setitem rotator [I j; I k; Sl] v) rotator)
              (t_transform t) (np_zeros sh)) as [rot [E HP]].
  - unfold P, np_zeros, np_full. apply tabulate_ext. intros ix Hb.
    unfold done. rewrite !ltb_0, andb_false_r. reflexivity.
  - intros j row rot0 Hj HP0.
    assert (Hjr : j < r).
    { rewrite <- Hlen. apply nth_error_Some. rewrite Hj. discriminate. }
    destruct (Hrows j row Hj) as [Hc Hvalid].
    set (Q := fun (k : nat) (rot : ndarray) =>
                rot = tabulate sh (fun ix => if done j k ix
                                             then rotator_entries s t ix else 0%R)).
    destruct (for_enumerate_inv Q
                (fun '(k, element) rotator =>
                   v <- compile_cell element thetas ;;
                   setitem rotator [I j; I k; Sl] v) row rot0) as [rot1 [E1 HQ]].
    + exact HP0.
    + intros k e rot2 Hk HQ2.
      assert (Hkc : k < c).
      { rewrite <- Hc. apply nth_error_Some. rewrite Hk. discriminate. }
      unfold Q in HQ2. subst rot2.
      rewrite (compile_cell_ok e thetas (Hvalid k e Hk)). simpl bind.
      rewrite setitem_ok.
      2:{ simpl. ltb_true. reflexivity. }
      eexists. split; [reflexivity|]. unfold Q. simpl nd_shape.
      apply tabulate_ext. intros ix Hb.
      destruct (in_bounds3 _ _ _ _ Hb) as (i & k' & f & -> & Hi & Hk' & Hf).
      rewrite at_tabulate by exact Hb. unfold done. simpl nth. simpl locate.
      destruct (i =? j) eqn:Eij.
      * apply Nat.eqb_eq in Eij. subst i. rewrite Nat.ltb_irrefl. simpl orb.
        destruct (k' =? k) eqn:Ek.
        -- apply Nat.eqb_eq in Ek. subst k'.
           replace (k <? S k) with true by (symmetry; apply Nat.ltb_lt; lia).
           rewrite at_tabulate by bounds.
           unfold rotator_entries, rotator_frame, cell_at, theta. simpl nth.
           rewrite (nth_error_nth _ _ _ Hj). rewrite (nth_error_nth _ _ _ Hk).
           reflexivity.
        -- apply Nat.eqb_neq in Ek. simpl option_map.
           destruct (k' <? k) eqn:E3.
           ++ apply Nat.ltb_lt in E3.
              replace (k' <? S k) with true by (symmetry; apply Nat.ltb_lt; lia).
              reflexivity.
           ++ apply Nat.ltb_ge in E3.
              replace (k' <? S k) with false by (symmetry; apply Nat.ltb_ge; lia).
              reflexivity.
      * simpl andb. rewrite !orb_false_r. reflexivity.
    + exists rot1. split; [exact E1|]. unfold P. unfold Q in HQ. rewrite HQ.
      apply tabulate_ext. intros ix Hb.
      destruct (in_bounds3 _ _ _ _ Hb) as (i & k' & f & -> & Hi & Hk' & Hf).
      unfold done. simpl nth. rewrite Hc.
      replace (k' <? c) with true by (symmetry; apply Nat.ltb_lt; lia).
      rewrite ltb_0, andb_true_r, andb_false_r, orb_false_r.
      destruct (i =? j) eqn:Eij.
      * apply Nat.eqb_eq in Eij. subst i.
        replace (j <? S j) with true by (symmetry; apply Nat.ltb_lt; lia).
        rewrite orb_true_r. reflexivity.
      * apply Nat.eqb_neq in Eij. rewrite orb_false_r.
        destruct (i <? j) eqn:E3.
        -- apply Nat.ltb_lt in E3.
           replace (i <? S j) with true by (symmetry; apply Nat.ltb_lt; lia).
           reflexivity.
        -- apply Nat.ltb_ge in E3.
           replace (i <? S j) with false by (symmetry; apply Nat.ltb_ge; lia).
           reflexivity.
  - fold sh. rewrite E. f_equal. unfold P in HP. rewrite HP.
    apply tabulate_ext. intros ix Hb.
    destruct (in_bounds3 _ _ _ _ Hb) as (i & k' & f & -> & Hi & Hk' & Hf).
    unfold done. simpl nth. rewrite Hlen.
    replace (i <? r) with true by (symmetry; apply Nat.ltb_lt; lia).
    reflexivity.
Qed.

(** ** Composing the rotators *)

Lemma getitem_frame (a : ndarray) (r c F i : nat) :
  nd_shape a = [r; c; F] -> i < F ->
  getitem a [Sl; Sl; I i] =
  Ok (tabulate [r; c] (fun ix => frame_of a i (nth 0 ix 0) (nth 1 ix 0))).
Proof.
  intros Hs Hi. rewrite (getitem_ok a _ [r; c]).
  2:{ rewrite Hs. simpl. ltb_true. reflexivity. }
  reflexivity.
Qed.

Lemma mat_tab_at (D : nat) (M : Mat) (i j : nat) :
  i < D -> j < D -> at_ (mat_tab D M) [i; j] = M i j.
Proof. intros Hi Hj. unfold mat_tab. rewrite at_tabulate by bounds. reflexivity. Qed.

Lemma matmul_mat_tab (D : nat) (M N : Mat) :
  matmul (mat_tab D M) (mat_tab D N) = Ok (mat_tab D (mmul D M N)).
Proof.
  rewrite (matmul_mat _ _ D D D) by reflexivity. f_equal.
  apply tabulate_ext. intros ix Hb.
  destruct (in_bounds2 _ _ _ Hb) as (x & y & -> & Hx & Hy). simpl nth.
  unfold mmul. apply sum_n_ext. intros l Hl.
  rewrite !mat_tab_at by lia. reflexivity.
Qed.

Lemma frame_product_rest (D F i : nat) (rest : list ndarray) :
  i < F -> Forall (fun r => nd_shape r = [D; D; F]) rest ->
  forall M : Mat,
    for_each rest
      (fun rotator frame_rotator =>
         r <- getitem rotator [Sl; Sl; I i] ;; matmul frame_rotator r)
      (mat_tab D M) =
    Ok (mat_tab D (fold_left (mmul D) (map (fun r => frame_of r i) rest) M)).
Proof.
  intros Hi Hall. induction Hall as [|r rest Hr Hrest IH]; intros M.
  - reflexivity.
  - simpl for_each. rewrite (getitem_frame r D D F i Hr Hi). simpl bind.
    fold (mat_tab D (frame_of r i)). rewrite matmul_mat_tab. simpl bind.
    rewrite IH. reflexivity.
Qed.

Lemma frame_product_ok (D F i : nat) (rotators : list ndarray) :
  i < F -> rotators <> [] ->
  Forall (fun r => nd_shape r = [D; D; F]) rotators ->
  frame_product rotators i =
  Ok (mat_tab D (ordered_product D (map (fun r => frame_of r i) rotators))).
Proof.
  intros Hi Hne Hall. destruct rotators as [|r rest]; [congruence|].
  inversion Hall as [|? ? Hr Hrest]; subst.
  unfold frame_product. rewrite (getitem_frame r D D F i Hr Hi). simpl bind.
  fold (mat_tab D (frame_of r i)).
  rewrite (frame_product_rest D F i rest Hi Hrest). reflexivity.
Qed.

Lemma build_composite_ok (D s : nat) (rotators : list ndarray) :
  rotators <> [] ->
  Forall (fun r => nd_shape r = [D; D; s + 1]) rotators ->
  build_composite rotators None s (np_zeros [D; D; s + 1]) =
  Ok (tabulate [D; D; s + 1] (composite_entries D rotators)).
Proof.
  intros Hne Hall. unfold build_composite.
  set (sh := [D; D; s + 1]).
  set (P := fun (i : nat) (comp : ndarray) =>
              comp = tabulate sh (fun ix => if nth 2 ix 0 <? i
                                            then composite_entries D rotators ix
                                            else 0%R)).
  destruct (for_range_inv P
              (fun i composite_rotator =>
                 frame_rotator <- frame_product rotators i ;;
                 frame_rotator <- Ok frame_rotator ;;
                 setitem composite_rotator [Sl; Sl; I i] frame_rotator)
              (s + 1) (np_zeros sh)) as [comp [E HP]].
  - unfold P, np_zeros, np_full. apply tabulate_ext. intros ix _.
    rewrite ltb_0. reflexivity.
  - intros i comp Hi HP. unfold P in HP. subst comp.
    rewrite (frame_product_ok D (s + 1) i rotators Hi Hne Hall). simpl bind.
    rewrite setitem_ok.
    2:{ simpl. ltb_true. reflexivity. }
    eexists. split; [reflexivity|]. unfold P. simpl nd_shape.
    apply tabulate_ext. intros ix Hb.
    destruct (in_bounds3 _ _ _ _ Hb) as (a & b & f & -> & Ha & Hb' & Hf).
    rewrite at_tabulate by exact Hb. simpl nth. simpl locate.
    destruct (f =? i) eqn:Efi.
    + apply Nat.eqb_eq in Efi. subst f. simpl.
      replace (i <? S i) with true by (symmetry; apply Nat.ltb_lt; lia).
      rewrite mat_tab_at by lia. reflexivity.
    + apply Nat.eqb_neq in Efi. simpl.
      destruct (f <? i) eqn:E3.
      * apply Nat.ltb_lt in E3.
        replace (f <? S i) with true by (symmetry; apply Nat.ltb_lt; lia).
        reflexivity.
      * apply Nat.ltb_ge in E3.
        replace (f <? S i) with false by (symmetry; apply Nat.ltb_ge; lia).
        reflexivity.
  - rewrite E. f_equal. unfold P in HP. rewrite HP.
    apply tabulate_ext. intros ix Hb.
    destruct (in_bounds3 _ _ _ _ Hb) as (a & b & f & -> & Ha & Hb' & Hf).
    simpl nth.
    replace (f <? s + 1) with true by (symmetry; apply Nat.ltb_lt; lia).
    reflexivity.
Qed.

(** ** Applying the composite rotator to the cloud *)

Lemma shape_from_end_ok (a : ndarray) (i : nat) :
  1 <= i <= rank a ->
  shape_from_end a i = Ok (nth (rank a - i) (nd_shape a) 0).
Proof.
  intros H. unfold shape_from_end.
  replace (i <=? rank a) with true by (symmetry; apply Nat.leb_le; lia).
  reflexivity.
Qed.

Lemma rotate_points_ok (D n m F : nat) (comp points frames : ndarray) :
  nd_shape comp = [D; D; F] ->
  nd_shape points = [D; n; m] ->
  nd_shape frames = [F; D; n; m] ->
  exists fr,
    rotate_points comp points frames = Ok fr /\
    nd_shape fr = [F; D; n; m] /\
    forall f d j k, f < F -> d < D -> j < n -> k < m ->
      at_ fr [f; d; j; k] = rotated D comp points f d j k.
Proof.
  intros Hc Hp Hf. unfold rotate_points.
  rewrite shape_from_end_ok by (unfold rank; rewrite Hc; simpl; lia).
  unfold rank at 1. rewrite Hc. simpl nth. simpl bind.
  set (Inv := fun (i j k : nat) (fr : ndarray) =>
                nd_shape fr = [F; D; n; m] /\
                forall f d j' k', f < F -> d < D -> j' < n -> k' < m ->
                  before i j k f j' k' ->
                  at_ fr [f; d; j'; k'] = rotated D comp points f d j' k').
  assert (Hn : shape_from_end points 2 = Ok n).
  { rewrite shape_from_end_ok by (unfold rank; rewrite Hp; simpl; lia).
    unfold rank. rewrite Hp. reflexivity. }
  assert (Hm : shape_from_end points 1 = Ok m).
  { rewrite shape_from_end_ok by (unfold rank; rewrite Hp; simpl; lia).
    unfold rank. rewrite Hp. reflexivity. }
  match goal with
  | |- exists fr, for_each _ ?body _ = _ /\ _ =>
      destruct (for_range_inv (fun i => Inv i 0 0) body F frames)
        as [fr [E [Hs HI]]]
  end.
  - split; [exact Hf|]. intros f d j' k' _ _ _ _ Hb. unfold before in Hb. lia.
  - intros i fr0 Hi HI0. rewrite Hn. simpl bind.
    match goal with
    | |- exists s', for_each _ ?body _ = _ /\ _ =>
        destruct (for_range_inv (fun j => Inv i j 0) body n fr0)
          as [fr1 [E1 HI1]]
    end.
    + exact HI0.
    + intros j fr2 Hj HI2. rewrite Hm. simpl bind.
      match goal with
      | |- exists s', for_each _ ?body _ = _ /\ _ =>
          destruct (for_range_inv (fun k => Inv i j k) body m fr2)
            as [fr3 [E3 HI3]]
      end.
      * exact HI2.
      * intros k fr4 Hk [Hs4 HI4].
        rewrite (getitem_frame comp D D F i Hc Hi). simpl bind.
        rewrite (getitem_ok points _ [D]).
        2:{ rewrite Hp. simpl. ltb_true. reflexivity. }
        simpl bind.
        rewrite (matmul_vec _ _ D D) by reflexivity. simpl bind.
        rewrite setitem_ok.
        2:{ rewrite Hs4. simpl. ltb_true. reflexivity. }
        eexists. split; [reflexivity|]. split; [exact Hs4|].
        intros f d j' k' Hf' Hd Hj' Hk' Hbef.
        rewrite Hs4. rewrite at_tabulate by bounds. simpl locate.
        destruct (f =? i) eqn:Efi; [apply Nat.eqb_eq in Efi | apply Nat.eqb_neq in Efi].
        -- destruct (j' =? j) eqn:Ej; [apply Nat.eqb_eq in Ej | apply Nat.eqb_neq in Ej].
           ++ destruct (k' =? k) eqn:Ek; [apply Nat.eqb_eq in Ek | apply Nat.eqb_neq in Ek].
              ** subst f j' k'. simpl option_map. cbv beta iota.
                 rewrite at_tabulate by bounds. simpl hd.
                 unfold rotated. apply sum_n_ext. intros l Hl.
                 rewrite !at_tabulate by bounds. reflexivity.
              ** simpl option_map. cbv beta iota. apply HI4; auto. unfold before in *. lia.
           ++ simpl option_map. cbv beta iota. apply HI4; auto. unfold before in *. lia.
        -- apply HI4; auto. unfold before in *. lia.
      * exists fr3. split; [exact E3|]. destruct HI3 as [Hs3 HI3].
        split; [exact Hs3|]. intros f d j' k' Hf' Hd Hj' Hk' Hbef.
        apply HI3; auto. unfold before in *. lia.
    + exists fr1. split; [exact E1|]. destruct HI1 as [Hs1 HI1].
      split; [exact Hs1|]. intros f d j' k' Hf' Hd Hj' Hk' Hbef.
      apply HI1; auto. unfold before in *. lia.
  - exists fr. split; [exact E|]. split; [exact Hs|].
    intros f d j k Hf' Hd Hj Hk. apply HI; auto. unfold before. lia.
Qed.

(** ** The whole of [animate_rotation], without a projection basis *)

Lemma mapM_ok {A B : Type} (f : A -> result B) (g : A -> B) (xs : list A) :
  (forall x, In x xs -> f x = Ok (g x)) -> mapM f xs = Ok (map g xs).
Proof.
  induction xs as [|x xs IH]; intros H; simpl; [reflexivity|].
  rewrite (H x) by (left; reflexivity). simpl.
  rewrite IH by (intros y Hy; apply H; right; exact Hy). reflexivity.
Qed.

Lemma animate_rotation_rotators (junk : list nat -> R) (self : FunctionRunner)
    (cp : point_data) (rot : rotation_spec) (rotators : list ndarray)
    (D n m : nat) :
  computed_points self = Some cp ->
  nd_shape (pd_points cp) = [D; n; m] ->
  mapM (build_rotator (segments rot)) (transforms rot) = Ok rotators ->
  rotators <> [] ->
  Forall (fun r => nd_shape r = [D; D; segments rot + 1]) rotators ->
  exists frames,
    animate_rotation junk self rot None =
      Ok (set_animation_frames self
            {| fd_ranges := pd_ranges cp; fd_frames := frames |}) /\
    nd_shape frames = [segments rot + 1; D; n; m] /\
    forall f d j k, f < segments rot + 1 -> d < D -> j < n -> k < m ->
      at_ frames [f; d; j; k] =
      mat_vec D (ordered_product D (map (fun r => frame_of r f) rotators))
        (point_vector (pd_points cp) j k) d.
Proof.
  intros Hcp Hp Hmap Hne Hall. unfold animate_rotation. rewrite Hcp.
  unfold rank. rewrite Hp. simpl Nat.ltb. cbv iota.
  rewrite Hmap. simpl bind.
  destruct rotators as [|r0 rest]; [congruence|].
  simpl py_index. simpl bind.
  assert (H0 : nd_shape r0 = [D; D; segments rot + 1]) by (inversion Hall; auto).
  rewrite H0. rewrite (build_composite_ok D (segments rot) (r0 :: rest) Hne Hall).
  simpl bind.
  destruct (rotate_points_ok D n m (segments rot + 1)
              (tabulate [D; D; segments rot + 1] (composite_entries D (r0 :: rest)))
              (pd_points cp)
              (np_empty junk (segments rot + 1 :: [D; n; m])))
    as [fr [E [Hs He]]]; try reflexivity; try exact Hp.
  rewrite E. simpl bind. exists fr. split; [reflexivity|]. split; [exact Hs|].
  intros f d j k Hf Hd Hj Hk. rewrite He by assumption.
  unfold rotated, mat_vec, point_vector. apply sum_n_ext. intros l Hl.
  rewrite at_tabulate by bounds. reflexivity.
Qed.

(** ** Finite sums *)

Local Open Scope R_scope.

Lemma sum_n_zero (n : nat) : sum_n n (fun _ => 0) = 0.
Proof. induction n as [|n IH]; simpl; [reflexivity | rewrite IH; lra]. Qed.

Lemma sum_n_plus (n : nat) (f g : nat -> R) :
  sum_n n (fun l => f l + g l) = sum_n n f + sum_n n g.
Proof. induction n as [|n IH]; simpl; [lra | rewrite IH; lra]. Qed.

Lemma sum_n_minus (n : nat) (f g : nat -> R) :
  sum_n n (fun l => f l - g l) = sum_n n f - sum_n n g.
Proof. induction n as [|n IH]; simpl; [lra | rewrite IH; lra]. Qed.

Lemma sum_n_scal_l (n : nat) (c : R) (f : nat -> R) :
  sum_n n (fun l => c * f l) = c * sum_n n f.
Proof. induction n as [|n IH]; simpl; [lra | rewrite IH; lra]. Qed.

Lemma sum_n_scal_r (n : nat) (c : R) (f : nat -> R) :
  sum_n n (fun l => f l * c) = sum_n n f * c.
Proof. induction n as [|n IH]; simpl; [lra | rewrite IH; lra]. Qed.

Lemma sum_n_delta_l (n i : nat) (f : nat -> R) :
  (i < n)%nat -> sum_n n (fun l => delta i l * f l) = f i.
Proof.
  unfold delta. induction n as [|n IH]; intros Hi; [lia|]. simpl.
  destruct (Nat.eq_dec i n) as [->|Hne].
  - rewrite Nat.eqb_refl.
    rewrite (sum_n_ext n _ (fun _ => 0)).
    + rewrite sum_n_zero. lra.
    + intros l Hl. replace (n =? l)%nat with false by (symmetry; apply Nat.eqb_neq; lia). lra.
  - rewrite IH by lia.
    replace (i =? n)%nat with false by (symmetry; apply Nat.eqb_neq; lia). lra.
Qed.

Lemma sum_n_delta_r (n j : nat) (f : nat -> R) :
  (j < n)%nat -> sum_n n (fun l => f l * delta l j) = f j.
Proof.
  intros Hj. rewrite <- (sum_n_delta_l n j f Hj). apply sum_n_ext.
  intros l _. unfold delta. rewrite (Nat.eqb_sym l j). lra.
Qed.

Lemma sum_n_swap (n m : nat) (f : nat -> nat -> R) :
  sum_n n (fun i => sum_n m (fun j => f i j)) =
  sum_n m (fun j => sum_n n (fun i => f i j)).
Proof.
  induction n as [|n IH]; simpl.
  - rewrite sum_n_zero. reflexivity.
  - rewrite IH. rewrite <- sum_n_plus. reflexivity.
Qed.

Lemma sum_n_nonneg (n : nat) (f : nat -> R) :
  (forall l, 0 <= f l) -> 0 <= sum_n n f.
Proof.
  intros H. induction n as [|n IH]; simpl; [lra|]. specialize (H n). lra.
Qed.

Local Close Scope R_scope.

(** ** Matrices that agree on their first [D] rows and columns *)

Lemma mmul_ext (D : nat) (M M' N N' : Mat) :
  mat_eq_on D M M' -> mat_eq_on D N N' ->
  mat_eq_on D (mmul D M N) (mmul D M' N').
Proof.
  intros HM HN a b Ha Hb. unfold mmul. apply sum_n_ext. intros l Hl.
  rewrite HM, HN by assumption. reflexivity.
Qed.

Lemma fold_mmul_ext (D : nat) (ms ns : list Mat) :
  Forall2 (mat_eq_on D) ms ns ->
  forall M N, mat_eq_on D M N ->
    mat_eq_on D (fold_left (mmul D) ms M) (fold_left (mmul D) ns N).
Proof.
  induction 1 as [|m n ms ns Hmn _ IH]; intros M N HMN; simpl; [exact HMN|].
  apply IH. apply mmul_ext; assumption.
Qed.

Lemma ordered_product_ext (D : nat) (ms ns : list Mat) :
  Forall2 (mat_eq_on D) ms ns ->
  mat_eq_on D (ordered_product D ms) (ordered_product D ns).
Proof.
  intros H. destruct H as [|m n ms ns Hmn H]; simpl.
  - intros a b _ _. reflexivity.
  - apply fold_mmul_ext; assumption.
Qed.

Lemma mmul_eye_r (D : nat) (M : Mat) : mat_eq_on D (mmul D M eye) M.
Proof.
  intros a b Ha Hb. unfold mmul. apply (sum_n_delta_r D b (fun l => M a l) Hb).
Qed.

Lemma fold_mmul_eye (D : nat) (ms : list Mat) :
  Forall (fun m => mat_eq_on D m eye) ms ->
  forall M, mat_eq_on D M eye -> mat_eq_on D (fold_left (mmul D) ms M) eye.
Proof.
  induction 1 as [|m ms Hm _ IH]; intros M HM; simpl; [exact HM|].
  apply IH. intros a b Ha Hb.
  rewrite (mmul_ext D M eye m eye HM Hm a b Ha Hb).
  apply mmul_eye_r; assumption.
Qed.

Lemma ordered_product_eye (D : nat) (ms : list Mat) :
  Forall (fun m => mat_eq_on D m eye) ms ->
  mat_eq_on D (ordered_product D ms) eye.
Proof.
  intros H. destruct H as [|m ms Hm H]; simpl.
  - intros a b _ _. reflexivity.
  - apply fold_mmul_eye; assumption.
Qed.

Lemma mat_vec_ext (D : nat) (M N : Mat) (v : nat -> R) (d : nat) :
  mat_eq_on D M N -> d < D -> mat_vec D M v d = mat_vec D N v d.
Proof.
  intros H Hd. unfold mat_vec. apply sum_n_ext. intros l Hl.
  rewrite H by assumption. reflexivity.
Qed.

Lemma mat_vec_eye (D : nat) (v : nat -> R) (d : nat) :
  d < D -> mat_vec D eye v d = v d.
Proof. intros Hd. unfold mat_vec. apply (sum_n_delta_l D d v Hd). Qed.

(** ** Householder reflectors are orthogonal *)

Local Open Scope R_scope.

Ltac rewrite_beta H :=
  let E := fresh "E" in pose proof H as E; cbv beta in E; rewrite E; clear E.

Lemma delta_sym (i j : nat) : delta i j = delta j i.
Proof. unfold delta. rewrite Nat.eqb_sym. reflexivity. Qed.

Lemma sum_n_delta_one (n i : nat) : (i < n)%nat -> sum_n n (delta i) = 1.
Proof.
  intros Hi. rewrite <- (sum_n_delta_l n i (fun _ => 1) Hi).
  apply sum_n_ext. intros l _. lra.
Qed.

Lemma orthonormal_eye (m : nat) : orthonormal_columns m eye.
Proof.
  intros i j Hi Hj.
  rewrite (sum_n_ext m _ (fun r => delta i r * delta r j)).
  - apply (sum_n_delta_l m i (fun r => delta r j) Hi).
  - intros r _. unfold eye, delta. rewrite (Nat.eqb_sym r i). reflexivity.
Qed.

(** products of matrices with orthonormal columns have orthonormal
    columns *)
Lemma orthonormal_mmul (m : nat) (Q H : Mat) :
  orthonormal_columns m Q -> orthonormal_columns m H ->
  orthonormal_columns m (mmul m Q H).
Proof.
  intros HQ HH i j Hi Hj. unfold mmul.
  rewrite (sum_n_ext m _
             (fun r => sum_n m (fun l => sum_n m (fun l' =>
                         (H l i * H l' j) * (Q r l * Q r l'))))).
  2:{ intros r _. rewrite <- sum_n_scal_r. apply sum_n_ext. intros l _.
      rewrite <- sum_n_scal_l. apply sum_n_ext. intros l' _. ring. }
  rewrite sum_n_swap.
  rewrite (sum_n_ext m _ (fun l => H l i * H l j)).
  - apply HH; assumption.
  - intros l Hl. rewrite sum_n_swap.
    rewrite (sum_n_ext m _ (fun l' => (H l i * H l' j) * delta l' l)).
    + apply (sum_n_delta_r m l (fun l' => H l i * H l' j) Hl).
    + intros l' Hl'. rewrite sum_n_scal_l. rewrite (HQ l l' Hl Hl').
      rewrite (delta_sym l l'). reflexivity.
Qed.

Section ReflectorOrthogonal.
Variable m : nat.
Variable c : nat.
Variable A : Mat.
Hypothesis Hc : (c < m)%nat.

Lemma hh_X_nonneg : 0 <= (hh_below m c A).
Proof.
  apply sum_n_nonneg. intros l. destruct (c <? l)%nat; [|lra].
  apply Rle_0_sqr.
Qed.

Lemma hh_xnorm_sq : hh_xnorm m c A * hh_xnorm m c A = (hh_below m c A).
Proof. unfold hh_xnorm. apply sqrt_sqrt. exact hh_X_nonneg. Qed.

Lemma hh_beta_sq :
  hh_beta m c A * hh_beta m c A = hh_alpha c A * hh_alpha c A + (hh_below m c A).
Proof.
  assert (H0 : 0 <= hh_alpha c A * hh_alpha c A
                    + hh_xnorm m c A * hh_xnorm m c A).
  { rewrite hh_xnorm_sq. pose proof hh_X_nonneg.
    pose proof (Rle_0_sqr (hh_alpha c A)) as H1. unfold Rsqr in H1. lra. }
  unfold hh_beta. cbv zeta. destruct (Rle_dec 0 (hh_alpha c A)).
  - rewrite Rmult_opp_opp, sqrt_sqrt by exact H0. rewrite hh_xnorm_sq. reflexivity.
  - rewrite sqrt_sqrt by exact H0. rewrite hh_xnorm_sq. reflexivity.
Qed.

Lemma hh_norm_pos :
  hh_xnorm m c A <> 0 ->
  0 < sqrt (hh_alpha c A * hh_alpha c A + hh_xnorm m c A * hh_xnorm m c A).
Proof.
  intros Hx. apply sqrt_lt_R0.
  pose proof (Rle_0_sqr (hh_alpha c A)) as H1. unfold Rsqr in H1.
  assert (0 < hh_xnorm m c A * hh_xnorm m c A).
  { destruct (Rtotal_order (hh_xnorm m c A) 0) as [H|[H|H]]; [|lra|]; nra. }
  lra.
Qed.

Lemma hh_beta_nonzero : hh_xnorm m c A <> 0 -> hh_beta m c A <> 0.
Proof.
  intros Hx. pose proof (hh_norm_pos Hx) as Hp.
  unfold hh_beta. cbv zeta. destruct (Rle_dec 0 (hh_alpha c A)); lra.
Qed.

Lemma hh_alpha_beta : hh_xnorm m c A <> 0 -> hh_alpha c A - hh_beta m c A <> 0.
Proof.
  intros Hx. pose proof (hh_norm_pos Hx) as Hp.
  unfold hh_beta. cbv zeta. destruct (Rle_dec 0 (hh_alpha c A)); lra.
Qed.

(** the squared norm of the reflector's vector *)
Lemma hh_v_norm :
  sum_n m (fun l => hh_v m c A l * hh_v m c A l) =
  1 + (hh_below m c A) / ((hh_alpha c A - hh_beta m c A) * (hh_alpha c A - hh_beta m c A)).
Proof.
  set (d := hh_alpha c A - hh_beta m c A).
  rewrite (sum_n_ext m _
             (fun l => delta c l
                       + (if (c <? l)%nat then A l c * A l c else 0)
                         * / (d * d))).
  - rewrite sum_n_plus.
    rewrite (sum_n_scal_r m (/ (d * d))
               (fun l => if (c <? l)%nat then A l c * A l c else 0)).
    rewrite (sum_n_delta_one m c Hc). reflexivity.
  - intros l _. unfold hh_v, delta. fold d.
    destruct (l <? c)%nat eqn:E1.
    + apply Nat.ltb_lt in E1.
      replace (c =? l)%nat with false by (symmetry; apply Nat.eqb_neq; lia).
      replace (c <? l)%nat with false by (symmetry; apply Nat.ltb_ge; lia).
      lra.
    + apply Nat.ltb_ge in E1. destruct (l =? c)%nat eqn:E2.
      * apply Nat.eqb_eq in E2. subst l. rewrite Nat.eqb_refl, Nat.ltb_irrefl.
        lra.
      * apply Nat.eqb_neq in E2.
        replace (c =? l)%nat with false by (symmetry; apply Nat.eqb_neq; lia).
        replace (c <? l)%nat with true by (symmetry; apply Nat.ltb_lt; lia).
        destruct (Req_dec_T d 0) as [Hd|Hd].
        -- rewrite Hd. unfold Rdiv. rewrite Rmult_0_l, Rinv_0. lra.
        -- field. exact Hd.
Qed.

Lemma hh_tau_norm :
  hh_tau m c A
  * (hh_tau m c A * sum_n m (fun l => hh_v m c A l * hh_v m c A l) - 2) = 0.
Proof.
  unfold hh_tau. destruct (Req_dec_T (hh_xnorm m c A) 0) as [Hx|Hx]; [lra|].
  rewrite hh_v_norm.
  pose proof (hh_beta_nonzero Hx) as Hb.
  pose proof (hh_alpha_beta Hx) as Hab.
  pose proof hh_beta_sq as Hsq.
  replace (hh_below m c A) with (hh_beta m c A * hh_beta m c A
                  - hh_alpha c A * hh_alpha c A) by lra.
  apply Rmult_eq_0_compat_l. field. split; assumption.
Qed.

Lemma reflector_orthonormal : orthonormal_columns m (reflector m c A).
Proof.
  intros i j Hi Hj. unfold reflector.
  set (tau := hh_tau m c A). set (v := hh_v m c A).
  rewrite (sum_n_ext m _
             (fun l => delta i l * delta l j
                       - (tau * v j) * (delta i l * v l)
                       - (tau * v i) * (v l * delta l j)
                       + (tau * tau * v i * v j) * (v l * v l))).
  2:{ intros l _. unfold eye. fold (delta l i) (delta l j).
      rewrite (delta_sym l i). ring. }
  rewrite sum_n_plus, !sum_n_minus, !sum_n_scal_l.
  rewrite_beta (sum_n_delta_l m i (fun l => delta l j) Hi).
  rewrite_beta (sum_n_delta_l m i v Hi).
  rewrite_beta (sum_n_delta_r m j v Hj).
  pose proof hh_tau_norm as Ht. fold tau v in Ht.
  set (S := sum_n m (fun l => v l * v l)) in *.
  replace (delta i j - tau * v j * v i - tau * v i * v j
           + tau * tau * v i * v j * S)
    with (delta i j + v i * v j * (tau * (tau * S - 2))) by ring.
  rewrite Ht. ring.
Qed.
End ReflectorOrthogonal.

Lemma hh_loop_orthonormal (m : nat) (cols : list nat) :
  Forall (fun c => (c < m)%nat) cols ->
  forall A Q, orthonormal_columns m Q ->
    orthonormal_columns m (hh_loop m cols A Q).
Proof.
  induction 1 as [|c cols Hc _ IH]; intros A Q HQ; simpl; [exact HQ|].
  apply IH. apply orthonormal_mmul; [exact HQ|].
  apply reflector_orthonormal. exact Hc.
Qed.

(** the factor [Q] of a matrix of [m] rows has orthonormal columns, whatever
    the matrix *)
Lemma qr_Q_orthonormal (m n : nat) (A : Mat) :
  orthonormal_columns m (qr_Q m n A).
Proof.
  unfold qr_Q. apply hh_loop_orthonormal; [|apply orthonormal_eye].
  apply Forall_forall. intros c Hc. apply in_seq in Hc. lia.
Qed.

Local Close Scope R_scope.

(** ** The swept orthonormaliser, step by step *)

Lemma square_basis_rows (k : nat) (basis : list (list R)) :
  square_basis k basis = true ->
  length basis = k /\ forall v, In v basis -> length v = k.
Proof.
  unfold square_basis. intros H. apply andb_prop in H. destruct H as [H1 H2].
  apply Nat.eqb_eq in H1. split; [exact H1|]. intros v Hv.
  rewrite forallb_forall in H2. apply Nat.eqb_eq. apply H2. exact Hv.
Qed.

Lemma np_array2_square (k : nat) (basis : list (list R)) :
  0 < k -> square_basis k basis = true ->
  np_array2 basis =
  Ok (tabulate [k; k]
        (fun ix => nth (nth 1 ix 0) (nth (nth 0 ix 0) basis []) 0%R)).
Proof.
  intros Hk Hsq. destruct (square_basis_rows k basis Hsq) as [Hlen Hrows].
  unfold np_array2. destruct basis as [|row0 rows]; [simpl in Hlen; lia|].
  assert (H0 : length row0 = k) by (apply Hrows; left; reflexivity).
  replace (forallb (fun r => length r =? length row0) (row0 :: rows)) with true.
  - rewrite Hlen, H0. reflexivity.
  - symmetry. apply forallb_forall. intros v Hv. apply Nat.eqb_eq.
    rewrite H0. apply Hrows. exact Hv.
Qed.

Lemma initial_vector_set (k n : nat) (basis : list (list R)) :
  0 < k -> square_basis k basis = true ->
  exists arr col,
    np_array2 basis = Ok arr /\
    newaxis2 (nd_T arr) = Ok col /\
    np_repeat2 col n =
    Ok (tabulate [k; k; n]
          (fun ix => basis_columns basis (nth 0 ix 0) (nth 1 ix 0))).
Proof.
  intros Hk Hsq. eexists. eexists.
  split; [apply np_array2_square; eassumption|].
  split; [reflexivity|].
  unfold np_repeat2. simpl nd_shape. cbv iota.
  replace (1 * n) with n by lia. f_equal.
  apply tabulate_ext. intros ix Hb.
  destruct (in_bounds3 _ _ _ _ Hb) as (r & c & f & -> & Hr & Hc & Hf).
  cbv iota. rewrite Nat.div_small by exact Hf.
  rewrite at_tabulate by bounds.
  unfold nd_T. simpl nd_shape. rewrite at_tabulate by bounds.
  simpl rev. rewrite at_tabulate by bounds. reflexivity.
Qed.

(** the first loop over the transforms: ones on the diagonal, but for the
    rotated elements *)
Lemma diagonal_loop (k n : nat) (re : list nat) :
  for_each (range k)
    (fun i transforms =>
       if negb (existsb (Nat.eqb i) re)
       then setitem transforms [I i; I i] (np_ones n)
       else Ok transforms)
    (np_zeros [k; k; n]) =
  Ok (tabulate [k; k; n]
        (fun ix => if (nth 0 ix 0 =? nth 1 ix 0)
                      && negb (existsb (Nat.eqb (nth 0 ix 0)) re)
                   then 1%R else 0%R)).
Proof.
  set (sh := [k; k; n]).
  set (P := fun (i : nat) (t : ndarray) =>
              t = tabulate sh
                    (fun ix => if (nth 0 ix 0 =? nth 1 ix 0)
                                  && negb (existsb (Nat.eqb (nth 0 ix 0)) re)
                                  && (nth 0 ix 0 <? i)
                               then 1%R else 0%R)).
  match goal with
  | |- for_each _ ?body _ = _ =>
      destruct (for_range_inv P body k (np_zeros sh)) as [t [E HP]]
  end.
  - unfold P, np_zeros, np_full. apply tabulate_ext. intros ix _.
    rewrite ltb_0, andb_false_r. reflexivity.
  - intros i t Hi HP. unfold P in HP. subst t.
    destruct (negb (existsb (Nat.eqb i) re)) eqn:Emem.
    + rewrite setitem_ok.
      2:{ simpl. ltb_true. reflexivity. }
      eexists. split; [reflexivity|]. unfold P. simpl nd_shape.
      apply tabulate_ext. intros ix Hb.
      destruct (in_bounds3 _ _ _ _ Hb) as (a & b & f & -> & Ha & Hb' & Hf).
      rewrite at_tabulate by exact Hb. simpl nth. simpl locate.
      destruct (a =? i) eqn:Eai.
      * apply Nat.eqb_eq in Eai. subst a.
        destruct (b =? i) eqn:Ebi.
        -- apply Nat.eqb_eq in Ebi. subst b. cbv beta iota.
           unfold np_ones, np_full. rewrite at_tabulate by bounds.
           rewrite Nat.eqb_refl, Emem.
           replace (i <? S i) with true by (symmetry; apply Nat.ltb_lt; lia).
           reflexivity.
        -- rewrite (Nat.eqb_sym i b), Ebi. reflexivity.
      * apply Nat.eqb_neq in Eai.
        destruct (a <? i) eqn:E3.
        -- apply Nat.ltb_lt in E3.
           replace (a <? S i) with true by (symmetry; apply Nat.ltb_lt; lia).
           reflexivity.
        -- apply Nat.ltb_ge in E3.
           replace (a <? S i) with false by (symmetry; apply Nat.ltb_ge; lia).
           reflexivity.
    + exists (tabulate sh
                (fun ix => if (nth 0 ix 0 =? nth 1 ix 0)
                              && negb (existsb (Nat.eqb (nth 0 ix 0)) re)
                              && (nth 0 ix 0 <? i)
                           then 1%R else 0%R)).
      split; [reflexivity|]. unfold P.
      apply tabulate_ext. intros ix Hb.
      destruct (in_bounds3 _ _ _ _ Hb) as (a & b & f & -> & Ha & Hb' & Hf).
      simpl nth. destruct (a =? i) eqn:Eai.
      * apply Nat.eqb_eq in Eai. subst a. rewrite Emem.
        rewrite !andb_false_r. reflexivity.
      * apply Nat.eqb_neq in Eai.
        destruct (a <? i) eqn:E3.
        -- apply Nat.ltb_lt in E3.
           replace (a <? S i) with true by (symmetry; apply Nat.ltb_lt; lia).
           reflexivity.
        -- apply Nat.ltb_ge in E3.
           replace (a <? S i) with false by (symmetry; apply Nat.ltb_ge; lia).
           reflexivity.
  - rewrite E. f_equal. unfold P in HP. rewrite HP.
    apply tabulate_ext. intros ix Hb.
    destruct (in_bounds3 _ _ _ _ Hb) as (a & b & f & -> & Ha & Hb' & Hf).
    simpl nth.
    replace (a <? k) with true by (symmetry; apply Nat.ltb_lt; lia).
    rewrite andb_true_r. reflexivity.
Qed.

(** the four assignments of the rotation block *)
Lemma rotation_block (k : nat) (rb : rotate_basis_spec) (e0 e1 : nat)
    (rest : list nat) :
  rotate_elements rb = e0 :: e1 :: rest -> e0 < k -> e1 < k ->
  let n := rb_segments rb + 1 in
  let angles := np_linspace (rb_min rb) (rb_max rb) (rb_segments rb + 1) in
  let t0 :=
    tabulate [k; k; n]
      (fun ix => if (nth 0 ix 0 =? nth 1 ix 0)
                    && negb (existsb (Nat.eqb (nth 0 ix 0)) (rotate_elements rb))
                 then 1%R else 0%R) in
  (transforms <- setitem t0 [I e0; I e0] (np_cos angles) ;;
   transforms <- setitem transforms [I e0; I e1] (np_neg (np_sin angles)) ;;
   transforms <- setitem transforms [I e1; I e0] (np_sin angles) ;;
   setitem transforms [I e1; I e1] (np_cos angles)) =
  Ok (tabulate [k; k; n]
        (fun ix => code_transform rb (nth 0 ix 0) (nth 1 ix 0) (nth 2 ix 0))).
Proof.
  intros Hre He0 He1 n angles t0.
  rewrite setitem_ok by (simpl; ltb_true; reflexivity). cbn [bind].
  rewrite setitem_ok by (simpl; ltb_true; reflexivity). cbn [bind].
  rewrite setitem_ok by (simpl; ltb_true; reflexivity). cbn [bind].
  rewrite setitem_ok by (simpl; ltb_true; reflexivity).
  f_equal. simpl nd_shape. apply tabulate_ext. intros ix Hb.
  destruct (in_bounds3 _ _ _ _ Hb) as (a & b & f & -> & Ha & Hb' & Hf).
  unfold code_transform. rewrite Hre. cbn [nth].
  unfold theta. fold angles.
  destruct (a =? e1) eqn:Ea1; destruct (b =? e1) eqn:Eb1;
    destruct (a =? e0) eqn:Ea0; destruct (b =? e0) eqn:Eb0;
    cbn [andb];
    repeat (first [ rewrite at_tabulate by exact Hb
                  | progress cbn [locate option_map]
                  | progress cbv beta iota
                  | rewrite Ea1 | rewrite Eb1 | rewrite Ea0 | rewrite Eb0 ]);
    unfold np_neg, np_cos, np_sin, nd_map, t0; cbn [nd_shape tabulate];
    rewrite ?at_tabulate by bounds; cbn [nth]; rewrite ?Hre; reflexivity.
Qed.

Lemma np_linalg_qr_square (k : nat) (a : ndarray) :
  nd_shape a = [k; k] ->
  np_linalg_qr a = Ok (mat_tab k (qr_Q k k (mat_of a))).
Proof.
  intros H. unfold np_linalg_qr. rewrite H, Nat.min_id. reflexivity.
Qed.

(** the loop that rotates the designated vector of every frame *)
Lemma rotation_loop (basis : list (list R)) (rb : rotate_basis_spec) :
  rotate_vector rb < length basis ->
  let k := length basis in
  let n := rb_segments rb + 1 in
  let transforms :=
    tabulate [k; k; n]
      (fun ix => code_transform rb (nth 0 ix 0) (nth 1 ix 0) (nth 2 ix 0)) in
  for_each (range n)
    (fun i vector_set =>
       t <- getitem transforms [Sl; Sl; I i] ;;
       v <- getitem vector_set [Sl; I (rotate_vector rb); I i] ;;
       r <- matmul t v ;;
       setitem vector_set [Sl; I (rotate_vector rb); I i] r)
    (tabulate [k; k; n]
       (fun ix => basis_columns basis (nth 0 ix 0) (nth 1 ix 0))) =
  Ok (code_vectors basis rb).
Proof.
  intros Hrv k n transforms.
  set (sh := [k; k; n]).
  set (P := fun (i : nat) (vs : ndarray) =>
              vs = tabulate sh
                     (fun ix =>
                        if (nth 1 ix 0 =? rotate_vector rb) && (nth 2 ix 0 <? i)
                        then code_vector basis rb
                               (nth 0 ix 0) (nth 1 ix 0) (nth 2 ix 0)
                        else basis_columns basis (nth 0 ix 0) (nth 1 ix 0))).
  match goal with
  | |- for_each _ ?body ?init = _ =>
      destruct (for_range_inv P body n init) as [vs [E HP]]
  end.
  - unfold P. apply tabulate_ext. intros ix _.
    rewrite ltb_0, andb_false_r. reflexivity.
  - intros i vs Hi HP. unfold P in HP. subst vs.
    rewrite (getitem_frame transforms k k n i eq_refl Hi). cbn [bind].
    rewrite (getitem_ok _ _ [k]).
    2:{ simpl. ltb_true. reflexivity. }
    cbn [bind]. rewrite (matmul_vec _ _ k k) by reflexivity. cbn [bind].
    rewrite setitem_ok.
    2:{ simpl. ltb_true. reflexivity. }
    eexists. split; [reflexivity|]. unfold P. cbn [nd_shape tabulate].
    apply tabulate_ext. intros ix Hb.
    destruct (in_bounds3 _ _ _ _ Hb) as (r & c & f & -> & Hr & Hc & Hf).
    cbn [nth locate].
    destruct (c =? rotate_vector rb) eqn:Ec.
    + apply Nat.eqb_eq in Ec. subst c. cbn [andb].
      destruct (f =? i) eqn:Ef.
      * apply Nat.eqb_eq in Ef. subst f. cbn [option_map]. cbv beta iota.
        replace (i <? S i) with true by (symmetry; apply Nat.ltb_lt; lia).
        rewrite at_tabulate by bounds. cbn [hd].
        unfold code_vector. rewrite Nat.eqb_refl. fold k.
        apply sum_n_ext. intros l Hl.
        rewrite !at_tabulate by bounds. cbn [nth fill].
        unfold frame_of, transforms. rewrite !at_tabulate by bounds.
        cbn [nth]. rewrite Nat.eqb_refl, Nat.ltb_irrefl. reflexivity.
      * apply Nat.eqb_neq in Ef. cbn [option_map]. cbv beta iota.
        rewrite at_tabulate by exact Hb. cbn [nth]. rewrite Nat.eqb_refl.
        cbn [andb].
        destruct (f <? i) eqn:E3.
        -- apply Nat.ltb_lt in E3.
           replace (f <? S i) with true by (symmetry; apply Nat.ltb_lt; lia).
           reflexivity.
        -- apply Nat.ltb_ge in E3.
           replace (f <? S i) with false by (symmetry; apply Nat.ltb_ge; lia).
           reflexivity.
    + cbn [option_map andb]. cbv beta iota.
      rewrite at_tabulate by exact Hb. cbn [nth]. rewrite Ec. reflexivity.
  - rewrite E. f_equal. unfold P in HP. rewrite HP. unfold code_vectors.
    fold k n sh. apply tabulate_ext. intros ix Hb.
    destruct (in_bounds3 _ _ _ _ Hb) as (r & c & f & -> & Hr & Hc & Hf).
    cbn [nth].
    replace (f <? n) with true by (symmetry; apply Nat.ltb_lt; lia).
    rewrite andb_true_r. unfold code_vector.
    destruct (c =? rotate_vector rb); reflexivity.
Qed.

(** the loop that orthonormalises every frame *)
Lemma orthonormalise_loop (k n : nat) (vector_set : ndarray) :
  nd_shape vector_set = [k; k; n] ->
  for_each (range n)
    (fun i orthonormals =>
       frame <- getitem vector_set [Sl; Sl; I i] ;;
       q <- np_linalg_qr frame ;;
       setitem orthonormals [Sl; Sl; I i] q)
    (np_zeros [k; k; n]) =
  Ok (tabulate [k; k; n]
        (fun ix =>
           qr_Q k k (mat_of (frame_array k vector_set (nth 2 ix 0)))
             (nth 0 ix 0) (nth 1 ix 0))).
Proof.
  intros Hs. set (sh := [k; k; n]).
  set (P := fun (i : nat) (o : ndarray) =>
              o = tabulate sh
                    (fun ix =>
                       if nth 2 ix 0 <? i
                       then qr_Q k k
                              (mat_of (frame_array k vector_set (nth 2 ix 0)))
                              (nth 0 ix 0) (nth 1 ix 0)
                       else 0%R)).
  match goal with
  | |- for_each _ ?body ?init = _ =>
      destruct (for_range_inv P body n init) as [o [E HP]]
  end.
  - unfold P, np_zeros, np_full. apply tabulate_ext. intros ix _.
    rewrite ltb_0. reflexivity.
  - intros i o Hi HP. unfold P in HP. subst o.
    rewrite (getitem_frame vector_set k k n i Hs Hi). cbn [bind].
    fold (frame_array k vector_set i).
    rewrite (np_linalg_qr_square k) by reflexivity. cbn [bind].
    rewrite setitem_ok.
    2:{ simpl. ltb_true. reflexivity. }
    eexists. split; [reflexivity|]. unfold P. cbn [nd_shape tabulate].
    apply tabulate_ext. intros ix Hb.
    destruct (in_bounds3 _ _ _ _ Hb) as (r & c & f & -> & Hr & Hc & Hf).
    cbn [nth locate].
    destruct (f =? i) eqn:Ef.
    + apply Nat.eqb_eq in Ef. subst f. cbn [option_map]. cbv beta iota.
      replace (i <? S i) with true by (symmetry; apply Nat.ltb_lt; lia).
      rewrite mat_tab_at by assumption. reflexivity.
    + apply Nat.eqb_neq in Ef. cbn [option_map]. cbv beta iota.
      rewrite at_tabulate by exact Hb. cbn [nth].
      destruct (f <? i) eqn:E3.
      * apply Nat.ltb_lt in E3.
        replace (f <? S i) with true by (symmetry; apply Nat.ltb_lt; lia).
        reflexivity.
      * apply Nat.ltb_ge in E3.
        replace (f <? S i) with false by (symmetry; apply Nat.ltb_ge; lia).
        reflexivity.
  - rewrite E. f_equal. unfold P in HP. rewrite HP.
    apply tabulate_ext. intros ix Hb.
    destruct (in_bounds3 _ _ _ _ Hb) as (r & c & f & -> & Hr & Hc & Hf).
    cbn [nth].
    replace (f <? n) with true by (symmetry; apply Nat.ltb_lt; lia).
    reflexivity.
Qed.

(** the swept orthonormaliser on a square basis, with the vector and the
    elements to rotate in range *)
Lemma generate_orthonormal_bases_ok (basis : list (list R))
    (rb : rotate_basis_spec) (return_vector_set : bool) (e0 e1 : nat)
    (rest : list nat) :
  square_basis (length basis) basis = true ->
  rotate_vector rb < length basis ->
  rotate_elements rb = e0 :: e1 :: rest ->
  e0 < length basis -> e1 < length basis ->
  generate_orthonormal_bases basis rb return_vector_set =
  Ok (if negb return_vector_set
      then Orthonormals (code_orthonormals basis rb)
      else OrthonormalsAndVectors (code_orthonormals basis rb)
             (code_vectors basis rb)).
Proof.
  intros Hsq Hrv Hre He0 He1.
  assert (Hk : 0 < length basis) by lia.
  unfold generate_orthonormal_bases.
  destruct (initial_vector_set (length basis) (rb_segments rb + 1) basis Hk Hsq)
    as (arr & col & E1 & E2 & E3).
  rewrite E1. cbn [bind]. rewrite E2. cbn [bind]. rewrite E3. cbn [bind].
  cbn [nd_shape tabulate py_index nth_error]. cbn [bind].
  rewrite diagonal_loop. cbn [bind].
  rewrite Hre. cbn [py_index nth_error bind]. rewrite <- Hre.
  pose proof (rotation_block (length basis) rb e0 e1 rest Hre He0 He1) as Hblock.
  cbv zeta in Hblock.
  match type of Hblock with
  | bind ?m ?k = _ => destruct m as [t1|] eqn:Et1; [|discriminate]
  end.
  cbn [bind] in Hblock |- *.
  match type of Hblock with
  | bind ?m ?k = _ => destruct m as [t2|] eqn:Et2; [|discriminate]
  end.
  cbn [bind] in Hblock |- *.
  match type of Hblock with
  | bind ?m ?k = _ => destruct m as [t3|] eqn:Et3; [|discriminate]
  end.
  cbn [bind] in Hblock |- *.
  rewrite Hblock. cbn [bind].
  cbn [nd_shape tabulate py_index nth_error]. cbn [bind].
  rewrite (rotation_loop basis rb Hrv). cbn [bind].
  change (nd_shape (code_vectors basis rb))
    with [length basis; length basis; rb_segments rb + 1].
  cbn [py_index nth_error bind].
  rewrite (orthonormalise_loop (length basis) (rb_segments rb + 1)
             (code_vectors basis rb) eq_refl).
  cbn [bind]. reflexivity.
Qed.

(** ** What a transform compiles to *)

Lemma cell_at_valid (r c : nat) (t : transform_spec) (j k : nat) :
  well_formed_transform r c t = true -> j < r -> k < c ->
  valid_cell (cell_at t j k) = true.
Proof.
  intros Hwf Hj Hk. destruct (well_formed_rows r c t Hwf) as [Hlen Hrows].
  unfold cell_at.
  destruct (nth_error (t_transform t) j) as [row|] eqn:Ej.
  2:{ apply nth_error_None in Ej. lia. }
  destruct (Hrows j row Ej) as [Hc Hv].
  rewrite (nth_error_nth _ _ _ Ej).
  destruct (nth_error row k) as [e|] eqn:Ek.
  2:{ apply nth_error_None in Ek. lia. }
  rewrite (nth_error_nth _ _ _ Ek). eapply Hv; eauto.
Qed.

(** C2: for a transform of a rotation set of [s] segments, the angle
    sequence [np.linspace(min, max, s + 1)] has [F = s + 1] samples, evenly
    spaced from [min] (frame 0) to [max] (frame [F - 1]), and depends on the
    set only through [s]; the rotator holds one length-[F] sequence per
    cell: a number gives that constant at every frame, and "cos", "-cos",
    "sin", "-sin" give the function's value at the angle of each frame. *)
Theorem transform_compiles_over_angle_sequence (s r c : nat)
    (t : transform_spec) :
  0 < r -> well_formed_transform r c t = true ->
  nd_shape (np_linspace (t_min t) (t_max t) (s + 1)) = [s + 1] /\
  theta (t_min t) (t_max t) s 0 = t_min t /\
  (1 <= s ->
   theta (t_min t) (t_max t) s s = t_max t /\
   forall f, f <= s ->
     theta (t_min t) (t_max t) s f =
     (t_min t + INR f * ((t_max t - t_min t) / INR s))%R) /\
  exists rotator,
    build_rotator s t = Ok rotator /\
    nd_shape rotator = [r; c; s + 1] /\
    forall j k f, j < r -> k < c -> f < s + 1 ->
      match cell_at t j k with
      | Num x => at_ rotator [j; k; f] = x
      | Str token =>
          (token = "cos" /\
           at_ rotator [j; k; f] = cos (theta (t_min t) (t_max t) s f)) \/
          (token = "-cos" /\
           at_ rotator [j; k; f] = (- cos (theta (t_min t) (t_max t) s f))%R) \/
          (token = "sin" /\
           at_ rotator [j; k; f] = sin (theta (t_min t) (t_max t) s f)) \/
          (token = "-sin" /\
           at_ rotator [j; k; f] = (- sin (theta (t_min t) (t_max t) s f))%R)
      end.
Proof.
  intros Hr Hwf. split; [reflexivity|].
  split; [apply theta_first|].
  split.
  { intros Hs. split; [apply theta_last; exact Hs|].
    intros f Hf. apply theta_even; assumption. }
  exists (tabulate [r; c; s + 1] (rotator_entries s t)).
  split; [apply build_rotator_ok; assumption|]. split; [reflexivity|].
  intros j k f Hj Hk Hf. rewrite at_tabulate by bounds.
  unfold rotator_entries, rotator_frame. simpl nth.
  pose proof (cell_at_valid r c t j k Hwf Hj Hk) as Hv.
  destruct (cell_at t j k) as [x|token]; [reflexivity|].
  simpl in Hv. simpl cell_value.
  destruct (String.eqb token "cos") eqn:E1.
  { apply String.eqb_eq in E1. left. auto. }
  destruct (String.eqb token "-cos") eqn:E2.
  { apply String.eqb_eq in E2. right. left. auto. }
  destruct (String.eqb token "sin") eqn:E3.
  { apply String.eqb_eq in E3. right. right. left. auto. }
  destruct (String.eqb token "-sin") eqn:E4; [|discriminate].
  apply String.eqb_eq in E4. right. right. right. auto.
Qed.

(** C2 at the 2 x 2 transform [[cos, -sin], [sin, 1]] swept over [0, 1] in
    two segments. *)
Lemma transform_compiles_over_angle_sequence_witness :
  nd_shape (np_linspace 0%R 1%R (2 + 1)) = [2 + 1] /\
  theta 0%R 1%R 2 0 = 0%R /\
  (1 <= 2 ->
   theta 0%R 1%R 2 2 = 1%R /\
   forall f, f <= 2 ->
     theta 0%R 1%R 2 f = (0 + INR f * ((1 - 0) / INR 2))%R) /\
  exists rotator,
    build_rotator 2 planar_xy = Ok rotator /\
    nd_shape rotator = [2; 2; 2 + 1] /\
    forall j k f, j < 2 -> k < 2 -> f < 2 + 1 ->
      match cell_at planar_xy j k with
      | Num x => at_ rotator [j; k; f] = x
      | Str token =>
          (token = "cos" /\
           at_ rotator [j; k; f] = cos (theta 0%R 1%R 2 f)) \/
          (token = "-cos" /\
           at_ rotator [j; k; f] = (- cos (theta 0%R 1%R 2 f))%R) \/
          (token = "sin" /\
           at_ rotator [j; k; f] = sin (theta 0%R 1%R 2 f)) \/
          (token = "-sin" /\
           at_ rotator [j; k; f] = (- sin (theta 0%R 1%R 2 f))%R)
      end.
Proof.
  apply (transform_compiles_over_angle_sequence 2 2 2 planar_xy).
  - lia.
  - reflexivity.
Defined.

(** ** The frames of a cloud over a two-dimensional grid *)

Lemma Forall2_map_same {A B : Type} (P : B -> B -> Prop) (f g : A -> B)
    (l : list A) :
  (forall x, In x l -> P (f x) (g x)) -> Forall2 P (map f l) (map g l).
Proof.
  induction l as [|x l IH]; intros H; simpl; constructor.
  - apply H. left. reflexivity.
  - apply IH. intros y Hy. apply H. right. exact Hy.
Qed.

Lemma wf_all_rotators (s D : nat) (ts : list transform_spec) :
  0 < D -> forallb (well_formed_transform D D) ts = true ->
  mapM (build_rotator s) ts =
  Ok (map (fun t => tabulate [D; D; s + 1] (rotator_entries s t)) ts).
Proof.
  intros HD Hwf. apply mapM_ok. intros t Ht.
  rewrite forallb_forall in Hwf. apply build_rotator_ok; auto.
Qed.

(** C1 (as amended): for a cloud over a two-dimensional grid and a rotation
    set of well-formed [D] x [D] transforms, applied without a projection
    basis, [animate_rotation] stores frames of shape [(F, D, n, m)] with
    [F = segments + 1], and the entry at frame [f] and grid position
    [(j, k)] is the product of the rotators' frames [f], taken in list
    order with the first transform leftmost, applied to the point vector at
    [(j, k)]. *)
Theorem animate_rotation_ordered_product (junk : list nat -> R)
    (self : FunctionRunner) (cp : point_data) (rot : rotation_spec)
    (D n m : nat) :
  computed_points self = Some cp ->
  nd_shape (pd_points cp) = [D; n; m] ->
  0 < D ->
  transforms rot <> [] ->
  forallb (well_formed_transform D D) (transforms rot) = true ->
  exists self' fd,
    animate_rotation junk self rot None = Ok self' /\
    animation_frames self' = Some fd /\
    nd_shape (fd_frames fd) = [segments rot + 1; D; n; m] /\
    forall f d j k, f < segments rot + 1 -> d < D -> j < n -> k < m ->
      at_ (fd_frames fd) [f; d; j; k] =
      mat_vec D
        (ordered_product D
           (map (fun t => rotator_frame (segments rot) t f) (transforms rot)))
        (point_vector (pd_points cp) j k) d.
Proof.
  intros Hcp Hp HD Hne Hwf.
  pose proof (wf_all_rotators (segments rot) D (transforms rot) HD Hwf) as Hmap.
  destruct (animate_rotation_rotators junk self cp rot _ D n m Hcp Hp Hmap)
    as [frames [E [Hs He]]].
  - destruct (transforms rot); [congruence | discriminate].
  - apply Forall_forall. intros r Hr. apply in_map_iff in Hr.
    destruct Hr as [t [<- _]]. reflexivity.
  - eexists. eexists. split; [exact E|]. split; [reflexivity|].
    split; [exact Hs|]. intros f d j k Hf Hd Hj Hk. simpl fd_frames.
    rewrite He by assumption. apply mat_vec_ext; [|exact Hd].
    apply ordered_product_ext. rewrite map_map.
    apply Forall2_map_same. intros t _ a b Ha Hb.
    unfold frame_of. rewrite at_tabulate by bounds. reflexivity.
Qed.

(** C1 (as amended) at a cloud of shape [(4, 2, 2)] and two 4 x 4
    transforms over one segment. *)
Lemma animate_rotation_ordered_product_witness :
  exists self' fd,
    animate_rotation no_junk
      {| fn := Callable simple_complex_square; output_file := "out.json";
         computed_points :=
           Some {| pd_ranges := []; pd_points := np_full [4; 2; 2] 1%R |};
         animation_frames := None |}
      {| segments := 1; transforms := [identity4; identity4] |} None
    = Ok self' /\
    animation_frames self' = Some fd /\
    nd_shape (fd_frames fd) = [2; 4; 2; 2] /\
    forall f d j k, f < 2 -> d < 4 -> j < 2 -> k < 2 ->
      at_ (fd_frames fd) [f; d; j; k] =
      mat_vec 4
        (ordered_product 4
           (map (fun t => rotator_frame 1 t f) [identity4; identity4]))
        (point_vector (np_full [4; 2; 2] 1%R) j k) d.
Proof.
  apply (animate_rotation_ordered_product no_junk _
           {| pd_ranges := []; pd_points := np_full [4; 2; 2] 1%R |}
           {| segments := 1; transforms := [identity4; identity4] |} 4 2 2).
  - reflexivity.
  - reflexivity.
  - lia.
  - discriminate.
  - reflexivity.
Defined.

(** C1 fails as stated: over a three-dimensional grid the two loops over the
    grid positions run over the lengths of the last two axes but index the
    first two.  The cloud of three ranges of 2, 1 and 1 segments has the
    shape [(4, 2, 3, 2)], and [animate_rotation] raises [IndexError]. *)
Lemma animate_rotation_3d_grid_raises :
  exists self1 cp,
    compute_points (init (fun _ => false) (Callable first_of_three) None)
      [unit_range 2; unit_range 1; unit_range 1] = Ok self1 /\
    computed_points self1 = Some cp /\
    nd_shape (pd_points cp) = [4; 2; 3; 2] /\
    animate_rotation no_junk self1
      {| segments := 1; transforms := [identity4] |} None
    = Raise IndexError.
Proof.
  eexists. eexists. split; [reflexivity|]. split; [reflexivity|].
  split; [reflexivity|]. vm_compute. reflexivity.
Qed.

(** ** Identity transforms *)

Lemma identity_rotators (D s : nat) (ts : list transform_spec) :
  Forall (compiles_to_identity D s) ts ->
  exists rotators,
    mapM (build_rotator s) ts = Ok rotators /\
    length rotators = length ts /\
    Forall (fun r => nd_shape r = [D; D; s + 1]) rotators /\
    forall f, f < s + 1 ->
      Forall (fun m => mat_eq_on D m eye) (map (fun r => frame_of r f) rotators).
Proof.
  induction 1 as [|t ts [rot [E [Hs He]]] _ [rs [E' [Hl [Hss Hee]]]]]; simpl.
  - exists []. split; [reflexivity|]. split; [reflexivity|].
    split; [constructor|]. intros f _. constructor.
  - rewrite E, E'. simpl. exists (rot :: rs). split; [reflexivity|].
    split; [simpl; rewrite Hl; reflexivity|].
    split; [constructor; assumption|].
    intros f Hf. simpl. constructor; [|apply Hee; exact Hf].
    intros a b Ha Hb. unfold frame_of. rewrite He by assumption. reflexivity.
Qed.

(** C5 (as amended): for a cloud over a two-dimensional grid, if every
    transform of a non-empty rotation set compiles to the identity matrix at
    all frames and no projection basis is given, every frame stored by
    [animate_rotation] equals the cloud. *)
Theorem animate_rotation_identity (junk : list nat -> R)
    (self : FunctionRunner) (cp : point_data) (rot : rotation_spec)
    (D n m : nat) :
  computed_points self = Some cp ->
  nd_shape (pd_points cp) = [D; n; m] ->
  transforms rot <> [] ->
  Forall (compiles_to_identity D (segments rot)) (transforms rot) ->
  exists self' fd,
    animate_rotation junk self rot None = Ok self' /\
    animation_frames self' = Some fd /\
    nd_shape (fd_frames fd) = segments rot + 1 :: nd_shape (pd_points cp) /\
    forall f d j k, f < segments rot + 1 -> d < D -> j < n -> k < m ->
      at_ (fd_frames fd) [f; d; j; k] = at_ (pd_points cp) [d; j; k].
Proof.
  intros Hcp Hp Hne Hid.
  destruct (identity_rotators D (segments rot) (transforms rot) Hid)
    as [rotators [Hmap [Hlen [Hshapes Heye]]]].
  destruct (animate_rotation_rotators junk self cp rot rotators D n m
              Hcp Hp Hmap) as [frames [E [Hs He]]].
  - intros ->. destruct (transforms rot); [congruence | discriminate].
  - exact Hshapes.
  - eexists. eexists. split; [exact E|]. split; [reflexivity|].
    split; [rewrite Hp; exact Hs|].
    intros f d j k Hf Hd Hj Hk. simpl fd_frames. rewrite He by assumption.
    rewrite (mat_vec_ext D _ eye).
    + rewrite mat_vec_eye by exact Hd. reflexivity.
    + apply ordered_product_eye. apply Heye. exact Hf.
    + exact Hd.
Qed.

Lemma identity2_compiles : compiles_to_identity 2 1 identity2.
Proof.
  exists (tabulate [2; 2; 2] (rotator_entries 1 identity2)).
  split; [apply build_rotator_ok; [lia | reflexivity]|].
  split; [reflexivity|].
  intros i j f Hi Hj Hf. rewrite at_tabulate by bounds.
  destruct i as [|[|i]]; [| |lia]; (destruct j as [|[|j]]; [| |lia]); reflexivity.
Qed.

(** C5 (as amended) at a cloud of shape [(2, 3, 3)] and the 2 x 2 identity
    over one segment. *)
Lemma animate_rotation_identity_witness :
  exists self' fd,
    animate_rotation no_junk
      {| fn := Callable simple_complex_square; output_file := "out.json";
         computed_points :=
           Some {| pd_ranges := []; pd_points := np_full [2; 3; 3] 1%R |};
         animation_frames := None |}
      {| segments := 1; transforms := [identity2] |} None
    = Ok self' /\
    animation_frames self' = Some fd /\
    nd_shape (fd_frames fd) = [2; 2; 3; 3] /\
    forall f d j k, f < 2 -> d < 2 -> j < 3 -> k < 3 ->
      at_ (fd_frames fd) [f; d; j; k] = at_ (np_full [2; 3; 3] 1%R) [d; j; k].
Proof.
  apply (animate_rotation_identity no_junk _
           {| pd_ranges := []; pd_points := np_full [2; 3; 3] 1%R |}
           {| segments := 1; transforms := [identity2] |} 2 3 3).
  - reflexivity.
  - reflexivity.
  - discriminate.
  - constructor; [exact identity2_compiles | constructor].
Defined.

(** C5 fails as stated: the cloud of three ranges of 1, 1 and 2 segments has
    the shape [(4, 2, 2, 3)]; with the identity as the only transform
    [animate_rotation] raises [IndexError] and stores no frame. *)
Lemma identity_rotation_3d_grid_raises :
  exists self1 cp,
    compute_points (init (fun _ => false) (Callable first_of_three) None)
      [unit_range 1; unit_range 1; unit_range 2] = Ok self1 /\
    computed_points self1 = Some cp /\
    nd_shape (pd_points cp) = [4; 2; 2; 3] /\
    compiles_to_identity 4 1 identity4 /\
    animate_rotation no_junk self1
      {| segments := 1; transforms := [identity4] |} None
    = Raise IndexError.
Proof.
  eexists. eexists. split; [reflexivity|]. split; [reflexivity|].
  split; [reflexivity|]. split.
  - exists (tabulate [4; 4; 2] (rotator_entries 1 identity4)).
    split; [apply build_rotator_ok; [lia | reflexivity]|].
    split; [reflexivity|].
    intros i j f Hi Hj Hf. rewrite at_tabulate by bounds.
    destruct i as [|[|[|[|i]]]]; try lia;
      (destruct j as [|[|[|[|j]]]]; try lia; reflexivity).
  - vm_compute. reflexivity.
Qed.

(** ** A projection basis of the wrong size *)

Lemma for_each_preserves {A S : Type} (P : S -> Prop)
    (body : A -> S -> result S) (xs : list A) :
  (forall x s s', body x s = Ok s' -> P s -> P s') ->
  forall s s', for_each xs body s = Ok s' -> P s -> P s'.
Proof.
  intros Hbody. induction xs as [|x xs IH]; intros s s' H HP; simpl in H.
  - inversion H; subst. exact HP.
  - apply bind_inv in H. destruct H as [s1 [E1 E2]].
    eapply IH; eauto.
Qed.

Lemma build_rotator_shape (s : nat) (t : transform_spec) (rot : ndarray) :
  build_rotator s t = Ok rot ->
  nd_shape rot =
  [length (t_transform t); length (hd [] (t_transform t)); s + 1].
Proof.
  unfold build_rotator, py_index.
  destruct (nth_error (t_transform t) 0) as [row0|] eqn:E0; [|discriminate].
  assert (Hhd : hd [] (t_transform t) = row0).
  { destruct (t_transform t); simpl in E0; [discriminate|].
    inversion E0. reflexivity. }
  rewrite Hhd. cbn [bind]. intros H.
  set (sh := [length (t_transform t); length row0; s + 1]) in *.
  eapply (for_each_preserves (fun a => nd_shape a = sh)) in H;
    [exact H | | reflexivity].
  intros [j row] a a' Hrow Ha.
  eapply (for_each_preserves (fun a => nd_shape a = sh));
    [| exact Hrow | exact Ha].
  intros [k e] b b' Hcell Hb. apply bind_inv in Hcell.
  destruct Hcell as [v [_ Hset]]. apply setitem_shape in Hset. congruence.
Qed.

Lemma mapM_head {A B : Type} (f : A -> result B) (x : A) (xs : list A)
    (ys : list B) :
  mapM f (x :: xs) = Ok ys -> exists y ys', ys = y :: ys' /\ f x = Ok y.
Proof.
  simpl. intros H. apply bind_inv in H. destruct H as [y [E H]].
  apply bind_inv in H. destruct H as [ys' [_ H]]. inversion H; subst. eauto.
Qed.

(** C8 (as amended): a projection basis whose number of vectors, or whose
    first vector's length, differs from the size [k] of the rotation
    matrices is ignored: [animate_rotation] does exactly what it does
    without a basis and raises nothing on account of the basis. *)
Theorem mismatched_basis_is_ignored (junk : list nat -> R)
    (self : FunctionRunner) (rot : rotation_spec) (bv : list (list R))
    (t : transform_spec) (ts : list transform_spec) (k : nat) :
  transforms rot = t :: ts ->
  length (t_transform t) = k ->
  length (hd [] (t_transform t)) = k ->
  length bv <> k \/ length (hd [] bv) <> k ->
  animate_rotation junk self rot (Some bv) = animate_rotation junk self rot None.
Proof.
  intros Ht Hr Hc Hmis. unfold animate_rotation.
  destruct (computed_points self) as [cp|]; [|reflexivity].
  destruct (0 <? rank (pd_points cp)); [|reflexivity].
  destruct (mapM (build_rotator (segments rot)) (transforms rot))
    as [rotators|e] eqn:Em; [|reflexivity].
  simpl bind. rewrite Ht in Em.
  destruct (mapM_head _ _ _ _ Em) as [r0 [rs [-> E0]]].
  simpl py_index. simpl bind.
  apply build_rotator_shape in E0. rewrite E0, Hr, Hc.
  unfold projection_basis. simpl nd_shape. simpl nth.
  replace ((length bv =? k) && (length (hd [] bv) =? k)) with false;
    [reflexivity|].
  symmetry. apply andb_false_iff.
  destruct Hmis as [H|H]; [left | right]; apply Nat.eqb_neq; exact H.
Qed.

(** C8 (as amended) at 2 x 2 rotation matrices and a basis of three
    vectors. *)
Lemma mismatched_basis_is_ignored_witness :
  animate_rotation no_junk runner_2d rotation_identity2 (Some basis3) =
  animate_rotation no_junk runner_2d rotation_identity2 None.
Proof.
  apply (mismatched_basis_is_ignored no_junk runner_2d rotation_identity2
           basis3 identity2 [] 2).
  - reflexivity.
  - reflexivity.
  - reflexivity.
  - left. simpl. lia.
Defined.

(** C8 fails as stated: with 2 x 2 rotation matrices and a basis of three
    vectors of three coordinates, [animate_rotation] raises nothing and
    stores the frames. *)
Lemma mismatched_basis_does_not_raise :
  exists self' fd,
    animate_rotation no_junk runner_2d rotation_identity2 (Some basis3)
    = Ok self' /\
    animation_frames self' = Some fd /\
    nd_shape (fd_frames fd) = [2; 2; 3; 3].
Proof.
  eexists. eexists. split; [vm_compute; reflexivity|].
  split; reflexivity.
Qed.

(** ** When the swept orthonormaliser returns *)

Lemma np_array2_inv (rows : list (list R)) (arr : ndarray) :
  np_array2 rows = Ok arr ->
  (rows = [] /\ nd_shape arr = [0]) \/
  (rows <> [] /\
   (forall v, In v rows -> length v = length (hd [] rows)) /\
   nd_shape arr = [length rows; length (hd [] rows)]).
Proof.
  unfold np_array2. destruct rows as [|row0 rest].
  - intros H. inversion H. left. auto.
  - destruct (forallb (fun r => length r =? length row0) (row0 :: rest)) eqn:E;
      [|discriminate].
    intros H. inversion H. right. split; [discriminate|]. split; [|reflexivity].
    intros v Hv. rewrite forallb_forall in E. apply Nat.eqb_eq. apply E. exact Hv.
Qed.

Lemma newaxis2_inv (a col : ndarray) :
  newaxis2 a = Ok col ->
  exists d0 d1 rest,
    nd_shape a = d0 :: d1 :: rest /\ nd_shape col = d0 :: d1 :: 1 :: rest.
Proof.
  unfold newaxis2. destruct (nd_shape a) as [|d0 [|d1 rest]]; try discriminate.
  intros H. inversion H. exists d0, d1, rest. auto.
Qed.

Lemma setitem_inv (a : ndarray) (idx : list index) (v a' : ndarray) :
  setitem a idx v = Ok a' ->
  exists tsh, sub_shape idx (nd_shape a) = Some tsh /\ nd_shape a' = nd_shape a.
Proof.
  intros H. pose proof (setitem_shape a idx v a' H) as Hs.
  unfold setitem in H. destruct (sub_shape idx (nd_shape a)) as [tsh|];
    [|discriminate]. exists tsh. auto.
Qed.

Lemma getitem_inv (a : ndarray) (idx : list index) (v : ndarray) :
  getitem a idx = Ok v ->
  exists tsh, sub_shape idx (nd_shape a) = Some tsh /\ nd_shape v = tsh.
Proof.
  unfold getitem. destruct (sub_shape idx (nd_shape a)) as [tsh|];
    [|discriminate]. intros H. inversion H. exists tsh. auto.
Qed.

Lemma sub_shape_two (x y : nat) (sh tsh : list nat) :
  sub_shape [I x; I y] sh = Some tsh ->
  exists d0 d1 rest, sh = d0 :: d1 :: rest /\ x < d0 /\ y < d1.
Proof.
  destruct sh as [|d0 [|d1 rest]]; simpl; try discriminate.
  - destruct (x <? d0); discriminate.
  - destruct (x <? d0) eqn:Ex; [|discriminate].
    destruct (y <? d1) eqn:Ey; [|discriminate].
    intros _. apply Nat.ltb_lt in Ex, Ey. exists d0, d1, rest. auto.
Qed.

Lemma matmul_vec_inv (a b r : ndarray) (m n n' : nat) :
  nd_shape a = [m; n] -> nd_shape b = [n'] -> matmul a b = Ok r -> n = n'.
Proof.
  intros Ha Hb. unfold matmul. rewrite Ha, Hb. simpl.
  destruct (n =? n') eqn:E; [|discriminate]. intros _.
  apply Nat.eqb_eq. exact E.
Qed.

Lemma generate_orthonormal_bases_returns (basis : list (list R))
    (rb : rotate_basis_spec) (return_vector_set : bool) (res : bases_result) :
  generate_orthonormal_bases basis rb return_vector_set = Ok res ->
  square_basis (length basis) basis = true /\
  rotate_vector rb < length basis /\
  exists e0 e1 rest,
    rotate_elements rb = e0 :: e1 :: rest /\
    e0 < length basis /\ e1 < length basis.
Proof.
  unfold generate_orthonormal_bases. intros H.
  apply bind_inv in H. destruct H as [arr [Harr H]].
  apply bind_inv in H. destruct H as [col [Hcol H]].
  apply bind_inv in H. destruct H as [vs [Hvs H]].
  apply bind_inv in H. destruct H as [n1 [Hn1 H]].
  apply bind_inv in H. destruct H as [t0 [Ht0 H]].
  apply bind_inv in H. destruct H as [e0 [He0 H]].
  apply bind_inv in H. destruct H as [t1 [Ht1 H]].
  apply bind_inv in H. destruct H as [e1 [He1 H]].
  apply bind_inv in H. destruct H as [t2 [Ht2 H]].
  apply bind_inv in H. destruct H as [t3 [Ht3 H]].
  apply bind_inv in H. destruct H as [t4 [Ht4 H]].
  apply bind_inv in H. destruct H as [n2 [Hn2 H]].
  apply bind_inv in H. destruct H as [vs' [Hvs' _]].
  (* the shapes *)
  apply newaxis2_inv in Hcol. destruct Hcol as (d0 & d1 & more & HT & Hcs).
  apply np_array2_inv in Harr.
  destruct Harr as [[-> Ha] | (Hne & Hrows & Ha)].
  { unfold nd_T in HT. simpl in HT. rewrite Ha in HT. discriminate. }
  unfold nd_T in HT. simpl in HT. rewrite Ha in HT. simpl in HT.
  inversion HT; subst d0 d1 more. clear HT.
  set (k := length (hd [] basis)) in *. set (b := length basis) in *.
  unfold np_repeat2 in Hvs. rewrite Hcs in Hvs. inversion Hvs as [Hv]. clear Hvs.
  assert (Hshape : nd_shape vs = [k; b; rb_segments rb + 1]).
  { rewrite <- Hv. simpl. f_equal. f_equal. f_equal. lia. }
  clear Hv.
  assert (Ht0s : nd_shape t0 = [k; b; rb_segments rb + 1]).
  { eapply (for_each_preserves
              (fun a => nd_shape a = [k; b; rb_segments rb + 1]));
      [| exact Ht0 | unfold np_zeros, np_full; simpl; exact Hshape].
    intros i a a' Hbody Hsa. cbv beta in Hbody.
    destruct (negb (existsb (Nat.eqb i) (rotate_elements rb))).
    - apply setitem_shape in Hbody. congruence.
    - inversion Hbody; subst. exact Hsa. }
  (* the rotated elements *)
  unfold py_index in He0, He1.
  destruct (rotate_elements rb) as [|x [|y rest]] eqn:Hre; try discriminate.
  simpl in He0, He1. inversion He0; subst x. inversion He1; subst y.
  clear He0 He1.
  apply setitem_inv in Ht1. destruct Ht1 as (tsh1 & Hsub1 & Ht1s).
  apply setitem_inv in Ht2. destruct Ht2 as (tsh2 & Hsub2 & Ht2s).
  apply setitem_inv in Ht3. destruct Ht3 as (tsh3 & Hsub3 & Ht3s).
  apply setitem_inv in Ht4. destruct Ht4 as (tsh4 & Hsub4 & Ht4s).
  rewrite Ht0s in Hsub1. apply sub_shape_two in Hsub1.
  destruct Hsub1 as (a0 & a1 & ar & Hsh & He0k & He0b).
  inversion Hsh; subst a0 a1 ar. clear Hsh.
  rewrite Ht3s, Ht2s, Ht1s, Ht0s in Hsub4. apply sub_shape_two in Hsub4.
  destruct Hsub4 as (a0 & a1 & ar & Hsh & He1k & He1b).
  inversion Hsh; subst a0 a1 ar. clear Hsh.
  (* the first iteration of the rotation loop *)
  assert (Ht4shape : nd_shape t4 = [k; b; rb_segments rb + 1]) by congruence.
  rewrite Ht4shape in Hn2. simpl in Hn2. inversion Hn2; subst n2. clear Hn2.
  unfold range in Hvs'. rewrite Nat.add_1_r in Hvs'. simpl seq in Hvs'.
  simpl for_each in Hvs'.
  apply bind_inv in Hvs'. destruct Hvs' as [vs1 [Hstep _]].
  apply bind_inv in Hstep. destruct Hstep as [tf [Htf Hstep]].
  apply bind_inv in Hstep. destruct Hstep as [v [Hvcol Hstep]].
  apply bind_inv in Hstep. destruct Hstep as [r [Hmul _]].
  apply getitem_inv in Htf. destruct Htf as (s1 & Hs1 & Htfs).
  rewrite Ht4shape in Hs1. simpl in Hs1.
  destruct (0 <? rb_segments rb + 1); [|discriminate].
  simpl in Hs1.
  assert (Htf' : nd_shape tf = [k; b]) by congruence.
  apply getitem_inv in Hvcol. destruct Hvcol as (s2 & Hs2 & Hvs2).
  rewrite Hshape in Hs2. simpl in Hs2.
  destruct (rotate_vector rb <? b) eqn:Erv; [|discriminate].
  destruct (0 <? rb_segments rb + 1); [|discriminate].
  simpl in Hs2.
  assert (Hv' : nd_shape v = [k]) by congruence.
  apply Nat.ltb_lt in Erv.
  pose proof (matmul_vec_inv tf v r k b k Htf' Hv' Hmul) as Hbk.
  (* the basis is square *)
  split.
  { unfold square_basis. fold b. rewrite Nat.eqb_refl. simpl.
    apply forallb_forall. intros w Hw. apply Nat.eqb_eq.
    rewrite (Hrows w Hw). fold k. lia. }
  split; [exact Erv|].
  exists e0, e1, rest. split; [reflexivity|]. split; lia.
Qed.

(** ** Results that were never computed *)

(** C9 (as amended): [write] raises an exception when the named result,
    "computed_points" or "animation_frames", is absent; [animate_rotation]
    on a holder without a computed cloud raises nothing: it returns with
    the holder unchanged. *)
Theorem absent_results (isdir : string -> bool) (junk : list nat -> R)
    (self : FunctionRunner) (rot : rotation_spec)
    (bv : option (list (list R))) (out : option string) :
  (computed_points self = None ->
   write isdir self "computed_points" out =
   Raise (Exception
            "The computed_points object is empty and cannot be written")) /\
  (animation_frames self = None ->
   write isdir self "animation_frames" out =
   Raise (Exception
            "The animation_frames object is empty and cannot be written")) /\
  (computed_points self = None ->
   animate_rotation junk self rot bv = Ok self).
Proof.
  split; [|split]; intros H.
  - unfold write. simpl. rewrite H. reflexivity.
  - unfold write. simpl. rewrite H. reflexivity.
  - unfold animate_rotation. rewrite H. reflexivity.
Qed.

(** C9 (as amended) at a holder that has just been constructed. *)
Lemma absent_results_witness :
  write (fun _ => false) fresh_runner "computed_points" None =
  Raise (Exception
           "The computed_points object is empty and cannot be written") /\
  write (fun _ => false) fresh_runner "animation_frames" None =
  Raise (Exception
           "The animation_frames object is empty and cannot be written") /\
  animate_rotation no_junk fresh_runner rotation_identity2 None =
  Ok fresh_runner.
Proof.
  destruct (absent_results (fun _ => false) no_junk fresh_runner
              rotation_identity2 None None) as [H1 [H2 H3]].
  split; [apply H1; reflexivity|].
  split; [apply H2; reflexivity | apply H3; reflexivity].
Defined.

(** C9 fails as stated: on a holder on which [compute_points] was never
    called, [animate_rotation] raises nothing. *)
Lemma animate_rotation_without_cloud_is_silent :
  animate_rotation no_junk fresh_runner rotation_identity2 None
  = Ok fresh_runner /\
  animation_frames fresh_runner = None.
Proof. split; reflexivity. Qed.

(** ** An unknown token *)

(** C6 (not met by the code): for the cell "tan" at row 0, column 0 the
    exception that leaves [animate_rotation] is the [NameError] of the
    undefined name [multiplier], raised while the message is built; it
    carries neither the row nor the column. *)
Theorem unknown_token_raises_name_error :
  valid_cell (Str "tan") = false /\
  animate_rotation no_junk runner_2d rotation_tan None
  = Raise (NameError "multiplier").
Proof. split; reflexivity. Qed.

(** ** A single range *)

(** C7 (not met by the code): for a list of exactly one range
    [build_coordinates] raises [UnboundLocalError]: the branch reads
    [number_range], which only the loop of the other branch binds. *)
Theorem single_range_raises (r : range_spec) :
  build_coordinates [r] = Raise (UnboundLocalError "number_range").
Proof. reflexivity. Qed.

(** ** No grid, or no result from the field function *)

Lemma meshgrid_length (arrays : list ndarray) :
  length (np_meshgrid arrays) = length arrays.
Proof.
  unfold np_meshgrid, enumerate.
  rewrite length_map, length_combine, length_seq. apply Nat.min_id.
Qed.

Lemma build_coordinates_many (ranges : list range_spec) :
  1 < length ranges ->
  exists coordinates,
    build_coordinates ranges = Ok (Some coordinates) /\
    length coordinates = length ranges.
Proof.
  intros H. unfold build_coordinates.
  replace (1 <? length ranges) with true by (symmetry; apply Nat.ltb_lt; lia).
  eexists. split; [reflexivity|].
  rewrite meshgrid_length, length_map. reflexivity.
Qed.

(** C10: when the coordinate builder yields no grid or the field function
    returns the no-result sentinel, [compute_points] returns normally and
    the holder, with its [computed_points], is exactly what it was; the
    empty range list, and [simple_complex_square] called with more than two
    coordinate arrays, are such cases. *)
Theorem compute_points_no_result_keeps_cloud :
  (forall self ranges,
     no_result self ranges -> compute_points self ranges = Ok self) /\
  (forall self, no_result self []) /\
  (forall self ranges,
     fn self = Callable simple_complex_square -> 2 < length ranges ->
     no_result self ranges).
Proof.
  split; [|split].
  - intros self ranges [H | [coordinates [H1 H2]]]; unfold compute_points.
    + rewrite H. reflexivity.
    + rewrite H1. simpl bind. rewrite H2. reflexivity.
  - intros self. left. reflexivity.
  - intros self ranges Hfn Hlen. right.
    destruct (build_coordinates_many ranges) as [coordinates [E Hl]]; [lia|].
    exists coordinates. split; [exact E|]. rewrite Hfn. simpl.
    unfold simple_complex_square.
    replace (length coordinates =? 2) with false; [reflexivity|].
    symmetry. apply Nat.eqb_neq. lia.
Qed.

(** C10 at a holder with a cloud, for the empty range list and for three
    ranges handed to [simple_complex_square]. *)
Lemma compute_points_no_result_keeps_cloud_witness :
  compute_points runner_2d [] = Ok runner_2d /\
  compute_points runner_2d [unit_range 1; unit_range 1; unit_range 1]
  = Ok runner_2d /\
  computed_points runner_2d
  = Some {| pd_ranges := []; pd_points := np_full [2; 3; 3] 1%R |}.
Proof.
  destruct compute_points_no_result_keeps_cloud as [H1 [H2 H3]].
  split; [apply H1, H2|].
  split; [apply H1, H3; [reflexivity | simpl; lia] | reflexivity].
Defined.

(** ** The swept orthonormaliser against the specification *)

Lemma code_transform_planar (rb : rotate_basis_spec) (e0 e1 a b f : nat) :
  rotate_elements rb = [e0; e1] ->
  code_transform rb a b f =
  planar_rotation e0 e1
    (theta (rb_min rb) (rb_max rb) (rb_segments rb) f) a b.
Proof.
  intros Hre. unfold code_transform, planar_rotation, eye.
  rewrite Hre. cbn [nth existsb].
  destruct (Nat.eqb_spec a e0); destruct (Nat.eqb_spec a e1);
    destruct (Nat.eqb_spec b e0); destruct (Nat.eqb_spec b e1);
    destruct (Nat.eqb_spec a b); cbn [andb orb negb];
    try reflexivity; subst; congruence.
Qed.

Lemma code_vector_rotated (basis : list (list R)) (rb : rotate_basis_spec)
    (e0 e1 r c f : nat) :
  rotate_elements rb = [e0; e1] ->
  code_vector basis rb r c f = rotated_entry basis rb f r c.
Proof.
  intros Hre. unfold code_vector, rotated_entry.
  destruct (c =? rotate_vector rb); [|reflexivity].
  unfold mat_vec, sweep_k. apply sum_n_ext. intros l _.
  rewrite (code_transform_planar rb e0 e1 r l f Hre).
  unfold sweep_angle, sweep_e0, sweep_e1. rewrite Hre. reflexivity.
Qed.

Lemma code_vectors_swept (basis : list (list R)) (rb : rotate_basis_spec)
    (e0 e1 : nat) :
  rotate_elements rb = [e0; e1] ->
  code_vectors basis rb = swept_vectors basis rb.
Proof.
  intros Hre. unfold code_vectors, swept_vectors, sweep_k, sweep_frames.
  apply tabulate_ext. intros ix _.
  apply (code_vector_rotated basis rb e0 e1). exact Hre.
Qed.

Lemma frame_of_swept (basis : list (list R)) (rb : rotate_basis_spec)
    (f : nat) :
  f < rb_segments rb + 1 ->
  frame_array (length basis) (swept_vectors basis rb) f =
  rotated_frame basis rb f.
Proof.
  intros Hf. unfold frame_array, rotated_frame, sweep_k.
  apply tabulate_ext. intros ix Hb.
  destruct (in_bounds2 _ _ _ Hb) as (r & c & -> & Hr & Hc). cbn [nth].
  unfold frame_of, swept_vectors, sweep_k, sweep_frames.
  rewrite at_tabulate by bounds. reflexivity.
Qed.

Lemma code_orthonormals_swept (basis : list (list R)) (rb : rotate_basis_spec)
    (e0 e1 : nat) :
  rotate_elements rb = [e0; e1] ->
  code_orthonormals basis rb = swept_orthonormals basis rb.
Proof.
  intros Hre. unfold code_orthonormals, swept_orthonormals.
  rewrite (code_vectors_swept basis rb e0 e1 Hre).
  unfold sweep_k, sweep_frames. apply tabulate_ext. intros ix Hb.
  destruct (in_bounds3 _ _ _ _ Hb) as (r & c & f & -> & Hr & Hc & Hf).
  cbn [nth]. rewrite (frame_of_swept basis rb f Hf). reflexivity.
Qed.

(** C3: for a square basis, a designated vector and a pair of coordinate
    indices within it, and a sweep of [segments] steps, the swept
    orthonormaliser returns what the specification describes: the basis
    copied for each of the [segments + 1] frames, the designated vector of
    each copy multiplied by the matrix that is the identity but for the
    planar rotation block of the frame's angle, every frame then
    QR-orthonormalised on its own; with the flag set, the vectors before
    orthonormalisation come with it. *)
Theorem generate_orthonormal_bases_refines_spec (basis : list (list R))
    (rb : rotate_basis_spec) (return_vector_set : bool) (e0 e1 : nat) :
  square_basis (length basis) basis = true ->
  rotate_vector rb < length basis ->
  rotate_elements rb = [e0; e1] ->
  e0 < length basis -> e1 < length basis ->
  generate_orthonormal_bases basis rb return_vector_set =
  Ok (swept_spec basis rb return_vector_set).
Proof.
  intros Hsq Hrv Hre He0 He1.
  rewrite (generate_orthonormal_bases_ok basis rb return_vector_set e0 e1 []
             Hsq Hrv Hre He0 He1).
  rewrite (code_orthonormals_swept basis rb e0 e1 Hre).
  rewrite (code_vectors_swept basis rb e0 e1 Hre).
  unfold swept_spec. destruct return_vector_set; reflexivity.
Qed.

(** C3 at the canonical basis of the plane, its first vector swept through
    a quarter turn in one segment. *)
Lemma generate_orthonormal_bases_refines_spec_witness :
  generate_orthonormal_bases basis2 quarter_turn true =
  Ok (swept_spec basis2 quarter_turn true).
Proof.
  apply (generate_orthonormal_bases_refines_spec basis2 quarter_turn true 0 1).
  - reflexivity.
  - simpl. lia.
  - reflexivity.
  - simpl. lia.
  - simpl. lia.
Defined.

(** C4: the swept orthonormaliser returns a sequence exactly for the square
    bases with the indices of the rotation in range, and whatever the basis
    and whatever the rotation applied to its designated vector, every frame
    of every sequence it returns has pairwise orthogonal columns of unit
    norm. *)
Theorem swept_bases_are_orthonormal (basis : list (list R))
    (rb : rotate_basis_spec) (return_vector_set : bool) :
  (sweepable basis rb <->
   exists res, generate_orthonormal_bases basis rb return_vector_set = Ok res)
  /\
  (forall res,
     generate_orthonormal_bases basis rb return_vector_set = Ok res ->
     nd_shape (orthonormals_of res) =
       [length basis; length basis; rb_segments rb + 1] /\
     forall f, f < rb_segments rb + 1 ->
       orthonormal_columns (length basis) (frame_of (orthonormals_of res) f)).
Proof.
  split.
  - split.
    + intros (Hsq & Hrv & e0 & e1 & rest & Hre & He0 & He1).
      eexists. apply (generate_orthonormal_bases_ok basis rb return_vector_set
                        e0 e1 rest); assumption.
    + intros [res Hres].
      apply (generate_orthonormal_bases_returns basis rb return_vector_set res).
      exact Hres.
  - intros res Hres.
    destruct (generate_orthonormal_bases_returns basis rb return_vector_set res
                Hres) as (Hsq & Hrv & e0 & e1 & rest & Hre & He0 & He1).
    rewrite (generate_orthonormal_bases_ok basis rb return_vector_set e0 e1 rest
               Hsq Hrv Hre He0 He1) in Hres.
    inversion Hres as [Hr]. clear Hres Hr.
    assert (Ho : orthonormals_of
                   (if negb return_vector_set
                    then Orthonormals (code_orthonormals basis rb)
                    else OrthonormalsAndVectors (code_orthonormals basis rb)
                           (code_vectors basis rb))
                 = code_orthonormals basis rb)
      by (destruct return_vector_set; reflexivity).
    rewrite Ho. split; [reflexivity|].
    intros f Hf i j Hi Hj.
    rewrite (sum_n_ext _ _
               (fun r =>
                  (qr_Q (length basis) (length basis)
                     (mat_of (frame_array (length basis)
                                (code_vectors basis rb) f)) r i
                   * qr_Q (length basis) (length basis)
                       (mat_of (frame_array (length basis)
                                  (code_vectors basis rb) f)) r j)%R)).
    + apply qr_Q_orthonormal; assumption.
    + intros r Hr. unfold frame_of, code_orthonormals.
      rewrite !at_tabulate by bounds. reflexivity.
Qed.

(** C4 at a singular basis, two parallel vectors: a sequence is returned
    and its two frames are orthonormal. *)
Lemma swept_bases_are_orthonormal_witness :
  exists res,
    generate_orthonormal_bases skewed_basis quarter_turn false = Ok res /\
    nd_shape (orthonormals_of res) = [2; 2; 2] /\
    forall f, f < 2 -> orthonormal_columns 2 (frame_of (orthonormals_of res) f).
Proof.
  destruct (swept_bases_are_orthonormal skewed_basis quarter_turn false)
    as [[Hreturns _] Hortho].
  destruct Hreturns as [res Hres].
  - split; [reflexivity|]. split; [simpl; lia|].
    exists 0, 1, []. split; [reflexivity|]. simpl. lia.
  - exists res. split; [exact Hres|]. apply (Hortho res Hres).
Defined.

(** * Further properties of the code *)

(** ** The coordinate grid *)

Lemma nth_error_combine_seq {A : Type} (xs : list A) : forall start i x,
  nth_error xs i = Some x ->
  nth_error (combine (seq start (length xs)) xs) i = Some (start + i, x).
Proof.
  induction xs as [|y xs IH]; intros start [|i] x H; simpl in *; try discriminate.
  - inversion H. rewrite Nat.add_0_r. reflexivity.
  - rewrite (IH (S start) i x H). f_equal. f_equal. lia.
Qed.

Lemma nth_error_enumerate {A : Type} (xs : list A) (i : nat) (x : A) :
  nth_error xs i = Some x -> nth_error (enumerate xs) i = Some (i, x).
Proof. intros H. unfold enumerate. apply (nth_error_combine_seq xs 0 i x H). Qed.

(** X1: for two or more ranges [build_coordinates] returns one array per
    range, all of the grid's shape, which is the list of the ranges' sample
    counts with the first two exchanged; the array of range [i] holds at
    every grid index the sample of that range selected by the index along
    the range's own axis (axis 1 for range 0, axis 0 for range 1, axis [i]
    otherwise): the range's [min] where that index is 0 and, for one segment
    or more, its [max] where it is [segments]. *)
Theorem build_coordinates_grid (ranges : list range_spec) :
  1 < length ranges ->
  exists grid,
    build_coordinates ranges = Ok (Some grid) /\
    length grid = length ranges /\
    forall i r, nth_error ranges i = Some r ->
      exists a,
        nth_error grid i = Some a /\
        nd_shape a = grid_shape ranges /\
        forall ix, in_bounds (grid_shape ranges) ix ->
          at_ a ix =
            theta (r_min r) (r_max r) (r_segments r) (nth i (swap01 ix) 0) /\
          (nth i (swap01 ix) 0 = 0 -> at_ a ix = r_min r) /\
          (1 <= r_segments r -> nth i (swap01 ix) 0 = r_segments r ->
           at_ a ix = r_max r).
Proof.
  intros Hlen. unfold build_coordinates.
  replace (1 <? length ranges) with true by (symmetry; apply Nat.ltb_lt; lia).
  eexists. split; [reflexivity|]. split.
  { rewrite meshgrid_length, length_map. reflexivity. }
  intros i r Hr. unfold np_meshgrid.
  set (arrays := map (fun number_range =>
                        np_linspace (r_min number_range) (r_max number_range)
                          (r_segments number_range + 1)) ranges).
  assert (Ha : nth_error arrays i =
               Some (np_linspace (r_min r) (r_max r) (r_segments r + 1))).
  { unfold arrays. rewrite nth_error_map, Hr. reflexivity. }
  assert (Hlens : map (fun a => hd 0 (nd_shape a)) arrays
                  = map (fun r => r_segments r + 1) ranges).
  { unfold arrays. rewrite map_map. reflexivity. }
  rewrite Hlens. fold (grid_shape ranges).
  eexists. split.
  { rewrite nth_error_map, (nth_error_enumerate arrays i _ Ha). reflexivity. }
  split; [reflexivity|].
  intros ix Hb. rewrite at_tabulate by exact Hb.
  change (at_ (np_linspace (r_min r) (r_max r) (r_segments r + 1))
            [nth i (swap01 ix) 0])
    with (theta (r_min r) (r_max r) (r_segments r) (nth i (swap01 ix) 0)).
  split; [reflexivity|]. split.
  - intros ->. apply theta_first.
  - intros Hs ->. apply theta_last. exact Hs.
Qed.

Lemma build_coordinates_grid_witness :
  exists grid,
    build_coordinates [unit_range 2; unit_range 1] = Ok (Some grid) /\
    length grid = 2 /\
    forall i r, nth_error [unit_range 2; unit_range 1] i = Some r ->
      exists a,
        nth_error grid i = Some a /\
        nd_shape a = [2; 3] /\
        forall ix, in_bounds [2; 3] ix ->
          at_ a ix =
            theta (r_min r) (r_max r) (r_segments r) (nth i (swap01 ix) 0) /\
          (nth i (swap01 ix) 0 = 0 -> at_ a ix = r_min r) /\
          (1 <= r_segments r -> nth i (swap01 ix) 0 = r_segments r ->
           at_ a ix = r_max r).
Proof.
  apply (build_coordinates_grid [unit_range 2; unit_range 1]). simpl. lia.
Defined.

(** ** The computed cloud *)

Lemma bc_shape_rev_refl (l : list nat) : bc_shape_rev l l = Some l.
Proof.
  induction l as [|d l IH]; simpl; [reflexivity|].
  rewrite IH, Nat.eqb_refl. reflexivity.
Qed.

Lemma nd_map2_same_shape (f : R -> R -> R) (a b : ndarray) :
  nd_shape a = nd_shape b ->
  nd_map2 f a b =
  Ok (tabulate (nd_shape a) (fun ix => f (at_ a ix) (at_ b ix))).
Proof.
  intros H. unfold nd_map2. rewrite <- H, bc_shape_rev_refl, rev_involutive.
  f_equal. apply tabulate_ext. intros ix Hb.
  rewrite bc_index_same by exact Hb. reflexivity.
Qed.

Lemma np_stack_same_shape (arrays : list ndarray) (sh : list nat) :
  arrays <> [] -> Forall (fun a => nd_shape a = sh) arrays ->
  np_stack arrays =
  Ok (tabulate (length arrays :: sh)
        (fun ix => at_ (nth (hd 0 ix) arrays (hd (np_zeros []) arrays)) (tl ix))).
Proof.
  intros Hne Hall. unfold np_stack. destruct arrays as [|a0 rest]; [congruence|].
  assert (H0 : nd_shape a0 = sh) by (inversion Hall; assumption).
  replace (forallb _ (a0 :: rest)) with true.
  - rewrite H0. reflexivity.
  - symmetry. apply forallb_forall. intros b Hb.
    rewrite Forall_forall in Hall. rewrite (Hall b Hb), H0.
    destruct (list_eq_dec Nat.eq_dec sh sh); [reflexivity | congruence].
Qed.

(** X2: when the coordinate builder yields a grid and the field function
    returns output arrays of the grid's shape, [compute_points] stores a
    cloud with one layer per coordinate array followed by one layer per
    output array, in that order, each layer being that array; the ranges are
    stored with it and nothing else of the holder changes. *)
Theorem compute_points_stacks_inputs_then_outputs (self : FunctionRunner)
    (ranges : list range_spec) (grid results : list ndarray) (sh : list nat) :
  build_coordinates ranges = Ok (Some grid) ->
  call_fn (fn self) grid = Ok (Some results) ->
  grid <> [] ->
  Forall (fun a => nd_shape a = sh) (grid ++ results) ->
  exists points,
    compute_points self ranges =
      Ok (set_computed_points self
            {| pd_ranges := ranges; pd_points := points |}) /\
    nd_shape points = length grid + length results :: sh /\
    forall i a ix, nth_error (grid ++ results) i = Some a ->
      in_bounds sh ix -> at_ points (i :: ix) = at_ a ix.
Proof.
  intros Hgrid Hfn Hne Hall. unfold compute_points.
  rewrite Hgrid. cbn [bind]. rewrite Hfn. cbn [bind].
  rewrite (np_stack_same_shape (grid ++ results) sh).
  - cbn [bind]. eexists. split; [reflexivity|]. split.
    + simpl. rewrite length_app. reflexivity.
    + intros i a ix Hi Hb.
      assert (Hlt : i < length (grid ++ results)).
      { apply nth_error_Some. rewrite Hi. discriminate. }
      rewrite at_tabulate by (split; assumption). simpl hd. simpl tl.
      rewrite (nth_error_nth _ _ _ Hi). reflexivity.
  - destruct grid; [congruence | discriminate].
  - exact Hall.
Qed.

Lemma compute_points_stacks_inputs_then_outputs_witness :
  exists grid results points,
    build_coordinates [unit_range 1; unit_range 1] = Ok (Some grid) /\
    call_fn (Callable simple_complex_square) grid = Ok (Some results) /\
    compute_points fresh_runner [unit_range 1; unit_range 1] =
      Ok (set_computed_points fresh_runner
            {| pd_ranges := [unit_range 1; unit_range 1];
               pd_points := points |}) /\
    nd_shape points = length grid + length results :: [2; 2] /\
    forall i a ix, nth_error (grid ++ results) i = Some a ->
      in_bounds [2; 2] ix -> at_ points (i :: ix) = at_ a ix.
Proof.
  eexists. eexists.
  destruct (compute_points_stacks_inputs_then_outputs fresh_runner
              [unit_range 1; unit_range 1] _ _ [2; 2]
              eq_refl eq_refl) as [points H].
  - discriminate.
  - repeat constructor.
  - exists points. split; [reflexivity|]. split; [reflexivity|]. exact H.
Defined.

Lemma simple_complex_square_on_grid (rx ry : range_spec) :
  simple_complex_square [grid_x rx ry; grid_y rx ry] =
  Ok (Some [square_re rx ry; square_im rx ry]).
Proof.
  unfold simple_complex_square. simpl length. simpl Nat.eqb. cbv iota.
  simpl nth.
  rewrite !(nd_map2_same_shape _ (grid_x rx ry) (grid_y rx ry) eq_refl).
  reflexivity.
Qed.

Lemma compute_points_square_cloud (self : FunctionRunner)
    (rx ry : range_spec) :
  fn self = Callable simple_complex_square ->
  compute_points self [rx; ry] =
  Ok (set_computed_points self
        {| pd_ranges := [rx; ry]; pd_points := square_cloud rx ry |}).
Proof.
  intros Hfn. unfold compute_points.
  change (build_coordinates [rx; ry])
    with (@Ok (option (list ndarray)) (Some [grid_x rx ry; grid_y rx ry])).
  cbn [bind]. rewrite Hfn. simpl call_fn.
  rewrite simple_complex_square_on_grid. cbn [bind].
  rewrite (np_stack_same_shape _ [r_segments ry + 1; r_segments rx + 1]).
  - reflexivity.
  - discriminate.
  - repeat constructor.
Qed.

(** X3: for two ranges [rx] and [ry] and the field function
    [simple_complex_square], [compute_points] stores a cloud of shape
    [(4, ny, nx)] (ny and nx the sample counts of [ry] and [rx]): at the grid
    position (j, i) layer 0 is the sample [x_i] of [rx], layer 1 the sample
    [y_j] of [ry], layer 2 the real part [x*x - y*y] and layer 3 the
    imaginary part [x*y + y*x] of the square of [x + iy]. *)
Theorem compute_points_complex_square (self : FunctionRunner)
    (rx ry : range_spec) :
  fn self = Callable simple_complex_square ->
  exists points,
    compute_points self [rx; ry] =
      Ok (set_computed_points self
            {| pd_ranges := [rx; ry]; pd_points := points |}) /\
    nd_shape points = [4; r_segments ry + 1; r_segments rx + 1] /\
    forall j i, j < r_segments ry + 1 -> i < r_segments rx + 1 ->
      let x := theta (r_min rx) (r_max rx) (r_segments rx) i in
      let y := theta (r_min ry) (r_max ry) (r_segments ry) j in
      at_ points [0; j; i] = x /\
      at_ points [1; j; i] = y /\
      at_ points [2; j; i] = (x * x - y * y)%R /\
      at_ points [3; j; i] = (x * y + y * x)%R.
Proof.
  intros Hfn. exists (square_cloud rx ry).
  split; [apply compute_points_square_cloud; exact Hfn|].
  split; [reflexivity|].
  intros j i Hj Hi x y.
  assert (Hb : in_bounds [r_segments ry + 1; r_segments rx + 1] [j; i])
    by bounds.
  assert (Hx : at_ (grid_x rx ry) [j; i] = x)
    by (unfold grid_x; rewrite at_tabulate by exact Hb; reflexivity).
  assert (Hy : at_ (grid_y rx ry) [j; i] = y)
    by (unfold grid_y; rewrite at_tabulate by exact Hb; reflexivity).
  unfold square_cloud. rewrite !at_tabulate by bounds.
  cbn [hd tl nth square_layers]. unfold square_re, square_im.
  rewrite !at_tabulate by exact Hb. rewrite Hx, Hy. auto.
Qed.

Lemma compute_points_complex_square_witness :
  exists points,
    compute_points fresh_runner [unit_range 2; unit_range 1] =
      Ok (set_computed_points fresh_runner
            {| pd_ranges := [unit_range 2; unit_range 1];
               pd_points := points |}) /\
    nd_shape points = [4; 2; 3] /\
    forall j i, j < 2 -> i < 3 ->
      let x := theta 0%R 1%R 2 i in
      let y := theta 0%R 1%R 1 j in
      at_ points [0; j; i] = x /\
      at_ points [1; j; i] = y /\
      at_ points [2; j; i] = (x * x - y * y)%R /\
      at_ points [3; j; i] = (x * y + y * x)%R.
Proof.
  apply (compute_points_complex_square fresh_runner
           (unit_range 2) (unit_range 1)).
  reflexivity.
Defined.

(** ** Rotation sets that cannot be applied *)

Lemma nd_shape_tabulate (sh : list nat) (f : list nat -> R) :
  nd_shape (tabulate sh f) = sh.
Proof. reflexivity. Qed.





(** X5: on a holder with a cloud, a rotation set without transforms, or
    whose first transform has an empty matrix, makes [animate_rotation]
    raise [IndexError]; no identity rotation is assumed. *)
Theorem animate_rotation_empty_rotation_set (junk : list nat -> R)
    (self : FunctionRunner) (cp : point_data) (rot : rotation_spec)
    (bv : option (list (list R))) :
  computed_points self = Some cp ->
  0 < rank (pd_points cp) ->
  transforms rot = [] \/
  (exists t ts, transforms rot = t :: ts /\ t_transform t = []) ->
  animate_rotation junk self rot bv = Raise IndexError.
Proof.
  intros Hcp Hrank H. unfold animate_rotation. rewrite Hcp.
  replace (0 <? rank (pd_points cp)) with true
    by (symmetry; apply Nat.ltb_lt; exact Hrank).
  destruct H as [-> | (t & ts & -> & Ht)].
  - reflexivity.
  - simpl mapM. unfold build_rotator at 1. rewrite Ht. reflexivity.
Qed.

Lemma animate_rotation_empty_rotation_set_witness :
  animate_rotation no_junk runner_2d {| segments := 1; transforms := [] |}
    (Some basis3)
  = Raise IndexError.
Proof.
  apply (animate_rotation_empty_rotation_set no_junk runner_2d
           {| pd_ranges := []; pd_points := np_full [2; 3; 3] 1%R |}).
  - reflexivity.
  - unfold rank. simpl. lia.
  - left. reflexivity.
Defined.

(** ** Unknown tokens, in general *)

Lemma for_each_ok_or_raises {A S : Type} (P : S -> Prop)
    (body : A -> S -> result S) (e : exn) (xs : list A) :
  (forall x s, In x xs -> P s ->
     (exists s', body x s = Ok s' /\ P s') \/ body x s = Raise e) ->
  forall s, P s ->
    (exists s', for_each xs body s = Ok s' /\ P s') \/
    for_each xs body s = Raise e.
Proof.
  induction xs as [|x xs IH]; intros Hbody s Hs; simpl.
  - left. eauto.
  - destruct (Hbody x s (or_introl eq_refl) Hs) as [[s1 [E1 P1]] | E1];
      rewrite E1; simpl; [|right; reflexivity].
    apply IH; [|exact P1]. intros y s' Hy. apply Hbody. right. exact Hy.
Qed.

Lemma for_each_raises {A S : Type} (P : S -> Prop)
    (body : A -> S -> result S) (e : exn) (xs : list A) :
  (forall x s, In x xs -> P s ->
     (exists s', body x s = Ok s' /\ P s') \/ body x s = Raise e) ->
  (exists x, In x xs /\ forall s, P s -> body x s = Raise e) ->
  forall s, P s -> for_each xs body s = Raise e.
Proof.
  induction xs as [|x xs IH]; intros Hbody [y [Hy Hraise]] s Hs.
  - contradiction.
  - simpl.
    destruct (Hbody x s (or_introl eq_refl) Hs) as [[s1 [E1 P1]] | E1];
      rewrite E1; simpl; [|reflexivity].
    destruct Hy as [-> | Hy].
    + rewrite (Hraise s Hs) in E1. discriminate.
    + apply IH; [| exists y; auto | exact P1].
      intros z s' Hz. apply Hbody. right. exact Hz.
Qed.

Lemma mapM_raises {A B : Type} (f : A -> result B) (e : exn) (xs : list A) :
  (forall x, In x xs -> (exists y, f x = Ok y) \/ f x = Raise e) ->
  (exists x, In x xs /\ f x = Raise e) ->
  mapM f xs = Raise e.
Proof.
  induction xs as [|x xs IH]; intros Hf [y [Hy Hraise]].
  - contradiction.
  - simpl. destruct (Hf x (or_introl eq_refl)) as [[b E] | E]; rewrite E;
      simpl; [|reflexivity].
    destruct Hy as [-> | Hy]; [congruence|].
    rewrite IH; [reflexivity | | exists y; auto].
    intros z Hz. apply Hf. right. exact Hz.
Qed.

Lemma in_enumerate {A : Type} (xs : list A) (i : nat) (x : A) :
  In (i, x) (enumerate xs) -> i < length xs /\ In x xs.
Proof.
  unfold enumerate. intros H. split.
  - apply in_combine_l in H. apply in_seq in H. lia.
  - apply in_combine_r in H. exact H.
Qed.

Lemma enumerate_in {A : Type} (xs : list A) (x : A) :
  In x xs -> exists i, In (i, x) (enumerate xs).
Proof.
  intros H. apply In_nth_error in H. destruct H as [i Hi]. exists i.
  eapply nth_error_In. apply nth_error_enumerate. exact Hi.
Qed.

Lemma build_rotator_unknown_token (s : nat) (t : transform_spec) :
  rows_fit_first t = true ->
  ((exists rotator, build_rotator s t = Ok rotator) \/
   build_rotator s t = Raise (NameError "multiplier")) /\
  (has_unknown_token t = true ->
   build_rotator s t = Raise (NameError "multiplier")).
Proof.
  unfold rows_fit_first, has_unknown_token, build_rotator, py_index.
  destruct (t_transform t) as [|row0 rows'] eqn:Et; [discriminate|].
  rewrite <- Et. intros Hrect.
  assert (E0 : nth_error (t_transform t) 0 = Some row0) by (rewrite Et; reflexivity).
  rewrite E0. cbn [bind].
  set (thetas := np_linspace (t_min t) (t_max t) (s + 1)).
  set (sh := [length (t_transform t); length row0; s + 1]).
  set (P := fun a : ndarray => nd_shape a = sh).
  set (cell_body := fun (j : nat) '((k, element) : nat * cell) (rotator : ndarray) =>
                      v <- compile_cell element thetas ;;
                      setitem rotator [I j; I k; Sl] v).
  assert (Hcell : forall j row, In (j, row) (enumerate (t_transform t)) ->
            forall x a, In x (enumerate row) -> P a ->
              (exists a', cell_body j x a = Ok a' /\ P a') \/
              cell_body j x a = Raise (NameError "multiplier")).
  { intros j row Hjrow [k element] a Hx Ha.
    apply in_enumerate in Hjrow. destruct Hjrow as [Hj Hrow].
    apply in_enumerate in Hx. destruct Hx as [Hk _].
    rewrite forallb_forall in Hrect. specialize (Hrect row Hrow).
    apply Nat.leb_le in Hrect.
    unfold cell_body. destruct (valid_cell element) eqn:Ev.
    - left. rewrite (compile_cell_ok element thetas Ev). cbn [bind].
      rewrite setitem_ok.
      + eexists. split; [reflexivity|]. exact Ha.
      + unfold P in Ha. rewrite Ha. unfold sh. simpl.
        replace (j <? length (t_transform t)) with true
          by (symmetry; apply Nat.ltb_lt; lia).
        replace (k <? length row0) with true
          by (symmetry; apply Nat.ltb_lt; lia).
        reflexivity.
    - right. destruct element as [x|tok]; [discriminate|].
      rewrite (compile_cell_unknown tok thetas Ev). reflexivity. }
  assert (Hrow : forall x a, In x (enumerate (t_transform t)) -> P a ->
            (exists a', (let '(j, row) := x in
                         for_each (enumerate row) (cell_body j)) a = Ok a'
                        /\ P a') \/
            (let '(j, row) := x in for_each (enumerate row) (cell_body j)) a
            = Raise (NameError "multiplier")).
  { intros [j row] a Hx Ha.
    apply (for_each_ok_or_raises P (cell_body j)); [|exact Ha].
    intros x a' Hx'. apply (Hcell j row Hx x a' Hx'). }
  split.
  - destruct (for_each_ok_or_raises P
                (fun x => let '(j, row) := x in
                          for_each (enumerate row) (cell_body j))
                (NameError "multiplier") (enumerate (t_transform t)) Hrow
                (np_zeros sh) eq_refl) as [[a' [E _]] | E].
    + left. exists a'. rewrite <- E. apply f_equal2; [|reflexivity].
      reflexivity.
    + right. rewrite <- E. reflexivity.
  - intros Hunk. apply existsb_exists in Hunk.
    destruct Hunk as [row [Hrow_in Hcells]].
    apply existsb_exists in Hcells. destruct Hcells as [element [Hel Hinv]].
    apply negb_true_iff in Hinv.
    destruct (enumerate_in _ row Hrow_in) as [j Hj].
    destruct (enumerate_in _ element Hel) as [k Hk].
    change (for_each (enumerate (t_transform t))
              (fun x => let '(j, row) := x in
                        for_each (enumerate row) (cell_body j))
              (np_zeros sh) = Raise (NameError "multiplier")).
    apply (for_each_raises P); [exact Hrow | | reflexivity].
    exists (j, row). split; [exact Hj|]. intros a Ha.
    apply (for_each_raises P (cell_body j)); [| | exact Ha].
    + intros x a' Hx'. apply (Hcell j row Hj x a' Hx').
    + exists (k, element). split; [exact Hk|]. intros a' _.
      unfold cell_body. destruct element as [x|tok]; [discriminate|].
      rewrite (compile_cell_unknown tok thetas Hinv). reflexivity.
Qed.

(** X6: on a holder with a cloud, if no row of a transform matrix is longer
    than the matrix's first row and some cell of some matrix is a string
    other than "cos", "-cos", "sin", "-sin", [animate_rotation] raises the
    [NameError] of the undefined name [multiplier], whatever the cell's
    position, the other cells, the cloud and the projection basis. *)
Theorem animate_rotation_unknown_token (junk : list nat -> R)
    (self : FunctionRunner) (cp : point_data) (rot : rotation_spec)
    (bv : option (list (list R))) :
  computed_points self = Some cp ->
  0 < rank (pd_points cp) ->
  forallb rows_fit_first (transforms rot) = true ->
  existsb has_unknown_token (transforms rot) = true ->
  animate_rotation junk self rot bv = Raise (NameError "multiplier").
Proof.
  intros Hcp Hrank Hrect Hunk. unfold animate_rotation. rewrite Hcp.
  replace (0 <? rank (pd_points cp)) with true
    by (symmetry; apply Nat.ltb_lt; exact Hrank).
  rewrite (mapM_raises (build_rotator (segments rot))
             (NameError "multiplier")); [reflexivity | |].
  - intros t Ht. rewrite forallb_forall in Hrect.
    apply (build_rotator_unknown_token (segments rot) t (Hrect t Ht)).
  - apply existsb_exists in Hunk. destruct Hunk as [t [Ht Hu]].
    exists t. split; [exact Ht|]. rewrite forallb_forall in Hrect.
    apply (build_rotator_unknown_token (segments rot) t (Hrect t Ht)).
    exact Hu.
Qed.

Lemma animate_rotation_unknown_token_witness :
  animate_rotation no_junk runner_2d
    {| segments := 3; transforms := [identity2; late_unknown_token] |}
    (Some basis2)
  = Raise (NameError "multiplier").
Proof.
  apply (animate_rotation_unknown_token no_junk runner_2d
           {| pd_ranges := []; pd_points := np_full [2; 3; 3] 1%R |}).
  - reflexivity.
  - unfold rank. simpl. lia.
  - reflexivity.
  - reflexivity.
Defined.

(** ** A projection basis of the right size *)

Lemma projection_basis_square (D F : nat) (bv : list (list R))
    (comp : ndarray) :
  0 < D -> square_basis D bv = true -> nd_shape comp = [D; D; F] ->
  projection_basis (Some bv) comp = Ok (Some (mat_tab D (projection_Q D bv))).
Proof.
  intros HD Hsq Hc. destruct (square_basis_rows D bv Hsq) as [Hlen Hrows].
  unfold projection_basis. rewrite Hc. simpl nth.
  assert (Hhd : length (hd [] bv) = D).
  { destruct bv as [|v bv']; [simpl in Hlen; lia|].
    apply Hrows. left. reflexivity. }
  rewrite Hlen, Hhd, Nat.eqb_refl. simpl andb. cbv iota.
  rewrite (np_array2_square D bv HD Hsq). cbn [bind].
  change (tabulate [D; D]
            (fun ix => nth (nth 1 ix 0) (nth (nth 0 ix 0) bv []) 0%R))
    with (mat_tab D (basis_rows bv)).
  rewrite (np_linalg_qr_square D) by reflexivity. reflexivity.
Qed.

Lemma build_composite_projected (D s : nat) (rotators : list ndarray)
    (Q : Mat) :
  rotators <> [] ->
  Forall (fun r => nd_shape r = [D; D; s + 1]) rotators ->
  build_composite rotators (Some (mat_tab D Q)) s (np_zeros [D; D; s + 1]) =
  Ok (tabulate [D; D; s + 1]
        (fun ix =>
           mmul D (ordered_product D
                     (map (fun r => frame_of r (nth 2 ix 0)) rotators)) Q
             (nth 0 ix 0) (nth 1 ix 0))).
Proof.
  intros Hne Hall. unfold build_composite.
  set (sh := [D; D; s + 1]).
  set (entry := fun ix : list nat =>
                  mmul D (ordered_product D
                            (map (fun r => frame_of r (nth 2 ix 0)) rotators)) Q
                    (nth 0 ix 0) (nth 1 ix 0)).
  set (P := fun (i : nat) (comp : ndarray) =>
              comp = tabulate sh (fun ix => if nth 2 ix 0 <? i
                                            then entry ix else 0%R)).
  match goal with
  | |- for_each _ ?body ?init = _ =>
      destruct (for_range_inv P body (s + 1) init) as [comp [E HP]]
  end.
  - unfold P, np_zeros, np_full. apply tabulate_ext. intros ix _.
    rewrite ltb_0. reflexivity.
  - intros i comp Hi HP. unfold P in HP. subst comp.
    rewrite (frame_product_ok D (s + 1) i rotators Hi Hne Hall). cbn [bind].
    rewrite matmul_mat_tab. cbn [bind].
    rewrite setitem_ok.
    2:{ simpl. ltb_true. reflexivity. }
    eexists. split; [reflexivity|]. unfold P. rewrite nd_shape_tabulate.
    apply tabulate_ext. intros ix Hb.
    destruct (in_bounds3 _ _ _ _ Hb) as (a & b & f & -> & Ha & Hb' & Hf).
    rewrite at_tabulate by exact Hb. cbn [nth locate].
    destruct (f =? i) eqn:Efi.
    + apply Nat.eqb_eq in Efi. subst f. cbn [option_map]. cbv beta iota.
      replace (i <? S i) with true by (symmetry; apply Nat.ltb_lt; lia).
      rewrite mat_tab_at by lia. reflexivity.
    + apply Nat.eqb_neq in Efi. cbn [option_map]. cbv beta iota.
      destruct (f <? i) eqn:E3.
      * apply Nat.ltb_lt in E3.
        replace (f <? S i) with true by (symmetry; apply Nat.ltb_lt; lia).
        reflexivity.
      * apply Nat.ltb_ge in E3.
        replace (f <? S i) with false by (symmetry; apply Nat.ltb_ge; lia).
        reflexivity.
  - rewrite E. f_equal. unfold P in HP. rewrite HP.
    apply tabulate_ext. intros ix Hb.
    destruct (in_bounds3 _ _ _ _ Hb) as (a & b & f & -> & Ha & Hb' & Hf).
    cbn [nth].
    replace (f <? s + 1) with true by (symmetry; apply Nat.ltb_lt; lia).
    reflexivity.
Qed.

Lemma mat_eq_on_refl (D : nat) (M : Mat) : mat_eq_on D M M.
Proof. intros a b _ _. reflexivity. Qed.

(** X7: for a cloud over a two-dimensional grid, well-formed [D] x [D]
    transforms and a projection basis of [D] vectors of [D] coordinates,
    [animate_rotation] orthonormalises the basis once (the factor [Q] of the
    vectors taken as rows, with orthonormal columns) and every frame is the
    ordered product of the rotators' frames multiplied on the right by that
    same [Q], applied to the point vectors. *)
Theorem animate_rotation_projected (junk : list nat -> R)
    (self : FunctionRunner) (cp : point_data) (rot : rotation_spec)
    (bv : list (list R)) (D n m : nat) :
  computed_points self = Some cp ->
  nd_shape (pd_points cp) = [D; n; m] ->
  0 < D ->
  transforms rot <> [] ->
  forallb (well_formed_transform D D) (transforms rot) = true ->
  square_basis D bv = true ->
  orthonormal_columns D (projection_Q D bv) /\
  exists self' fd,
    animate_rotation junk self rot (Some bv) = Ok self' /\
    animation_frames self' = Some fd /\
    computed_points self' = Some cp /\
    fd_ranges fd = pd_ranges cp /\
    nd_shape (fd_frames fd) = [segments rot + 1; D; n; m] /\
    forall f d j k, f < segments rot + 1 -> d < D -> j < n -> k < m ->
      at_ (fd_frames fd) [f; d; j; k] =
      mat_vec D
        (mmul D
           (ordered_product D
              (map (fun t => rotator_frame (segments rot) t f)
                 (transforms rot)))
           (projection_Q D bv))
        (point_vector (pd_points cp) j k) d.
Proof.
  intros Hcp Hp HD Hne Hwf Hsq.
  split; [apply qr_Q_orthonormal|].
  unfold animate_rotation. rewrite Hcp.
  unfold rank. rewrite Hp. change (0 <? length [D; n; m]) with true. cbv iota.
  rewrite (wf_all_rotators (segments rot) D (transforms rot) HD Hwf).
  cbn [bind].
  set (rotators := map (fun t => tabulate [D; D; segments rot + 1]
                                   (rotator_entries (segments rot) t))
                     (transforms rot)).
  assert (Hrne : rotators <> []).
  { unfold rotators. destruct (transforms rot); [congruence | discriminate]. }
  assert (Hall : Forall (fun r => nd_shape r = [D; D; segments rot + 1]) rotators).
  { apply Forall_forall. intros r Hr. apply in_map_iff in Hr.
    destruct Hr as [t [<- _]]. reflexivity. }
  destruct rotators as [|r0 rest] eqn:Er; [congruence|].
  unfold py_index. cbn [nth_error]. cbn [bind].
  assert (H0 : nd_shape r0 = [D; D; segments rot + 1]) by (inversion Hall; auto).
  rewrite H0.
  rewrite (projection_basis_square D (segments rot + 1) bv) by
    (assumption || reflexivity).
  cbn [bind].
  rewrite (build_composite_projected D (segments rot) (r0 :: rest)
             (projection_Q D bv) Hrne Hall).
  cbn [bind].
  match goal with
  | |- context [rotate_points ?comp _ _] =>
      destruct (rotate_points_ok D n m (segments rot + 1) comp (pd_points cp)
                  (np_empty junk (segments rot + 1 :: [D; n; m])))
        as [fr [E [Hs He]]]; try reflexivity; try exact Hp
  end.
  rewrite E. cbn [bind]. eexists. eexists.
  split; [reflexivity|]. split; [reflexivity|].
  split; [simpl; exact Hcp|]. split; [reflexivity|].
  split; [exact Hs|].
  intros f d j k Hf Hd Hj Hk. simpl fd_frames. rewrite He by assumption.
  unfold rotated, mat_vec, point_vector. apply sum_n_ext. intros l Hl.
  rewrite at_tabulate by bounds. cbn [nth].
  f_equal. apply mmul_ext; [| apply mat_eq_on_refl | exact Hd | exact Hl].
  apply ordered_product_ext. rewrite <- Er. unfold rotators. rewrite map_map.
  apply Forall2_map_same. intros t _ a b Ha Hb.
  unfold frame_of. rewrite at_tabulate by bounds. reflexivity.
Qed.

Lemma animate_rotation_projected_witness :
  orthonormal_columns 2 (projection_Q 2 skewed_basis) /\
  exists self' fd,
    animate_rotation no_junk runner_2d rotation_identity2 (Some skewed_basis)
    = Ok self' /\
    animation_frames self' = Some fd /\
    computed_points self' =
      Some {| pd_ranges := []; pd_points := np_full [2; 3; 3] 1%R |} /\
    fd_ranges fd = [] /\
    nd_shape (fd_frames fd) = [1 + 1; 2; 3; 3] /\
    forall f d j k, f < 1 + 1 -> d < 2 -> j < 3 -> k < 3 ->
      at_ (fd_frames fd) [f; d; j; k] =
      mat_vec 2
        (mmul 2
           (ordered_product 2
              (map (fun t => rotator_frame 1 t f) [identity2]))
           (projection_Q 2 skewed_basis))
        (point_vector (np_full [2; 3; 3] 1%R) j k) d.
Proof.
  apply (animate_rotation_projected no_junk runner_2d
           {| pd_ranges := []; pd_points := np_full [2; 3; 3] 1%R |}
           rotation_identity2 skewed_basis 2 3 3).
  - reflexivity.
  - reflexivity.
  - lia.
  - discriminate.
  - reflexivity.
  - reflexivity.
Defined.

(** ** The holder through the calls *)





(** ** File paths *)

Lemma split_path_nonempty (s : string) : split_path s <> [].
Proof.
  destruct s as [|ch rest]; simpl; [discriminate|].
  destruct (is_separator ch); [discriminate|].
  destruct (split_path rest); discriminate.
Qed.

Lemma split_path_no_separator (s : string) :
  no_separator s = true -> split_path s = [s].
Proof.
  induction s as [|ch rest IH]; simpl; [reflexivity|].
  intros H. apply andb_prop in H. destruct H as [Hch Hrest].
  apply negb_true_iff in Hch. rewrite Hch, (IH Hrest). reflexivity.
Qed.

(** splitting at a slash splits the pieces *)
Lemma split_path_slash (s1 s2 : string) :
  split_path (s1 ++ String "/" s2) = split_path s1 ++ split_path s2.
Proof.
  induction s1 as [|ch rest IH]; simpl.
  - reflexivity.
  - rewrite IH. destruct (is_separator ch); [reflexivity|].
    destruct (split_path rest) as [|piece pieces] eqn:E.
    + exfalso. exact (split_path_nonempty rest E).
    + reflexivity.
Qed.

(** joining the pieces with slashes gives the path back, when the path has
    no backslash *)
Lemma concat_split_path (s : string) :
  no_backslash s = true -> String.concat "/" (split_path s) = s.
Proof.
  induction s as [|ch rest IH]; simpl; [reflexivity|].
  intros H. apply andb_prop in H. destruct H as [Hch Hrest].
  apply negb_true_iff in Hch. specialize (IH Hrest).
  unfold is_separator. rewrite Hch, orb_false_r.
  destruct (Ascii.eqb ch "/") eqn:Es.
  - apply Ascii.eqb_eq in Es. subst ch.
    destruct (split_path rest) as [|piece pieces] eqn:E.
    + exfalso. exact (split_path_nonempty rest E).
    + simpl. simpl in IH. rewrite IH. reflexivity.
  - destruct (split_path rest) as [|piece pieces] eqn:E.
    + exfalso. exact (split_path_nonempty rest E).
    + destruct pieces as [|p ps]; simpl in *; rewrite <- IH; reflexivity.
Qed.

Lemma append_slash_not_empty (s1 s2 : string) :
  String.eqb (s1 ++ String "/" s2) EmptyString = false.
Proof. destruct s1; reflexivity. Qed.

(** X10: for a file name with a directory part, [dir/file] with no separator
    in [file] and no backslash in [dir], [check_file_path] consults
    [os.path.isdir] on exactly [dir] (the empty string for a file directly
    under the root) and returns the name unchanged when it is a directory,
    [None] otherwise; a non-empty name without any separator is placed in
    the default directory without consulting the file system; [None] and the
    empty name give [None]. *)
Theorem check_file_path_cases (isdir : string -> bool) :
  (forall dir file,
     no_backslash dir = true -> no_separator file = true ->
     check_file_path isdir (Some (dir ++ String "/" file)%string) =
     if isdir dir then Some (dir ++ String "/" file)%string else None) /\
  (forall name,
     name <> EmptyString -> no_separator name = true ->
     check_file_path isdir (Some name) = Some ("./json/" ++ name)%string) /\
  check_file_path isdir None = None /\
  check_file_path isdir (Some EmptyString) = None.
Proof.
  split; [|split; [|split; reflexivity]].
  - intros dir file Hdir Hfile. unfold check_file_path.
    rewrite append_slash_not_empty, split_path_slash.
    rewrite (split_path_no_separator file Hfile).
    rewrite removelast_last, (concat_split_path dir Hdir).
    replace (length (split_path dir ++ [file]) =? 1) with false; [reflexivity|].
    symmetry. apply Nat.eqb_neq. rewrite length_app. simpl.
    pose proof (split_path_nonempty dir) as Hne.
    destruct (split_path dir); [congruence | simpl; lia].
  - intros name Hne Hsep. unfold check_file_path.
    replace (String.eqb name EmptyString) with false.
    + rewrite (split_path_no_separator name Hsep). reflexivity.
    + symmetry. apply String.eqb_neq. exact Hne.
Qed.

Lemma check_file_path_cases_witness :
  check_file_path (fun dir => String.eqb dir "data")
    (Some ("data" ++ String "/" "frames.json")%string)
  = Some ("data" ++ String "/" "frames.json")%string /\
  check_file_path (fun dir => String.eqb dir "data")
    (Some (EmptyString ++ String "/" "frames.json")%string)
  = None /\
  check_file_path (fun dir => String.eqb dir "data") (Some "frames.json")
  = Some ("./json/" ++ "frames.json")%string.
Proof.
  destruct (check_file_path_cases (fun dir => String.eqb dir "data"))
    as [Hdir [Hbare _]].
  split; [apply (Hdir "data" "frames.json"); reflexivity|].
  split; [apply (Hdir EmptyString "frames.json"); reflexivity|].
  apply (Hbare "frames.json"); [discriminate | reflexivity].
Defined.

(** X11: whenever [write] returns, it hands to [json.dump] exactly the stored
    object that was named, with its ranges, and the target is the checked
    path of the argument or else the holder's output file; for any other
    object name, and for a named object that is absent, it raises. *)
Theorem write_outcomes (isdir : string -> bool) (self : FunctionRunner)
    (object_name : string) (out : option string) :
  (forall res,
     write isdir self object_name out = Ok res ->
     exists obj,
       res = Some (write_target isdir self out, obj) /\
       ((object_name = "computed_points" /\
         exists cp, computed_points self = Some cp /\
                    obj = WrittenPoints (pd_ranges cp) (pd_points cp)) \/
        (object_name = "animation_frames" /\
         exists fd, animation_frames self = Some fd /\
                    obj = WrittenFrames (fd_ranges fd) (fd_frames fd)))) /\
  (object_name <> "computed_points" -> object_name <> "animation_frames" ->
   write isdir self object_name out =
   Raise (Exception
            "A valid computed object's name needs to be specified in order to write it out to a file")).
Proof.
  unfold write, write_target. split.
  - intros res H.
    destruct (String.eqb object_name "computed_points") eqn:E1.
    + apply String.eqb_eq in E1.
      destruct (computed_points self) as [cp|]; [|discriminate].
      cbn [bind] in H. inversion H. eexists. split; [reflexivity|].
      left. split; [exact E1|]. exists cp. auto.
    + destruct (String.eqb object_name "animation_frames") eqn:E2;
        [|discriminate].
      apply String.eqb_eq in E2.
      destruct (animation_frames self) as [fd|]; [|discriminate].
      cbn [bind] in H. inversion H. eexists. split; [reflexivity|].
      right. split; [exact E2|]. exists fd. auto.
  - intros H1 H2.
    apply String.eqb_neq in H1. apply String.eqb_neq in H2.
    rewrite H1, H2. reflexivity.
Qed.

Lemma write_outcomes_witness :
  (exists obj,
     Some (write_target (fun _ => false) runner_2d None,
           WrittenPoints [] (np_full [2; 3; 3] 1%R))
     = Some (write_target (fun _ => false) runner_2d None, obj)) /\
  write (fun _ => false) runner_2d "points" None =
  Raise (Exception
           "A valid computed object's name needs to be specified in order to write it out to a file").
Proof.
  destruct (write_outcomes (fun _ => false) runner_2d "computed_points" None)
    as [Hok _].
  destruct (write_outcomes (fun _ => false) runner_2d "points" None)
    as [_ Hbad].
  split.
  - destruct (Hok _ eq_refl) as [obj [Hres _]]. exists obj. exact Hres.
  - apply Hbad; discriminate.
Defined.

(** ** The QR factorisation *)

Local Open Scope R_scope.

Lemma mmul_assoc (m : nat) (A B C : Mat) (i j : nat) :
  mmul m (mmul m A B) C i j = mmul m A (mmul m B C) i j.
Proof.
  unfold mmul.
  rewrite (sum_n_ext m _
             (fun l => sum_n m (fun p => A i p * B p l * C l j))).
  2:{ intros l _. rewrite sum_n_scal_r. reflexivity. }
  rewrite sum_n_swap. apply sum_n_ext. intros p _.
  rewrite <- sum_n_scal_l. apply sum_n_ext. intros l _. ring.
Qed.

Lemma reflector_sym (m c : nat) (A : Mat) (i j : nat) :
  reflector m c A i j = reflector m c A j i.
Proof.
  unfold reflector, eye. rewrite (Nat.eqb_sym i j). ring.
Qed.

Lemma reflector_involutive (m c : nat) (A : Mat) (i j : nat) :
  (c < m)%nat -> (i < m)%nat -> (j < m)%nat ->
  mmul m (reflector m c A) (reflector m c A) i j = delta i j.
Proof.
  intros Hc Hi Hj. unfold mmul.
  rewrite <- (reflector_orthonormal m c A Hc i j Hi Hj).
  apply sum_n_ext. intros l _. rewrite (reflector_sym m c A i l). reflexivity.
Qed.

Lemma mmul_delta_l (m : nat) (X A : Mat) (i j : nat) :
  (i < m)%nat ->
  (forall l, (l < m)%nat -> X i l = delta i l) ->
  mmul m X A i j = A i j.
Proof.
  intros Hi HX. unfold mmul.
  rewrite (sum_n_ext m _ (fun l => delta i l * A l j)).
  - apply (sum_n_delta_l m i (fun l => A l j) Hi).
  - intros l Hl. rewrite HX by exact Hl. reflexivity.
Qed.

(** a reflector applied twice cancels, so the product [Q A] is kept *)
Lemma reflect_keeps_product (m c : nat) (Q A : Mat) (i j : nat) :
  (c < m)%nat -> (i < m)%nat ->
  mmul m (mmul m Q (reflector m c A)) (mmul m (reflector m c A) A) i j =
  mmul m Q A i j.
Proof.
  intros Hc Hi. set (H := reflector m c A).
  rewrite mmul_assoc. unfold mmul at 1. unfold mmul at 3.
  apply sum_n_ext. intros p Hp. f_equal.
  rewrite <- mmul_assoc.
  apply mmul_delta_l; [exact Hp|].
  intros l Hl. apply reflector_involutive; assumption.
Qed.

Lemma sum_n_all_zero (n : nat) (f : nat -> R) :
  (forall l, (l < n)%nat -> f l = 0) -> sum_n n f = 0.
Proof.
  intros H. rewrite (sum_n_ext n f (fun _ => 0) H). apply sum_n_zero.
Qed.

Lemma sum_n_nonneg_zero (n : nat) (f : nat -> R) :
  (forall l, 0 <= f l) -> sum_n n f = 0 ->
  forall l, (l < n)%nat -> f l = 0.
Proof.
  intros Hf. induction n as [|n IH]; intros Hs l Hl; [lia|].
  simpl in Hs. pose proof (sum_n_nonneg n f Hf) as Hn. pose proof (Hf n) as Hfn.
  destruct (Nat.eq_dec l n) as [->|Hne]; [lra|].
  apply IH; [lra | lia].
Qed.

Section ReflectorTriangular.
Variable m : nat.
Variable c : nat.
Variable A : Mat.
Hypothesis Hc : (c < m)%nat.

(** the inner product of the reflector's vector and column [j] *)
Lemma hh_v_dot_before (j : nat) :
(j < c)%nat -> zeros_below m c A ->
sum_n m (fun l => hh_v m c A l * A l j) = 0.
Proof.
intros Hj Hz. apply sum_n_all_zero. intros l Hl. unfold hh_v.
destruct (l <? c)%nat eqn:E; [lra|]. apply Nat.ltb_ge in E.
rewrite (Hz l j Hl Hj) by lia.
destruct (l =? c)%nat; lra.
Qed.

Lemma reflect_keeps_before (r j : nat) :
(r < m)%nat -> (j < c)%nat -> zeros_below m c A ->
mmul m (reflector m c A) A r j = A r j.
Proof.
intros Hr Hj Hz. unfold mmul, reflector.
rewrite (sum_n_ext m _
           (fun l => delta r l * A l j
                     - hh_tau m c A * hh_v m c A r
                       * (hh_v m c A l * A l j))).
2:{ intros l _. unfold eye, delta. ring. }
rewrite sum_n_minus, sum_n_scal_l.
rewrite_beta (sum_n_delta_l m r (fun l => A l j) Hr).
rewrite (hh_v_dot_before j Hj Hz). ring.
Qed.

Lemma hh_v_dot_own :
sum_n m (fun l => hh_v m c A l * A l c) =
hh_alpha c A + hh_below m c A / (hh_alpha c A - hh_beta m c A).
Proof.
set (d := hh_alpha c A - hh_beta m c A).
rewrite (sum_n_ext m _
           (fun l => delta c l * A l c
                     + (if (c <? l)%nat then A l c * A l c else 0) * / d)).
- rewrite sum_n_plus.
  rewrite_beta (sum_n_delta_l m c (fun l => A l c) Hc).
  rewrite (sum_n_scal_r m (/ d)
             (fun l => if (c <? l)%nat then A l c * A l c else 0)).
  reflexivity.
- intros l _. unfold hh_v, delta. fold d.
  destruct (l <? c)%nat eqn:E1.
  + apply Nat.ltb_lt in E1.
    replace (c =? l)%nat with false by (symmetry; apply Nat.eqb_neq; lia).
    replace (c <? l)%nat with false by (symmetry; apply Nat.ltb_ge; lia).
    lra.
  + apply Nat.ltb_ge in E1. destruct (l =? c)%nat eqn:E2.
    * apply Nat.eqb_eq in E2. subst l. rewrite Nat.eqb_refl, Nat.ltb_irrefl.
      lra.
    * apply Nat.eqb_neq in E2.
      replace (c =? l)%nat with false by (symmetry; apply Nat.eqb_neq; lia).
      replace (c <? l)%nat with true by (symmetry; apply Nat.ltb_lt; lia).
      unfold Rdiv. ring.
Qed.

(** the reflector of column [c] clears the column below the diagonal *)
Lemma reflect_clears_column (r : nat) :
(r < m)%nat -> (c < r)%nat ->
mmul m (reflector m c A) A r c = 0.
Proof.
intros Hr Hcr. unfold mmul, reflector.
rewrite (sum_n_ext m _
           (fun l => delta r l * A l c
                     - hh_tau m c A * hh_v m c A r
                       * (hh_v m c A l * A l c))).
2:{ intros l _. unfold eye, delta. ring. }
rewrite sum_n_minus, sum_n_scal_l.
rewrite_beta (sum_n_delta_l m r (fun l => A l c) Hr).
rewrite hh_v_dot_own. unfold hh_tau.
destruct (Req_dec_T (hh_xnorm m c A) 0) as [Hx|Hx].
- assert (Hb : hh_below m c A = 0).
  { rewrite <- (hh_xnorm_sq m c A). rewrite Hx. ring. }
  assert (Hz : (if (c <? r)%nat then A r c * A r c else 0) = 0).
  { apply (sum_n_nonneg_zero m
             (fun l => if (c <? l)%nat then A l c * A l c else 0));
      [| exact Hb | exact Hr].
    intros l. destruct (c <? l)%nat; [apply Rle_0_sqr | lra]. }
  replace (c <? r)%nat with true in Hz by (symmetry; apply Nat.ltb_lt; lia).
  assert (A r c = 0) by nra. lra.
- pose proof (hh_beta_nonzero m c A Hx) as Hb.
  pose proof (hh_alpha_beta m c A Hx) as Hab.
  pose proof (hh_beta_sq m c A) as Hsq.
  replace (hh_below m c A)
    with (hh_beta m c A * hh_beta m c A - hh_alpha c A * hh_alpha c A) by lra.
  unfold hh_v.
  replace (r <? c)%nat with false by (symmetry; apply Nat.ltb_ge; lia).
  replace (r =? c)%nat with false by (symmetry; apply Nat.eqb_neq; lia).
  fold (hh_alpha c A). field. split; assumption.
Qed.

Lemma reflect_zeros_below :
zeros_below m c A ->
zeros_below m (S c) (mmul m (reflector m c A) A).
Proof.
intros Hz r j Hr Hj Hjr.
destruct (Nat.eq_dec j c) as [->|Hne].
- apply reflect_clears_column; assumption.
- rewrite reflect_keeps_before by (assumption || lia).
  apply Hz; lia.
Qed.
End ReflectorTriangular.

Lemma hh_loop_factorises (m : nat) (A0 : Mat) (len : nat) :
  forall c0 A Q,
    (c0 + len <= m)%nat ->
    (forall i j, (i < m)%nat -> mmul m Q A i j = A0 i j) ->
    zeros_below m c0 A ->
    (forall i j, (i < m)%nat ->
       mmul m (hh_loop m (seq c0 len) A Q) (hh_R m (seq c0 len) A) i j
       = A0 i j) /\
    zeros_below m (c0 + len) (hh_R m (seq c0 len) A).
Proof.
  induction len as [|len IH]; intros c0 A Q Hlen Hprod Hz.
  - simpl. rewrite Nat.add_0_r. auto.
  - simpl seq. simpl hh_loop. simpl hh_R.
    replace (c0 + S len)%nat with (S c0 + len)%nat by lia.
    apply IH.
    + lia.
    + intros i j Hi. rewrite reflect_keeps_product by (assumption || lia).
      apply Hprod. exact Hi.
    + apply reflect_zeros_below; [lia | exact Hz].
Qed.

(** [A = Q R] with [R] upper triangular *)
Lemma qr_factorises (k : nat) (A : Mat) :
  (forall r j, (r < k)%nat -> (j < k)%nat -> (j < r)%nat -> qr_R k k A r j = 0) /\
  (forall i j, (i < k)%nat ->
     mmul k (qr_Q k k A) (qr_R k k A) i j = A i j).
Proof.
  unfold qr_Q, qr_R. rewrite Nat.min_id.
  destruct (hh_loop_factorises k A k 0 A eye) as [Hprod Hz].
  - lia.
  - intros i j Hi. apply mmul_delta_l; [exact Hi|]. intros l _. reflexivity.
  - intros r j _ Hj. lia.
  - split; [|exact Hprod]. intros r j Hr Hj Hjr. apply Hz; assumption.
Qed.

Local Close Scope R_scope.

(** ** The swept vectors and their orthonormal frames *)

Lemma sum_n_truncate (n m : nat) (f : nat -> R) :
  m <= n -> (forall p, m <= p -> p < n -> f p = 0%R) ->
  sum_n n f = sum_n m f.
Proof.
  intros Hmn. induction n as [|n IH]; intros Hz.
  - replace m with 0 by lia. reflexivity.
  - destruct (Nat.eq_dec m (S n)) as [->|Hne]; [reflexivity|].
    simpl. rewrite IH by (try lia; intros p H1 H2; apply Hz; lia).
    rewrite (Hz n) by lia. lra.
Qed.

Lemma at_code_vectors (basis : list (list R)) (rb : rotate_basis_spec)
    (r c f : nat) :
  r < length basis -> c < length basis -> f < rb_segments rb + 1 ->
  at_ (code_vectors basis rb) [r; c; f] = code_vector basis rb r c f.
Proof.
  intros Hr Hc Hf. unfold code_vectors. rewrite at_tabulate by bounds.
  reflexivity.
Qed.

Lemma at_code_orthonormals (basis : list (list R)) (rb : rotate_basis_spec)
    (r c f : nat) :
  r < length basis -> c < length basis -> f < rb_segments rb + 1 ->
  at_ (code_orthonormals basis rb) [r; c; f] =
  qr_Q (length basis) (length basis)
    (mat_of (frame_array (length basis) (code_vectors basis rb) f)) r c.
Proof.
  intros Hr Hc Hf. unfold code_orthonormals. rewrite at_tabulate by bounds.
  reflexivity.
Qed.

Lemma mat_of_frame_array (k : nat) (a : ndarray) (f r c : nat) :
  r < k -> c < k ->
  mat_of (frame_array k a f) r c = at_ a [r; c; f].
Proof.
  intros Hr Hc. unfold mat_of, frame_array. rewrite at_tabulate by bounds.
  reflexivity.
Qed.

(** X12: with the flag set, every vector [c] of every frame of the vector
    set is a linear combination of the orthonormal vectors [0 .. c] of the
    same frame, with coefficients that do not depend on the coordinate: the
    orthonormal frame is a triangular (Gram-Schmidt) factor of the rotated
    basis. *)
Theorem generate_orthonormal_bases_triangular (basis : list (list R))
    (rb : rotate_basis_spec) :
  sweepable basis rb ->
  exists O V,
    generate_orthonormal_bases basis rb true = Ok (OrthonormalsAndVectors O V)
    /\
    forall f, f < rb_segments rb + 1 ->
      exists Rm : Mat,
        forall r c, r < length basis -> c < length basis ->
          at_ V [r; c; f] =
          sum_n (S c) (fun p => (at_ O [r; p; f] * Rm p c)%R).
Proof.
  intros (Hsq & Hrv & e0 & e1 & rest & Hre & He0 & He1).
  exists (code_orthonormals basis rb), (code_vectors basis rb). split.
  - rewrite (generate_orthonormal_bases_ok basis rb true e0 e1 rest
               Hsq Hrv Hre He0 He1). reflexivity.
  - intros f Hf.
    set (k := length basis).
    set (A := mat_of (frame_array k (code_vectors basis rb) f)).
    destruct (qr_factorises k A) as [Htri Hprod].
    exists (qr_R k k A). intros r c Hr Hc.
    rewrite <- (mat_of_frame_array k (code_vectors basis rb) f r c Hr Hc).
    fold A. rewrite <- (Hprod r c Hr). unfold mmul.
    rewrite (sum_n_truncate k (S c)).
    + apply sum_n_ext. intros p Hp.
      rewrite at_code_orthonormals by (fold k; lia). reflexivity.
    + lia.
    + intros p H1 H2. rewrite (Htri p c) by lia. lra.
Qed.

Lemma generate_orthonormal_bases_triangular_witness :
  exists O V,
    generate_orthonormal_bases basis2 quarter_turn true =
      Ok (OrthonormalsAndVectors O V)
    /\
    forall f, f < rb_segments quarter_turn + 1 ->
      exists Rm : Mat,
        forall r c, r < length basis2 -> c < length basis2 ->
          at_ V [r; c; f] =
          sum_n (S c) (fun p => (at_ O [r; p; f] * Rm p c)%R).
Proof.
  apply (generate_orthonormal_bases_triangular basis2 quarter_turn).
  split; [reflexivity|]. split; [simpl; lia|].
  exists 0, 1, []. split; [reflexivity|]. simpl. lia.
Defined.

Lemma code_transform_unlisted (rb : rotate_basis_spec) (e0 e1 : nat)
    (rest : list nat) (r l f : nat) :
  rotate_elements rb = e0 :: e1 :: rest ->
  r <> e0 -> r <> e1 ->
  code_transform rb r l f =
  if existsb (Nat.eqb r) rest then 0%R else delta r l.
Proof.
  intros Hre H0 H1. unfold code_transform, delta. rewrite Hre. cbn [nth existsb].
  replace (r =? e0) with false by (symmetry; apply Nat.eqb_neq; exact H0).
  replace (r =? e1) with false by (symmetry; apply Nat.eqb_neq; exact H1).
  cbn [andb orb].
  destruct (existsb (Nat.eqb r) rest); destruct (r =? l); reflexivity.
Qed.

(** X13: whatever the list of elements to rotate, the vectors other than
    the designated one are those of the basis in every frame, and so are the
    coordinates of the designated vector that the list does not name; a
    coordinate named after the first two of the list is set to zero in every
    frame. *)
Theorem generate_orthonormal_bases_listed_elements (basis : list (list R))
    (rb : rotate_basis_spec) (e0 e1 : nat) (rest : list nat) :
  square_basis (length basis) basis = true ->
  rotate_vector rb < length basis ->
  rotate_elements rb = e0 :: e1 :: rest ->
  e0 < length basis -> e1 < length basis ->
  exists O V,
    generate_orthonormal_bases basis rb true = Ok (OrthonormalsAndVectors O V)
    /\
    forall f r, f < rb_segments rb + 1 -> r < length basis ->
      (forall c, c < length basis -> c <> rotate_vector rb ->
         at_ V [r; c; f] = basis_columns basis r c) /\
      (~ In r (rotate_elements rb) ->
         at_ V [r; rotate_vector rb; f] =
         basis_columns basis r (rotate_vector rb)) /\
      (In r rest -> r <> e0 -> r <> e1 ->
         at_ V [r; rotate_vector rb; f] = 0%R).
Proof.
  intros Hsq Hrv Hre He0 He1.
  exists (code_orthonormals basis rb), (code_vectors basis rb). split.
  - rewrite (generate_orthonormal_bases_ok basis rb true e0 e1 rest
               Hsq Hrv Hre He0 He1). reflexivity.
  - intros f r Hf Hr. repeat split.
    + intros c Hc Hne. rewrite at_code_vectors by assumption.
      unfold code_vector.
      replace (c =? rotate_vector rb) with false
        by (symmetry; apply Nat.eqb_neq; exact Hne).
      reflexivity.
    + intros Hnot. rewrite at_code_vectors by assumption.
      unfold code_vector. rewrite Nat.eqb_refl.
      rewrite Hre in Hnot.
      assert (H0 : r <> e0) by (intros ->; apply Hnot; left; reflexivity).
      assert (H1 : r <> e1)
        by (intros ->; apply Hnot; right; left; reflexivity).
      assert (Hex : existsb (Nat.eqb r) rest = false).
      { destruct (existsb (Nat.eqb r) rest) eqn:E; [|reflexivity].
        apply existsb_exists in E. destruct E as (x & Hin & Hx).
        apply Nat.eqb_eq in Hx. subst x.
        exfalso. apply Hnot. right. right. exact Hin. }
      rewrite (sum_n_ext (length basis) _
                 (fun l => (delta r l
                            * basis_columns basis l (rotate_vector rb))%R)).
      * apply (sum_n_delta_l (length basis) r
                 (fun l => basis_columns basis l (rotate_vector rb)) Hr).
      * intros l _.
        rewrite (code_transform_unlisted rb e0 e1 rest r l f Hre H0 H1).
        rewrite Hex. reflexivity.
    + intros Hin H0 H1. rewrite at_code_vectors by assumption.
      unfold code_vector. rewrite Nat.eqb_refl.
      assert (Hex : existsb (Nat.eqb r) rest = true).
      { apply existsb_exists. exists r. split; [exact Hin|].
        apply Nat.eqb_refl. }
      rewrite (sum_n_ext (length basis) _ (fun _ => 0%R)).
      * apply sum_n_zero.
      * intros l _.
        rewrite (code_transform_unlisted rb e0 e1 rest r l f Hre H0 H1).
        rewrite Hex. lra.
Qed.

Lemma generate_orthonormal_bases_listed_elements_witness :
  exists O V,
    generate_orthonormal_bases basis3 three_listed true =
      Ok (OrthonormalsAndVectors O V)
    /\
    forall f r, f < rb_segments three_listed + 1 -> r < length basis3 ->
      (forall c, c < length basis3 -> c <> rotate_vector three_listed ->
         at_ V [r; c; f] = basis_columns basis3 r c) /\
      (~ In r (rotate_elements three_listed) ->
         at_ V [r; rotate_vector three_listed; f] =
         basis_columns basis3 r (rotate_vector three_listed)) /\
      (In r [2] -> r <> 0 -> r <> 1 ->
         at_ V [r; rotate_vector three_listed; f] = 0%R).
Proof.
  apply (generate_orthonormal_bases_listed_elements basis3 three_listed 0 1 [2]).
  - reflexivity.
  - simpl. lia.
  - reflexivity.
  - simpl. lia.
  - simpl. lia.
Defined.

Local Open Scope R_scope.

Lemma code_transform_deltas (rb : rotate_basis_spec) (e0 e1 r l f : nat) :
  rotate_elements rb = [e0; e1] -> e0 <> e1 ->
  code_transform rb r l f =
  delta r l
  + (delta r e0
       * (cos (theta (rb_min rb) (rb_max rb) (rb_segments rb) f) - 1)
     + delta r e1 * sin (theta (rb_min rb) (rb_max rb) (rb_segments rb) f))
    * delta l e0
  + (delta r e1
       * (cos (theta (rb_min rb) (rb_max rb) (rb_segments rb) f) - 1)
     - delta r e0 * sin (theta (rb_min rb) (rb_max rb) (rb_segments rb) f))
    * delta l e1.
Proof.
  intros Hre Hne. unfold code_transform, delta. rewrite Hre. cbn [nth existsb].
  destruct (Nat.eqb_spec r e0); destruct (Nat.eqb_spec r e1);
    destruct (Nat.eqb_spec l e0); destruct (Nat.eqb_spec l e1);
    destruct (Nat.eqb_spec r l); cbn [andb orb negb];
    try (exfalso; lia); ring.
Qed.

Lemma sum_n_three (n r e0 e1 : nat) (u v : R) (b : nat -> R) :
  (r < n)%nat -> (e0 < n)%nat -> (e1 < n)%nat ->
  sum_n n (fun l => (delta r l + u * delta l e0 + v * delta l e1) * b l) =
  b r + u * b e0 + v * b e1.
Proof.
  intros Hr H0 H1.
  rewrite (sum_n_ext n _
             (fun l => delta r l * b l
                       + (u * (b l * delta l e0) + v * (b l * delta l e1)))).
  2:{ intros l _. ring. }
  rewrite sum_n_plus, sum_n_plus, sum_n_scal_l, sum_n_scal_l.
  rewrite_beta (sum_n_delta_l n r b Hr).
  rewrite_beta (sum_n_delta_r n e0 b H0).
  rewrite_beta (sum_n_delta_r n e1 b H1).
  ring.
Qed.

(** the rotated vector in closed form *)
Lemma code_vector_rotated_closed (basis : list (list R))
    (rb : rotate_basis_spec) (e0 e1 r f : nat) :
  rotate_elements rb = [e0; e1] -> e0 <> e1 ->
  (r < length basis)%nat -> (e0 < length basis)%nat ->
  (e1 < length basis)%nat ->
  code_vector basis rb r (rotate_vector rb) f =
  basis_columns basis r (rotate_vector rb)
  + delta r e0
    * ((cos (theta (rb_min rb) (rb_max rb) (rb_segments rb) f) - 1)
         * basis_columns basis e0 (rotate_vector rb)
       - sin (theta (rb_min rb) (rb_max rb) (rb_segments rb) f)
         * basis_columns basis e1 (rotate_vector rb))
  + delta r e1
    * (sin (theta (rb_min rb) (rb_max rb) (rb_segments rb) f)
         * basis_columns basis e0 (rotate_vector rb)
       + (cos (theta (rb_min rb) (rb_max rb) (rb_segments rb) f) - 1)
         * basis_columns basis e1 (rotate_vector rb)).
Proof.
  intros Hre Hne Hr H0 H1. unfold code_vector. rewrite Nat.eqb_refl.
  set (t := theta (rb_min rb) (rb_max rb) (rb_segments rb) f).
  set (b := fun l => basis_columns basis l (rotate_vector rb)).
  rewrite (sum_n_ext (length basis) _
             (fun l => (delta r l
                        + (delta r e0 * (cos t - 1) + delta r e1 * sin t)
                          * delta l e0
                        + (delta r e1 * (cos t - 1) - delta r e0 * sin t)
                          * delta l e1) * b l)).
  2:{ intros l _. rewrite (code_transform_deltas rb e0 e1 r l f Hre Hne).
      reflexivity. }
  rewrite (sum_n_three (length basis) r e0 e1 _ _ b Hr H0 H1).
  unfold b. ring.
Qed.

Lemma delta_cases (r e0 e1 : nat) :
  e0 <> e1 ->
  (delta r e0 = 0 /\ delta r e1 = 0) \/
  (delta r e0 = 1 /\ delta r e1 = 0) \/
  (delta r e0 = 0 /\ delta r e1 = 1).
Proof.
  intros Hne. unfold delta.
  destruct (Nat.eqb_spec r e0); destruct (Nat.eqb_spec r e1);
    try (exfalso; lia); auto.
Qed.

Lemma rotated_norm (n e0 e1 : nat) (t : R) (b : nat -> R) :
  e0 <> e1 -> (e0 < n)%nat -> (e1 < n)%nat ->
  sum_n n (fun r =>
             (b r + delta r e0 * ((cos t - 1) * b e0 - sin t * b e1)
                  + delta r e1 * (sin t * b e0 + (cos t - 1) * b e1))
             * (b r + delta r e0 * ((cos t - 1) * b e0 - sin t * b e1)
                    + delta r e1 * (sin t * b e0 + (cos t - 1) * b e1))) =
  sum_n n (fun r => b r * b r).
Proof.
  intros Hne H0 H1.
  set (A := (cos t - 1) * b e0 - sin t * b e1).
  set (B := sin t * b e0 + (cos t - 1) * b e1).
  rewrite (sum_n_ext n _
             (fun r => b r * b r
                       + ((2 * b r * A + A * A) * delta r e0
                          + (2 * b r * B + B * B) * delta r e1))).
  2:{ intros r _.
      destruct (delta_cases r e0 e1 Hne) as [[-> ->]|[[-> ->]|[-> ->]]]; ring. }
  rewrite sum_n_plus, sum_n_plus.
  rewrite_beta (sum_n_delta_r n e0 (fun r => 2 * b r * A + A * A) H0).
  rewrite_beta (sum_n_delta_r n e1 (fun r => 2 * b r * B + B * B) H1).
  assert (HH : sin t * sin t + cos t * cos t = 1).
  { pose proof (sin2_cos2 t) as H. unfold Rsqr in H. exact H. }
  replace (2 * b e0 * A + A * A + (2 * b e1 * B + B * B))
    with ((sin t * sin t + cos t * cos t - 1) * (b e0 * b e0 + b e1 * b e1))
    by (unfold A, B; ring).
  rewrite HH. ring.
Qed.

Local Close Scope R_scope.

(** X14: when the two elements to rotate are distinct, the rotation keeps
    the length of the designated vector: in every frame of the vector set
    the squares of its coordinates sum to what they sum to in the basis. *)
Theorem generate_orthonormal_bases_keeps_norm (basis : list (list R))
    (rb : rotate_basis_spec) (e0 e1 : nat) :
  square_basis (length basis) basis = true ->
  rotate_vector rb < length basis ->
  rotate_elements rb = [e0; e1] ->
  e0 < length basis -> e1 < length basis -> e0 <> e1 ->
  exists O V,
    generate_orthonormal_bases basis rb true = Ok (OrthonormalsAndVectors O V)
    /\
    forall f, f < rb_segments rb + 1 ->
      sum_n (length basis)
        (fun r => (at_ V [r; rotate_vector rb; f]
                   * at_ V [r; rotate_vector rb; f])%R) =
      sum_n (length basis)
        (fun r => (basis_columns basis r (rotate_vector rb)
                   * basis_columns basis r (rotate_vector rb))%R).
Proof.
  intros Hsq Hrv Hre He0 He1 Hne.
  exists (code_orthonormals basis rb), (code_vectors basis rb). split.
  - rewrite (generate_orthonormal_bases_ok basis rb true e0 e1 []
               Hsq Hrv Hre He0 He1). reflexivity.
  - intros f Hf.
    rewrite <- (rotated_norm (length basis) e0 e1
                  (theta (rb_min rb) (rb_max rb) (rb_segments rb) f)
                  (fun r => basis_columns basis r (rotate_vector rb))
                  Hne He0 He1).
    apply sum_n_ext. intros r Hr.
    rewrite at_code_vectors by assumption.
    rewrite (code_vector_rotated_closed basis rb e0 e1 r f Hre Hne Hr He0 He1).
    reflexivity.
Qed.

Lemma generate_orthonormal_bases_keeps_norm_witness :
  exists O V,
    generate_orthonormal_bases basis2 quarter_turn true =
      Ok (OrthonormalsAndVectors O V)
    /\
    forall f, f < rb_segments quarter_turn + 1 ->
      sum_n (length basis2)
        (fun r => (at_ V [r; rotate_vector quarter_turn; f]
                   * at_ V [r; rotate_vector quarter_turn; f])%R) =
      sum_n (length basis2)
        (fun r => (basis_columns basis2 r (rotate_vector quarter_turn)
                   * basis_columns basis2 r (rotate_vector quarter_turn))%R).
Proof.
  apply (generate_orthonormal_bases_keeps_norm basis2 quarter_turn 0 1).
  - reflexivity.
  - simpl. lia.
  - reflexivity.
  - simpl. lia.
  - simpl. lia.
  - discriminate.
Defined.

Lemma planar_rotation_zero (e0 e1 a b : nat) :
  planar_rotation e0 e1 0 a b = eye a b.
Proof.
  unfold planar_rotation, eye. rewrite cos_0, sin_0, Ropp_0.
  destruct (Nat.eqb_spec a e0); destruct (Nat.eqb_spec a e1);
    destruct (Nat.eqb_spec b e0); destruct (Nat.eqb_spec b e1);
    destruct (Nat.eqb_spec a b); cbn [andb];
    try (exfalso; lia); reflexivity.
Qed.

(** X15: a frame whose angle is zero holds the basis itself: with two
    elements to rotate, every vector of such a frame of the vector set is the
    vector of the basis, and the first frame is such a frame when the sweep
    starts at angle zero. *)
Theorem generate_orthonormal_bases_zero_angle (basis : list (list R))
    (rb : rotate_basis_spec) (e0 e1 : nat) :
  square_basis (length basis) basis = true ->
  rotate_vector rb < length basis ->
  rotate_elements rb = [e0; e1] ->
  e0 < length basis -> e1 < length basis ->
  exists O V,
    generate_orthonormal_bases basis rb true = Ok (OrthonormalsAndVectors O V)
    /\
    (forall f r c, f < rb_segments rb + 1 ->
       r < length basis -> c < length basis ->
       theta (rb_min rb) (rb_max rb) (rb_segments rb) f = 0%R ->
       at_ V [r; c; f] = basis_columns basis r c) /\
    (rb_min rb = 0%R ->
     forall r c, r < length basis -> c < length basis ->
       at_ V [r; c; 0] = basis_columns basis r c).
Proof.
  intros Hsq Hrv Hre He0 He1.
  exists (code_orthonormals basis rb), (code_vectors basis rb).
  assert (Hzero : forall f r c, f < rb_segments rb + 1 ->
            r < length basis -> c < length basis ->
            theta (rb_min rb) (rb_max rb) (rb_segments rb) f = 0%R ->
            at_ (code_vectors basis rb) [r; c; f] = basis_columns basis r c).
  { intros f r c Hf Hr Hc Ht. rewrite at_code_vectors by assumption.
    unfold code_vector. destruct (Nat.eqb_spec c (rotate_vector rb)) as [->|_];
      [|reflexivity].
    rewrite (sum_n_ext (length basis) _
               (fun l => (delta r l
                          * basis_columns basis l (rotate_vector rb))%R)).
    - apply (sum_n_delta_l (length basis) r
               (fun l => basis_columns basis l (rotate_vector rb)) Hr).
    - intros l _. rewrite (code_transform_planar rb e0 e1 r l f Hre).
      rewrite Ht, planar_rotation_zero. reflexivity. }
  split; [|split].
  - rewrite (generate_orthonormal_bases_ok basis rb true e0 e1 []
               Hsq Hrv Hre He0 He1). reflexivity.
  - exact Hzero.
  - intros Hmin r c Hr Hc. apply Hzero; try assumption; [lia|].
    rewrite theta_first. exact Hmin.
Qed.

Lemma generate_orthonormal_bases_zero_angle_witness :
  exists O V,
    generate_orthonormal_bases basis2 quarter_turn true =
      Ok (OrthonormalsAndVectors O V)
    /\
    (forall f r c, f < rb_segments quarter_turn + 1 ->
       r < length basis2 -> c < length basis2 ->
       theta (rb_min quarter_turn) (rb_max quarter_turn)
         (rb_segments quarter_turn) f = 0%R ->
       at_ V [r; c; f] = basis_columns basis2 r c) /\
    (rb_min quarter_turn = 0%R ->
     forall r c, r < length basis2 -> c < length basis2 ->
       at_ V [r; c; 0] = basis_columns basis2 r c).
Proof.
  apply (generate_orthonormal_bases_zero_angle basis2 quarter_turn 0 1).
  - reflexivity.
  - simpl. lia.
  - reflexivity.
  - simpl. lia.
  - simpl. lia.
Defined.

(** ** The field-function classes *)

Lemma c_at_tabulate (sh : list nat) (f : list nat -> complex)
    (ix : list nat) :
  in_bounds sh ix -> c_at (c_tabulate sh f) ix = f ix.
Proof.
  intros Hb. unfold c_at, c_tabulate. cbn [np_real np_imag].
  rewrite !at_tabulate by exact Hb. destruct (f ix). reflexivity.
Qed.

Lemma c_tabulate_ext (sh : list nat) (f g : list nat -> complex) :
  (forall ix, in_bounds sh ix -> f ix = g ix) ->
  c_tabulate sh f = c_tabulate sh g.
Proof.
  intros H. unfold c_tabulate.
  f_equal; apply tabulate_ext; intros ix Hb; rewrite (H ix Hb); reflexivity.
Qed.

Lemma complex_grid_same_shape (x y : ndarray) (sh : list nat) :
  nd_shape x = sh -> nd_shape y = sh ->
  complex_grid x y = Ok (c_tabulate sh (fun ix => (at_ x ix, at_ y ix))).
Proof.
  intros Hx Hy. unfold complex_grid.
  rewrite Hx, Hy, bc_shape_rev_refl, rev_involutive.
  f_equal. apply c_tabulate_ext. intros ix Hb.
  rewrite bc_index_same by exact Hb.
  unfold c_add, c_mul, c_real, c_j. cbn [fst snd]. f_equal; ring.
Qed.

Lemma for_each_iterates {A S : Type} (g : S -> S) (xs : list A) :
  forall s,
    for_each xs (fun _ s => Ok (g s)) s = Ok (Nat.iter (length xs) g s).
Proof.
  induction xs as [|x xs IH]; intros s; [reflexivity|].
  cbn [for_each bind length]. rewrite IH.
  rewrite Nat.iter_succ_r. reflexivity.
Qed.

Lemma escape_step_iterates (bailout : R) (sh : list nat)
    (cf : list nat -> complex) (n : nat) :
  Nat.iter n (escape_step bailout (c_tabulate sh cf))
    (c_tabulate sh (fun _ => (0%R, 0%R))) =
  c_tabulate sh (fun ix => orbit bailout (cf ix) n).
Proof.
  induction n as [|n IH]; [reflexivity|].
  cbn [Nat.iter nat_rect]. unfold Nat.iter in IH. rewrite IH.
  unfold escape_step. apply c_tabulate_ext. intros ix Hb.
  rewrite !c_at_tabulate by exact Hb. reflexivity.
Qed.

Lemma escape_loop_orbit (bailout : R) (n : nat) (x y : ndarray)
    (sh : list nat) :
  nd_shape x = sh -> nd_shape y = sh ->
  escape_loop bailout n [x; y] =
  Ok (Some (c_tabulate sh (fun ix => orbit bailout (at_ x ix, at_ y ix) n))).
Proof.
  intros Hx Hy. unfold escape_loop. cbn [length Nat.eqb nth].
  rewrite (complex_grid_same_shape x y sh Hx Hy). cbn [bind].
  rewrite for_each_iterates. cbn [bind]. unfold range. rewrite length_seq.
  change (c_shape (c_tabulate sh (fun ix => (at_ x ix, at_ y ix)))) with sh.
  rewrite escape_step_iterates. reflexivity.
Qed.


(** a halted orbit stays where it is *)
Lemma orbit_halted (bailout : R) (c : complex) (n m : nat) :
  (c_abs (orbit bailout c n) >= bailout)%R ->
  orbit bailout c (n + m) = orbit bailout c n.
Proof.
  intros H. induction m as [|m IH].
  - rewrite Nat.add_0_r. reflexivity.
  - rewrite Nat.add_succ_r. cbn [orbit]. rewrite IH.
    destruct (Rlt_dec (c_abs (orbit bailout c n)) bailout); [lra | reflexivity].
Qed.

(** X16: called with two arrays of one shape, [mandelbrotWithLastBailout]
    returns two arrays of that shape, the real and the imaginary parts of
    the orbit of zero under [z -> z * z + c] at every point [c] of the grid,
    followed for [iterations_max] steps and halted at the first point whose
    modulus reaches [bailout]. *)
Theorem mandelbrotWithLastBailout_orbit (self : mandelbrotWithLastBailout.t)
    (x y : ndarray) (sh : list nat) :
  nd_shape x = sh -> nd_shape y = sh ->
  exists re im,
    mandelbrotWithLastBailout.compute self [x; y] = Ok (Some [re; im]) /\
    nd_shape re = sh /\ nd_shape im = sh /\
    forall ix, in_bounds sh ix ->
      (at_ re ix, at_ im ix) =
      orbit (mandelbrotWithLastBailout.bailout self) (at_ x ix, at_ y ix)
        (mandelbrotWithLastBailout.iterations_max self).
Proof.
  intros Hx Hy. unfold mandelbrotWithLastBailout.compute.
  rewrite (escape_loop_orbit _ _ x y sh Hx Hy). cbn [bind real_imag].
  eexists. eexists. split; [reflexivity|].
  split; [reflexivity|]. split; [reflexivity|].
  intros ix Hb.
  apply (c_at_tabulate sh
           (fun ix => orbit (mandelbrotWithLastBailout.bailout self)
                        (at_ x ix, at_ y ix)
                        (mandelbrotWithLastBailout.iterations_max self))
           ix Hb).
Qed.

Lemma mandelbrotWithLastBailout_orbit_witness :
  exists re im,
    mandelbrotWithLastBailout.compute
      {| mandelbrotWithLastBailout.bailout := 2;
         mandelbrotWithLastBailout.iterations_max := 3 |}
      [sample_re; sample_im] = Ok (Some [re; im]) /\
    nd_shape re = [2; 2] /\ nd_shape im = [2; 2] /\
    forall ix, in_bounds [2; 2] ix ->
      (at_ re ix, at_ im ix) =
      orbit 2 (at_ sample_re ix, at_ sample_im ix) 3.
Proof.
  apply (mandelbrotWithLastBailout_orbit
           {| mandelbrotWithLastBailout.bailout := 2;
              mandelbrotWithLastBailout.iterations_max := 3 |}
           sample_re sample_im [2; 2]); reflexivity.
Defined.

(** X17: [mandelbrot] returns what [mandelbrotWithLastBailout] returns for
    the same bailout, iterations and arguments, but for the points whose
    modulus has reached the bailout, which come back as zero; so every point
    it returns is zero or of modulus below the bailout. *)
Theorem mandelbrot_clears_escaped (bailout : R) (iterations_max : nat)
    (x y : ndarray) (sh : list nat) :
  nd_shape x = sh -> nd_shape y = sh ->
  exists re im re' im',
    mandelbrotWithLastBailout.compute
      {| mandelbrotWithLastBailout.bailout := bailout;
         mandelbrotWithLastBailout.iterations_max := iterations_max |}
      [x; y] = Ok (Some [re'; im']) /\
    mandelbrot.compute
      {| mandelbrot.bailout := bailout;
         mandelbrot.iterations_max := iterations_max |}
      [x; y] = Ok (Some [re; im]) /\
    nd_shape re = sh /\ nd_shape im = sh /\
    forall ix, in_bounds sh ix ->
      ((c_abs (at_ re' ix, at_ im' ix) < bailout)%R ->
         (at_ re ix, at_ im ix) = (at_ re' ix, at_ im' ix)) /\
      ((c_abs (at_ re' ix, at_ im' ix) >= bailout)%R ->
         (at_ re ix, at_ im ix) = (0%R, 0%R)) /\
      ((at_ re ix, at_ im ix) = (0%R, 0%R) \/
       (c_abs (at_ re ix, at_ im ix) < bailout)%R).
Proof.
  intros Hx Hy.
  unfold mandelbrotWithLastBailout.compute, mandelbrot.compute.
  cbn [mandelbrotWithLastBailout.bailout
       mandelbrotWithLastBailout.iterations_max
       mandelbrot.bailout mandelbrot.iterations_max].
  rewrite (escape_loop_orbit bailout iterations_max x y sh Hx Hy).
  cbn [bind real_imag].
  set (orb := c_tabulate sh
                (fun ix => orbit bailout (at_ x ix, at_ y ix) iterations_max)).
  exists (np_real (clear_escaped bailout orb)),
         (np_imag (clear_escaped bailout orb)),
         (np_real orb), (np_imag orb).
  split; [reflexivity|]. split; [reflexivity|].
  split; [reflexivity|]. split; [reflexivity|].
  intros ix Hb.
  change (at_ (np_real orb) ix, at_ (np_imag orb) ix) with (c_at orb ix).
  change (at_ (np_real (clear_escaped bailout orb)) ix,
          at_ (np_imag (clear_escaped bailout orb)) ix)
    with (c_at (clear_escaped bailout orb) ix).
  unfold clear_escaped.
  change (c_shape orb) with sh.
  rewrite (c_at_tabulate sh
             (fun ix => if Rge_dec (c_abs (c_at orb ix)) bailout
                        then (0%R, 0%R) else c_at orb ix)
             ix Hb).
  destruct (Rge_dec (c_abs (c_at orb ix)) bailout) as [Hge|Hlt].
  - split; [intros; lra|]. split; [reflexivity|]. left. reflexivity.
  - split; [reflexivity|]. split; [intros; lra|]. right. lra.
Qed.

Lemma mandelbrot_clears_escaped_witness :
  exists re im re' im',
    mandelbrotWithLastBailout.compute
      {| mandelbrotWithLastBailout.bailout := 2;
         mandelbrotWithLastBailout.iterations_max := 3 |}
      [sample_re; sample_im] = Ok (Some [re'; im']) /\
    mandelbrot.compute
      {| mandelbrot.bailout := 2; mandelbrot.iterations_max := 3 |}
      [sample_re; sample_im] = Ok (Some [re; im]) /\
    nd_shape re = [2; 2] /\ nd_shape im = [2; 2] /\
    forall ix, in_bounds [2; 2] ix ->
      ((c_abs (at_ re' ix, at_ im' ix) < 2)%R ->
         (at_ re ix, at_ im ix) = (at_ re' ix, at_ im' ix)) /\
      ((c_abs (at_ re' ix, at_ im' ix) >= 2)%R ->
         (at_ re ix, at_ im ix) = (0%R, 0%R)) /\
      ((at_ re ix, at_ im ix) = (0%R, 0%R) \/
       (c_abs (at_ re ix, at_ im ix) < 2)%R).
Proof.
  apply (mandelbrot_clears_escaped 2 3 sample_re sample_im [2; 2]);
    reflexivity.
Defined.

(** X18: raising [iterations_max] never changes a point that has already
    halted: where the result of [mandelbrotWithLastBailout] after [n]
    iterations has modulus at least [bailout], the result after [n + m]
    iterations is the same point. *)
Theorem mandelbrotWithLastBailout_halted_points_stay (bailout : R)
    (n m : nat) (x y : ndarray) (sh : list nat) :
  nd_shape x = sh -> nd_shape y = sh ->
  exists re im re' im',
    mandelbrotWithLastBailout.compute
      {| mandelbrotWithLastBailout.bailout := bailout;
         mandelbrotWithLastBailout.iterations_max := n |}
      [x; y] = Ok (Some [re; im]) /\
    mandelbrotWithLastBailout.compute
      {| mandelbrotWithLastBailout.bailout := bailout;
         mandelbrotWithLastBailout.iterations_max := n + m |}
      [x; y] = Ok (Some [re'; im']) /\
    forall ix, in_bounds sh ix ->
      (c_abs (at_ re ix, at_ im ix) >= bailout)%R ->
      (at_ re' ix, at_ im' ix) = (at_ re ix, at_ im ix).
Proof.
  intros Hx Hy. unfold mandelbrotWithLastBailout.compute.
  cbn [mandelbrotWithLastBailout.bailout
       mandelbrotWithLastBailout.iterations_max].
  rewrite (escape_loop_orbit bailout n x y sh Hx Hy).
  rewrite (escape_loop_orbit bailout (n + m) x y sh Hx Hy).
  cbn [bind real_imag].
  eexists. eexists. eexists. eexists.
  split; [reflexivity|]. split; [reflexivity|].
  intros ix Hb.
  pose proof (c_at_tabulate sh
                (fun ix => orbit bailout (at_ x ix, at_ y ix) n) ix Hb) as E1.
  pose proof (c_at_tabulate sh
                (fun ix => orbit bailout (at_ x ix, at_ y ix) (n + m)) ix Hb)
    as E2.
  unfold c_at in E1, E2. cbv beta in E1, E2. rewrite E1, E2.
  intros H. apply orbit_halted. exact H.
Qed.

Lemma mandelbrotWithLastBailout_halted_points_stay_witness :
  exists re im re' im',
    mandelbrotWithLastBailout.compute
      {| mandelbrotWithLastBailout.bailout := 2;
         mandelbrotWithLastBailout.iterations_max := 3 |}
      [sample_re; sample_im] = Ok (Some [re; im]) /\
    mandelbrotWithLastBailout.compute
      {| mandelbrotWithLastBailout.bailout := 2;
         mandelbrotWithLastBailout.iterations_max := 3 + 4 |}
      [sample_re; sample_im] = Ok (Some [re'; im']) /\
    forall ix, in_bounds [2; 2] ix ->
      (c_abs (at_ re ix, at_ im ix) >= 2)%R ->
      (at_ re' ix, at_ im' ix) = (at_ re ix, at_ im ix).
Proof.
  apply (mandelbrotWithLastBailout_halted_points_stay 2 3 4
           sample_re sample_im [2; 2]); reflexivity.
Defined.



(** X20: with its default coefficients the class [complex_square] computes
    what the function [simple_complex_square] computes, on every list of
    arguments: the same arrays, the same [None], the same exception. *)
Theorem complex_square_default_is_simple (args : list ndarray) :
  complex_square.compute complex_square.default args =
  simple_complex_square args.
Proof.
  unfold complex_square.compute, simple_complex_square.
  destruct (length args =? 2); [|reflexivity].
  unfold complex_grid, nd_map2.
  destruct (bc_shape_rev (rev (nd_shape (nth 0 args (np_zeros []))))
              (rev (nd_shape (nth 1 args (np_zeros []))))) as [r|];
    [|reflexivity].
  cbn [bind]. unfold c_map.
  match goal with
  | |- context [c_shape (c_tabulate ?sh ?f)] =>
      change (c_shape (c_tabulate sh f)) with sh
  end.
  unfold c_tabulate at 1. cbn [np_real np_imag].
  do 3 f_equal.
  - apply tabulate_ext. intros ix Hb. rewrite c_at_tabulate by exact Hb.
    unfold complex_square.default, c_add, c_mul, c_real, c_j.
    cbn [fst snd complex_square.a complex_square.b complex_square.c]. ring.
  - f_equal. apply tabulate_ext. intros ix Hb.
    rewrite c_at_tabulate by exact Hb.
    unfold complex_square.default, c_add, c_mul, c_real, c_j.
    cbn [fst snd complex_square.a complex_square.b complex_square.c]. ring.
Qed.

(** X21: a [complex_cubic] without cubic term and without offset computes
    what the [complex_square] of its three other coefficients computes, on
    every list of arguments. *)
Theorem complex_cubic_without_cube (b c d : complex) (args : list ndarray) :
  complex_cubic.compute
    {| complex_cubic.a := c_real 0; complex_cubic.b := b;
       complex_cubic.c := c; complex_cubic.d := d;
       complex_cubic.offset := c_real 0 |} args =
  complex_square.compute
    {| complex_square.a := b; complex_square.b := c; complex_square.c := d |}
    args.
Proof.
  unfold complex_cubic.compute, complex_square.compute.
  destruct (length args =? 2); [|reflexivity].
  unfold complex_grid.
  destruct (bc_shape_rev (rev (nd_shape (nth 0 args (np_zeros []))))
              (rev (nd_shape (nth 1 args (np_zeros []))))) as [r|];
    [|reflexivity].
  cbn [bind]. unfold c_map.
  repeat match goal with
  | |- context [c_shape (c_tabulate ?sh ?f)] =>
      change (c_shape (c_tabulate sh f)) with sh
  end.
  cbn [complex_cubic.a complex_cubic.b complex_cubic.c complex_cubic.d
       complex_cubic.offset complex_square.a complex_square.b
       complex_square.c].
  assert (E : forall g : list nat -> complex,
            c_tabulate (rev r)
              (fun ix =>
                 c_add (c_add (c_add
                   (c_mul (c_real 0)
                      (c_mul (c_mul
                         (c_at (c_tabulate (rev r)
                                  (fun ix => c_sub (c_at (c_tabulate (rev r) g) ix)
                                               (c_real 0))) ix)
                         (c_at (c_tabulate (rev r)
                                  (fun ix => c_sub (c_at (c_tabulate (rev r) g) ix)
                                               (c_real 0))) ix))
                         (c_at (c_tabulate (rev r)
                                  (fun ix => c_sub (c_at (c_tabulate (rev r) g) ix)
                                               (c_real 0))) ix)))
                   (c_mul b
                      (c_mul
                         (c_at (c_tabulate (rev r)
                                  (fun ix => c_sub (c_at (c_tabulate (rev r) g) ix)
                                               (c_real 0))) ix)
                         (c_at (c_tabulate (rev r)
                                  (fun ix => c_sub (c_at (c_tabulate (rev r) g) ix)
                                               (c_real 0))) ix))))
                   (c_mul c
                      (c_at (c_tabulate (rev r)
                               (fun ix => c_sub (c_at (c_tabulate (rev r) g) ix)
                                            (c_real 0))) ix)))
                   d) =
            c_tabulate (rev r)
              (fun ix =>
                 c_add (c_add
                   (c_mul b (c_mul (c_at (c_tabulate (rev r) g) ix)
                                   (c_at (c_tabulate (rev r) g) ix)))
                   (c_mul c (c_at (c_tabulate (rev r) g) ix)))
                   d)).
  { intros g. apply c_tabulate_ext. intros ix Hb.
    rewrite (c_at_tabulate (rev r)
               (fun ix => c_sub (c_at (c_tabulate (rev r) g) ix) (c_real 0))
               ix Hb).
    destruct (c_at (c_tabulate (rev r) g) ix) as [u v].
    destruct b as [b1 b2]. destruct c as [c1 c2]. destruct d as [d1 d2].
    unfold c_add, c_mul, c_sub, c_real. cbn [fst snd]. f_equal; ring. }
  rewrite E. reflexivity.
Qed.

Lemma mandelbrot_cloud_stored (self : FunctionRunner)
    (m : mandelbrot.t) (rx ry : range_spec) :
  fn self = WithCompute (mandelbrot.compute m) ->
  compute_points self [rx; ry] =
  Ok (set_computed_points self
        {| pd_ranges := [rx; ry]; pd_points := mandelbrot_cloud m rx ry |}).
Proof.
  intros Hfn. unfold compute_points.
  change (build_coordinates [rx; ry])
    with (@Ok (option (list ndarray)) (Some [grid_x rx ry; grid_y rx ry])).
  cbn [bind]. rewrite Hfn. simpl call_fn.
  unfold mandelbrot.compute.
  rewrite (escape_loop_orbit _ _ (grid_x rx ry) (grid_y rx ry)
             [r_segments ry + 1; r_segments rx + 1] eq_refl eq_refl).
  cbn [bind real_imag].
  fold (mandelbrot_orbits m rx ry).
  rewrite (np_stack_same_shape _ [r_segments ry + 1; r_segments rx + 1]).
  - reflexivity.
  - discriminate.
  - repeat constructor.
Qed.

(** X22: for two ranges and a [mandelbrot] object as field function (an
    object with a [compute] method), [compute_points] stores a cloud of
    shape [(4, ny, nx)]: at the grid position (j, i) layers 0 and 1 hold the
    samples [x_i] and [y_j], layers 2 and 3 the real and the imaginary part
    of the halted orbit of [x_i + i y_j], or zero when the orbit has reached
    the bailout; so every stored output is zero or of modulus below the
    bailout. *)
Theorem compute_points_mandelbrot (self : FunctionRunner) (m : mandelbrot.t)
    (rx ry : range_spec) :
  fn self = WithCompute (mandelbrot.compute m) ->
  exists points,
    compute_points self [rx; ry] =
      Ok (set_computed_points self
            {| pd_ranges := [rx; ry]; pd_points := points |}) /\
    nd_shape points = [4; r_segments ry + 1; r_segments rx + 1] /\
    forall j i, j < r_segments ry + 1 -> i < r_segments rx + 1 ->
      let x := theta (r_min rx) (r_max rx) (r_segments rx) i in
      let y := theta (r_min ry) (r_max ry) (r_segments ry) j in
      let z := orbit (mandelbrot.bailout m) (x, y)
                 (mandelbrot.iterations_max m) in
      let out := (at_ points [2; j; i], at_ points [3; j; i]) in
      at_ points [0; j; i] = x /\
      at_ points [1; j; i] = y /\
      out = (if Rge_dec (c_abs z) (mandelbrot.bailout m)
             then (0%R, 0%R) else z) /\
      (out = (0%R, 0%R) \/ (c_abs out < mandelbrot.bailout m)%R).
Proof.
  intros Hfn. exists (mandelbrot_cloud m rx ry).
  split; [apply mandelbrot_cloud_stored; exact Hfn|].
  split; [reflexivity|].
  intros j i Hj Hi x y z out.
  assert (Hb : in_bounds [r_segments ry + 1; r_segments rx + 1] [j; i])
    by bounds.
  assert (Hx : at_ (grid_x rx ry) [j; i] = x)
    by (unfold grid_x; rewrite at_tabulate by exact Hb; reflexivity).
  assert (Hy : at_ (grid_y rx ry) [j; i] = y)
    by (unfold grid_y; rewrite at_tabulate by exact Hb; reflexivity).
  assert (Hz : c_at (mandelbrot_orbits m rx ry) [j; i] = z).
  { unfold mandelbrot_orbits.
    rewrite (c_at_tabulate [r_segments ry + 1; r_segments rx + 1]
               (fun ix => orbit (mandelbrot.bailout m)
                            (at_ (grid_x rx ry) ix, at_ (grid_y rx ry) ix)
                            (mandelbrot.iterations_max m)) [j; i] Hb).
    rewrite Hx, Hy. reflexivity. }
  assert (Hout : out =
                 (if Rge_dec (c_abs z) (mandelbrot.bailout m)
                  then (0%R, 0%R) else z)).
  { unfold out, mandelbrot_cloud. rewrite !at_tabulate by bounds.
    cbn [hd tl nth mandelbrot_layers].
    change (at_ (np_real (clear_escaped (mandelbrot.bailout m)
                            (mandelbrot_orbits m rx ry))) [j; i],
            at_ (np_imag (clear_escaped (mandelbrot.bailout m)
                            (mandelbrot_orbits m rx ry))) [j; i])
      with (c_at (clear_escaped (mandelbrot.bailout m)
                    (mandelbrot_orbits m rx ry)) [j; i]).
    unfold clear_escaped.
    change (c_shape (mandelbrot_orbits m rx ry))
      with [r_segments ry + 1; r_segments rx + 1].
    rewrite (c_at_tabulate [r_segments ry + 1; r_segments rx + 1]
               (fun ix =>
                  if Rge_dec (c_abs (c_at (mandelbrot_orbits m rx ry) ix))
                       (mandelbrot.bailout m)
                  then (0%R, 0%R) else c_at (mandelbrot_orbits m rx ry) ix)
               [j; i] Hb).
    rewrite Hz. reflexivity. }
  split.
  { unfold mandelbrot_cloud. rewrite at_tabulate by bounds.
    cbn [hd tl nth mandelbrot_layers]. exact Hx. }
  split.
  { unfold mandelbrot_cloud. rewrite at_tabulate by bounds.
    cbn [hd tl nth mandelbrot_layers]. exact Hy. }
  split; [exact Hout|].
  rewrite Hout.
  destruct (Rge_dec (c_abs z) (mandelbrot.bailout m)); [left; reflexivity|].
  right. lra.
Qed.

Lemma compute_points_mandelbrot_witness :
  exists points,
    compute_points
      (mandelbrot_runner
         {| mandelbrot.bailout := 2; mandelbrot.iterations_max := 3 |})
      [unit_range 2; unit_range 1] =
      Ok (set_computed_points
            (mandelbrot_runner
               {| mandelbrot.bailout := 2; mandelbrot.iterations_max := 3 |})
            {| pd_ranges := [unit_range 2; unit_range 1];
               pd_points := points |}) /\
    nd_shape points = [4; 2; 3] /\
    forall j i, j < 2 -> i < 3 ->
      let x := theta 0%R 1%R 2 i in
      let y := theta 0%R 1%R 1 j in
      let z := orbit 2 (x, y) 3 in
      let out := (at_ points [2; j; i], at_ points [3; j; i]) in
      at_ points [0; j; i] = x /\
      at_ points [1; j; i] = y /\
      out = (if Rge_dec (c_abs z) 2 then (0%R, 0%R) else z) /\
      (out = (0%R, 0%R) \/ (c_abs out < 2)%R).
Proof.
  apply (compute_points_mandelbrot
           (mandelbrot_runner
              {| mandelbrot.bailout := 2; mandelbrot.iterations_max := 3 |})
           {| mandelbrot.bailout := 2; mandelbrot.iterations_max := 3 |}
           (unit_range 2) (unit_range 1)).
  reflexivity.
Defined.

(** ** Ragged transform matrices *)

Lemma cell_at_missing (t : transform_spec) (j k : nat) (row : list cell) :
  nth_error (t_transform t) j = Some row -> length row <= k ->
  cell_at t j k = Num 0%R.
Proof.
  intros Hj Hk. unfold cell_at. rewrite (nth_error_nth _ _ _ Hj).
  apply nth_overflow. exact Hk.
Qed.

(** X23: a transform matrix whose rows are not longer than its first row,
    with valid cells, compiles although it is ragged: the rotator has one
    row per row of the matrix and one column per cell of the first row, and
    the cells a shorter row lacks are zero at every angle. *)
Theorem build_rotator_pads_short_rows (s : nat) (t : transform_spec)
    (row0 : list cell) :
  nth_error (t_transform t) 0 = Some row0 ->
  rows_fit_first t = true ->
  all_cells_valid t = true ->
  exists rotator,
    build_rotator s t = Ok rotator /\
    nd_shape rotator = [length (t_transform t); length row0; s + 1] /\
    forall j k f row,
      nth_error (t_transform t) j = Some row ->
      k < length row0 -> f < s + 1 ->
      at_ rotator [j; k; f] =
      match nth_error row k with
      | Some element => cell_value element (theta (t_min t) (t_max t) s f)
      | None => 0%R
      end.
Proof.
  intros E0 Hfit Hvalid.
  set (r := length (t_transform t)). set (c := length row0).
  assert (Hrows : forall j row, nth_error (t_transform t) j = Some row ->
            length row <= c /\
            forall k e, nth_error row k = Some e -> valid_cell e = true).
  { intros j row Hj. apply nth_error_In in Hj. split.
    - unfold rows_fit_first in Hfit.
      destruct (t_transform t) as [|first rest] eqn:Et; [discriminate|].
      simpl in E0. inversion E0; subst first.
      rewrite forallb_forall in Hfit. apply Nat.leb_le. apply Hfit. exact Hj.
    - intros k e Hk. apply nth_error_In in Hk.
      unfold all_cells_valid in Hvalid. rewrite forallb_forall in Hvalid.
      specialize (Hvalid row Hj). rewrite forallb_forall in Hvalid.
      apply Hvalid. exact Hk. }
  assert (Hbuild : build_rotator s t =
                   Ok (tabulate [r; c; s + 1] (rotator_entries s t))).
  { unfold build_rotator, py_index. rewrite E0. cbn [bind].
    fold r. fold c.
    set (thetas := np_linspace (t_min t) (t_max t) (s + 1)).
    set (sh := [r; c; s + 1]).
    set (done := fun (j k : nat) (ix : list nat) =>
                   (nth 0 ix 0 <? j)
                   || ((nth 0 ix 0 =? j) && (nth 1 ix 0 <? k))).
    set (P := fun (j : nat) (rot : ndarray) =>
                rot = tabulate sh (fun ix => if done j 0 ix
                                             then rotator_entries s t ix
                                             else 0%R)).
    destruct (for_enumerate_inv P
                (fun '(j, row) rotator =>
                   for_each (enumerate row)
                     (fun '(k, element) rotator =>
                        v <- compile_cell element thetas ;;
                        setitem rotator [I j; I k; Sl] v) rotator)
                (t_transform t) (np_zeros sh)) as [rot [E HP]].
    - unfold P, np_zeros, np_full. apply tabulate_ext. intros ix Hb.
      unfold done. rewrite !ltb_0, andb_false_r. reflexivity.
    - intros j row rot0 Hj HP0.
      assert (Hjr : j < r).
      { unfold r. apply nth_error_Some. rewrite Hj. discriminate. }
      destruct (Hrows j row Hj) as [Hc Hval].
      set (Q := fun (k : nat) (rot : ndarray) =>
                  rot = tabulate sh (fun ix => if done j k ix
                                               then rotator_entries s t ix
                                               else 0%R)).
      destruct (for_enumerate_inv Q
                  (fun '(k, element) rotator =>
                     v <- compile_cell element thetas ;;
                     setitem rotator [I j; I k; Sl] v) row rot0)
        as [rot1 [E1 HQ]].
      + exact HP0.
      + intros k e rot2 Hk HQ2.
        assert (Hkc : k < c).
        { assert (k < length row)
            by (apply nth_error_Some; rewrite Hk; discriminate).
          lia. }
        unfold Q in HQ2. subst rot2.
        rewrite (compile_cell_ok e thetas (Hval k e Hk)). cbn [bind].
        rewrite setitem_ok.
        2:{ simpl. ltb_true. reflexivity. }
        eexists. split; [reflexivity|]. unfold Q. simpl nd_shape.
        apply tabulate_ext. intros ix Hb.
        destruct (in_bounds3 _ _ _ _ Hb) as (i & k' & f & -> & Hi & Hk' & Hf).
        rewrite at_tabulate by exact Hb. unfold done. simpl nth. simpl locate.
        destruct (i =? j) eqn:Eij.
        * apply Nat.eqb_eq in Eij. subst i. rewrite Nat.ltb_irrefl. simpl orb.
          destruct (k' =? k) eqn:Ek.
          -- apply Nat.eqb_eq in Ek. subst k'.
             replace (k <? S k) with true by (symmetry; apply Nat.ltb_lt; lia).
             rewrite at_tabulate by bounds.
             unfold rotator_entries, rotator_frame, cell_at, theta. simpl nth.
             rewrite (nth_error_nth _ _ _ Hj). rewrite (nth_error_nth _ _ _ Hk).
             reflexivity.
          -- apply Nat.eqb_neq in Ek. simpl option_map.
             destruct (k' <? k) eqn:E3.
             ++ apply Nat.ltb_lt in E3.
                replace (k' <? S k) with true
                  by (symmetry; apply Nat.ltb_lt; lia).
                reflexivity.
             ++ apply Nat.ltb_ge in E3.
                replace (k' <? S k) with false
                  by (symmetry; apply Nat.ltb_ge; lia).
                reflexivity.
        * simpl andb. rewrite !orb_false_r. reflexivity.
      + exists rot1. split; [exact E1|]. unfold P. unfold Q in HQ. rewrite HQ.
        apply tabulate_ext. intros ix Hb.
        destruct (in_bounds3 _ _ _ _ Hb) as (i & k' & f & -> & Hi & Hk' & Hf).
        unfold done. simpl nth.
        rewrite ltb_0, andb_false_r, orb_false_r.
        destruct (i =? j) eqn:Eij.
        * apply Nat.eqb_eq in Eij. subst i.
          replace (j <? S j) with true by (symmetry; apply Nat.ltb_lt; lia).
          rewrite Nat.ltb_irrefl. simpl orb. simpl andb.
          destruct (k' <? length row) eqn:E3; [reflexivity|].
          apply Nat.ltb_ge in E3.
          unfold rotator_entries, rotator_frame. simpl nth.
          rewrite (cell_at_missing t j k' row Hj E3). reflexivity.
        * apply Nat.eqb_neq in Eij. simpl andb. rewrite orb_false_r.
          destruct (i <? j) eqn:E3.
          -- apply Nat.ltb_lt in E3.
             replace (i <? S j) with true by (symmetry; apply Nat.ltb_lt; lia).
             reflexivity.
          -- apply Nat.ltb_ge in E3.
             replace (i <? S j) with false by (symmetry; apply Nat.ltb_ge; lia).
             reflexivity.
    - rewrite E. f_equal. unfold P in HP. rewrite HP.
      apply tabulate_ext. intros ix Hb.
      destruct (in_bounds3 _ _ _ _ Hb) as (i & k' & f & -> & Hi & Hk' & Hf).
      unfold done. simpl nth. fold r.
      replace (i <? r) with true by (symmetry; apply Nat.ltb_lt; lia).
      reflexivity. }
  exists (tabulate [r; c; s + 1] (rotator_entries s t)).
  split; [exact Hbuild|]. split; [reflexivity|].
  intros j k f row Hj Hk Hf.
  assert (Hjr : j < r).
  { unfold r. apply nth_error_Some. rewrite Hj. discriminate. }
  rewrite at_tabulate by bounds.
  unfold rotator_entries, rotator_frame. simpl nth.
  destruct (nth_error row k) as [element|] eqn:Ek.
  - unfold cell_at. rewrite (nth_error_nth _ _ _ Hj).
    rewrite (nth_error_nth _ _ _ Ek). reflexivity.
  - apply nth_error_None in Ek.
    rewrite (cell_at_missing t j k row Hj Ek). reflexivity.
Qed.

Lemma build_rotator_pads_short_rows_witness :
  exists rotator,
    build_rotator 2 ragged_transform = Ok rotator /\
    nd_shape rotator = [2; 2; 3] /\
    forall j k f row,
      nth_error (t_transform ragged_transform) j = Some row ->
      k < 2 -> f < 3 ->
      at_ rotator [j; k; f] =
      match nth_error row k with
      | Some element => cell_value element (theta 0%R 1%R 2 f)
      | None => 0%R
      end.
Proof.
  apply (build_rotator_pads_short_rows 2 ragged_transform
           [Str "cos"; Str "-sin"]); reflexivity.
Defined.
